(** * snackmoney-cli: input parsing, validation and network resolution

    A shallow embedding of the parsing layer of the command-line client
    (amount notations, platform aliases, receiver grammars, batch
    descriptors, campaign validation, the regular-expression fallback of
    the payment agent) and of the network/credential policy, together with
    the properties the specification states about them.

    Conventions of the embedding.

    - A JavaScript string is a sequence of UTF-16 code units.  The
      development covers the strings whose code units lie in
      U+0000..U+00FF and writes them as [string], one [ascii] per code
      unit; the cents sign U+00A2 is the single character [cent].  The
      string literal the commands compare the end of an amount with is
      two code units long in the source, U+00AC and U+00A2, and is
      [centsLiteral] here; [centSign] is the cents sign alone, as the
      documentation writes amounts.
    - A JavaScript number is [NaN], an infinity, or the exact rational its
      literal denotes ([Fin q], kept in lowest terms).  Rounding to
      binary64, overflow and the sign of zero are outside the model.
    - [throw new Error(msg)] is a value [Err e] of the [result] type; the
      text of the message is [message e]. *)

From Stdlib Require Import NArith ZArith QArith Ascii String List Bool Lia.
From Stdlib Require Import DecimalString DecimalN Permutation.
Import ListNotations.
Close Scope Q_scope.
Open Scope string_scope.

(** ** Language built-ins *)

Module JS.

(** *** Characters *)

Definition code (c : ascii) : nat := nat_of_ascii c.

Definition between (lo hi : nat) (c : ascii) : bool :=
  Nat.leb lo (code c) && Nat.leb (code c) hi.

Definition isChar (x : ascii) (c : ascii) : bool := Ascii.eqb c x.

(** the cents sign, U+00A2, and the not sign, U+00AC *)
Definition cent : ascii := ascii_of_nat 162.
Definition notSign : ascii := ascii_of_nat 172.

(** [\d] *)
Definition isDigit (c : ascii) : bool := between 48 57 c.
Definition isUpper (c : ascii) : bool := between 65 90 c.
Definition isLower (c : ascii) : bool := between 97 122 c.
(** [[a-zA-Z]] *)
Definition isAlpha (c : ascii) : bool := isLower c || isUpper c.
(** [[a-zA-Z0-9]] *)
Definition isAlnum (c : ascii) : bool := isAlpha c || isDigit c.
(** [\w], which is [[a-zA-Z0-9_]] *)
Definition isWord (c : ascii) : bool := isAlnum c || isChar "_" c.

(** White space and line terminators below U+0100: TAB, LF, VT, FF, CR,
    SP and NBSP.  This is the set of [\s], of [trim] and of the prefix
    [parseFloat] skips. *)
Definition isSpace (c : ascii) : bool :=
  between 9 13 c || Nat.eqb (code c) 32 || Nat.eqb (code c) 160.

(** [toLowerCase] on one code unit: A-Z, and the capital letters
    U+00C0..U+00DE except the multiplication sign U+00D7. *)
Definition lower (c : ascii) : ascii :=
  if isUpper c || (between 192 222 c && negb (Nat.eqb (code c) 215))
  then ascii_of_nat (code c + 32) else c.

(** *** Strings *)

Fixpoint toLowerCase (s : string) : string :=
  match s with
  | EmptyString => EmptyString
  | String c r => String (lower c) (toLowerCase r)
  end.

Fixpoint trimStart (s : string) : string :=
  match s with
  | EmptyString => EmptyString
  | String c r => if isSpace c then trimStart r else s
  end.

Fixpoint trimEnd (s : string) : string :=
  match s with
  | EmptyString => EmptyString
  | String c r =>
      match trimEnd r with
      | EmptyString => if isSpace c then EmptyString else String c EmptyString
      | r' => String c r'
      end
  end.

Definition trim (s : string) : string := trimEnd (trimStart s).

Fixpoint startsWith (s p : string) {struct p} : bool :=
  match p with
  | EmptyString => true
  | String a p' =>
      match s with
      | EmptyString => false
      | String b s' => Ascii.eqb b a && startsWith s' p'
      end
  end.

Definition endsWith (s p : string) : bool :=
  Nat.leb (String.length p) (String.length s)
  && String.eqb (substring (String.length s - String.length p) (String.length p) s) p.

(** [s.includes(p)] *)
Fixpoint includes (s p : string) : bool :=
  startsWith s p
  || match s with
     | EmptyString => false
     | String _ r => includes r p
     end.

(** [s.slice(b, e)]: a negative index counts from the end, both are
    clamped to the string. *)
Definition sliceIndex (len i : Z) : Z :=
  if (i <? 0)%Z then Z.max (len + i) 0 else Z.min i len.

Definition slice (s : string) (b e : Z) : string :=
  let len := Z.of_nat (String.length s) in
  let from := sliceIndex len b in
  let to := sliceIndex len e in
  substring (Z.to_nat from) (Z.to_nat (to - from)) s.

(** [s.slice(b)] *)
Definition sliceFrom (s : string) (b : Z) : string :=
  slice s b (Z.of_nat (String.length s)).

(** [s.substring(a, b)] and [s.substring(a)] on indices that are not
    negative: clamped, and swapped when [a > b]. *)
Definition substring2 (s : string) (a b : nat) : string :=
  substring (Nat.min a b) (Nat.max a b - Nat.min a b) s.

Definition substringFrom (s : string) (a : nat) : string :=
  substring2 s a (String.length s).

(** [s.indexOf(c)] for a one-character [c]; [None] stands for -1. *)
Fixpoint indexOf (c : ascii) (s : string) : option nat :=
  match s with
  | EmptyString => None
  | String x r =>
      if Ascii.eqb x c then Some 0
      else match indexOf c r with
           | Some i => Some (S i)
           | None => None
           end
  end.

Fixpoint lastIndexOf (c : ascii) (s : string) : option nat :=
  match s with
  | EmptyString => None
  | String x r =>
      match lastIndexOf c r with
      | Some i => Some (S i)
      | None => if Ascii.eqb x c then Some 0 else None
      end
  end.

(** [s.split(c)] for a one-character separator. *)
Fixpoint split (c : ascii) (s : string) : list string :=
  match s with
  | EmptyString => [EmptyString]
  | String x r =>
      if Ascii.eqb x c then EmptyString :: split c r
      else match split c r with
           | h :: t => String x h :: t
           | [] => [String x EmptyString]
           end
  end.

(** *** Numbers *)

Inductive number : Type :=
| NaN
| Fin (q : Q)
| PosInf
| NegInf.

Definition isNaN (n : number) : bool :=
  match n with NaN => true | _ => false end.

Definition fin (q : Q) : number := Fin (Qred q).

Definition ofN (n : N) : number := fin (inject_Z (Z.of_N n)).

(** [n / d] for a positive integer constant [d] *)
Definition divBy (n : number) (d : positive) : number :=
  match n with
  | Fin q => fin (q / inject_Z (Zpos d))%Q
  | other => other
  end.

(** [0 <= n], false on [NaN] as every comparison with it *)
Definition nonNegative (n : number) : Prop :=
  match n with
  | Fin q => (0 <= q)%Q
  | PosInf => True
  | NaN | NegInf => False
  end.

Definition isFinite (n : number) : bool :=
  match n with Fin _ => true | _ => false end.

(** [Number.isInteger] *)
Definition isInteger (n : number) : bool :=
  match n with
  | Fin q => Z.eqb (Zpos (Qden (Qred q))) 1
  | _ => false
  end.

(** [a < b] *)
Definition ltb (a b : number) : bool :=
  match a, b with
  | NaN, _ | _, NaN => false
  | Fin x, Fin y => negb (Qle_bool y x)
  | Fin _, PosInf | NegInf, Fin _ | NegInf, PosInf => true
  | _, _ => false
  end.

(** *** Numeric literals *)

Definition digitVal (c : ascii) : N := N.of_nat (code c - 48).

Fixpoint digitsVal (acc : N) (s : string) : N :=
  match s with
  | EmptyString => acc
  | String c r => digitsVal (10 * acc + digitVal c) r
  end.

(** the longest prefix of decimal digits, and what follows it *)
Fixpoint spanDigits (s : string) : string * string :=
  match s with
  | EmptyString => (EmptyString, EmptyString)
  | String c r =>
      if isDigit c
      then let (d, t) := spanDigits r in (String c d, t)
      else (EmptyString, s)
  end.

Definition isEmpty (s : string) : bool :=
  match s with EmptyString => true | _ => false end.

Definition pow10 (e : Z) : Q :=
  if (0 <=? e)%Z then inject_Z (10 ^ e) else (/ inject_Z (10 ^ (- e)))%Q.

(** an optional [ExponentPart]: [e] or [E], an optional sign, one digit
    at least; 0 when there is none *)
Definition exponentPart (s : string) : Z :=
  match s with
  | String c r =>
      if isChar "e" c || isChar "E" c then
        match r with
        | String "+" r' =>
            let (d, _) := spanDigits r' in
            if isEmpty d then 0%Z else Z.of_N (digitsVal 0 d)
        | String "-" r' =>
            let (d, _) := spanDigits r' in
            if isEmpty d then 0%Z else (- Z.of_N (digitsVal 0 d))%Z
        | _ =>
            let (d, _) := spanDigits r in
            if isEmpty d then 0%Z else Z.of_N (digitsVal 0 d)
        end
      else 0%Z
  | EmptyString => 0%Z
  end.

(** the value of the longest prefix that is a [StrUnsignedDecimalLiteral]
    other than [Infinity]: digits with an optional fraction, or a
    fraction alone, and an optional exponent *)
Definition unsignedDecimal (s : string) : option Q :=
  let (ip, r1) := spanDigits s in
  match r1 with
  | String "." r2 =>
      let (fp, r3) := spanDigits r2 in
      if isEmpty ip && isEmpty fp then None
      else Some (inject_Z (Z.of_N (digitsVal 0 (ip ++ fp)))
                 * pow10 (exponentPart r3 - Z.of_nat (String.length fp)))%Q
  | _ =>
      if isEmpty ip then None
      else Some (inject_Z (Z.of_N (digitsVal 0 ip)) * pow10 (exponentPart r1))%Q
  end.

Definition signOf (s : string) : bool * string :=
  match s with
  | String "-" r => (true, r)
  | String "+" r => (false, r)
  | _ => (false, s)
  end.

Definition parseFloat (s : string) : number :=
  let (neg, u) := signOf (trimStart s) in
  if startsWith u "Infinity" then (if neg then NegInf else PosInf)
  else match unsignedDecimal u with
       | None => NaN
       | Some q => fin (if neg then (- q)%Q else q)
       end.

(** the decimal digits of a natural number, as template literals print
    an integer *)
Definition digitsOf (n : N) : string := NilZero.string_of_uint (N.to_uint n).

End JS.

(** ** Regular expressions

    The backtracking matcher of the language, in the continuation style of
    its definition: a pattern is matched against the rest of the input and
    hands the state it reaches to a continuation; the first success wins. *)

Module Regex.

Inductive regex : Type :=
| Eps
| Chr (p : ascii -> bool)
| Seq (r1 r2 : regex)
| Alt (r1 r2 : regex)
| Rep (min : nat) (max : option nat) (r : regex)
| Group (i : nat) (r : regex)
| Bol
| Eol.

(** the text captured by each group that took part in the match *)
Definition captures := list (nat * string).

Fixpoint capture (i : nat) (caps : captures) : option string :=
  match caps with
  | [] => None
  | (j, t) :: rest => if Nat.eqb i j then Some t else capture i rest
  end.

Fixpoint groupsOf (r : regex) : list nat :=
  match r with
  | Seq a b | Alt a b => groupsOf a ++ groupsOf b
  | Rep _ _ a => groupsOf a
  | Group i a => i :: groupsOf a
  | _ => []
  end.

Definition forget (gs : list nat) (caps : captures) : captures :=
  filter (fun c => negb (existsb (Nat.eqb (fst c)) gs)) caps.

(** a matcher state: the input from the current position on, that
    position, the captures so far *)
Definition cont := string -> nat -> captures -> option (nat * captures).

Definition decMax (max : option nat) : option nat :=
  match max with Some n => Some (Nat.pred n) | None => None end.

(** the greedy quantifier over a body matched by [m]: one more round
    of the body while the bounds allow it, a round that matches nothing
    being refused once the lower bound is met; the continuation is tried
    when no further round leads to a match.  A round past the lower
    bound consumes a character, so [fuel] above the lower bound plus
    the length of the input is never used up. *)
Fixpoint repeat (m : cont -> cont) (inner : list nat) (k : cont)
         (fuel : nat) (min : nat) (max : option nat) (s : string)
         (pos : nat) (caps : captures) {struct fuel}
  : option (nat * captures) :=
  match max with
  | Some 0 => k s pos caps
  | _ =>
      match fuel with
      | 0 => None
      | S fuel' =>
          let again : cont := fun s' pos' caps' =>
            if Nat.eqb min 0 && Nat.eqb pos' pos then None
            else repeat m inner k fuel' (Nat.pred min) (decMax max)
                        s' pos' caps' in
          if Nat.eqb min 0 then
            match m again s pos (forget inner caps) with
            | Some res => Some res
            | None => k s pos caps
            end
          else m again s pos (forget inner caps)
      end
  end.

Fixpoint run (r : regex) (k : cont) {struct r} : cont :=
  match r with
  | Eps => k
  | Chr p => fun s pos caps =>
      match s with
      | String c t => if p c then k t (S pos) caps else None
      | EmptyString => None
      end
  | Seq a b => run a (run b k)
  | Alt a b => fun s pos caps =>
      match run a k s pos caps with
      | Some res => Some res
      | None => run b k s pos caps
      end
  | Group i a => fun s pos caps =>
      run a (fun s' pos' caps' =>
               k s' pos' ((i, substring 0 (pos' - pos) s) :: caps'))
          s pos caps
  | Bol => fun s pos caps => if Nat.eqb pos 0 then k s pos caps else None
  | Eol => fun s pos caps => if JS.isEmpty s then k s pos caps else None
  | Rep min max a => fun s pos caps =>
      repeat (run a) (groupsOf a) k (S (min + String.length s)) min max
             s pos caps
  end.

Record found : Type := Found {
  index : nat;       (* match.index *)
  lastIndex : nat;   (* where the match ends *)
  matched : string;  (* match[0] *)
  groups : captures
}.

Definition accept : cont := fun _ pos caps => Some (pos, caps).

(** the first position from [pos] on at which the pattern matches *)
Fixpoint search (r : regex) (s : string) (pos : nat) : option found :=
  match run r accept s pos [] with
  | Some (e, caps) => Some (Found pos e (substring 0 (e - pos) s) caps)
  | None =>
      match s with
      | EmptyString => None
      | String _ t => search r t (S pos)
      end
  end.

(** [r.exec(s)] with [r.lastIndex = from] for a pattern with the [g]
    flag; without the flag [from] is 0 *)
Definition exec (r : regex) (s : string) (from : nat) : option found :=
  if Nat.ltb (String.length s) from then None
  else search r (JS.sliceFrom s (Z.of_nat from)) from.

(** [r.test(s)] and [s.match(r)] for a pattern without the [g] flag *)
Definition test (r : regex) (s : string) : bool :=
  match exec r s 0 with Some _ => true | None => false end.

Definition firstMatch (r : regex) (s : string) : option string :=
  match exec r s 0 with Some m => Some (matched m) | None => None end.

(** *** Writing patterns *)

Fixpoint seq (rs : list regex) : regex :=
  match rs with
  | [] => Eps
  | [r] => r
  | r :: rest => Seq r (seq rest)
  end.

Fixpoint alt (rs : list regex) : regex :=
  match rs with
  | [] => Eps
  | [r] => r
  | r :: rest => Alt r (alt rest)
  end.

Definition star (r : regex) : regex := Rep 0 None r.
Definition plus (r : regex) : regex := Rep 1 None r.
Definition opt (r : regex) : regex := Rep 0 (Some 1) r.

(** a literal character, and one under the [i] flag *)
Definition lit (c : ascii) : regex := Chr (JS.isChar c).
Definition liti (c : ascii) : regex := Chr (fun x => Ascii.eqb (JS.lower x) (JS.lower c)).

Fixpoint word (f : ascii -> regex) (s : string) : list regex :=
  match s with
  | EmptyString => []
  | String c r => f c :: word f r
  end.

(** a literal string, and one under the [i] flag *)
Definition str (s : string) : regex := seq (word lit s).
Definition stri (s : string) : regex := seq (word liti s).

End Regex.

(** ** Values, errors and results *)

(** What [JSON.parse] and property access can yield. *)
#[warnings="-register-all"]
Inductive value : Type :=
| Undefined
| Null
| Bool (b : bool)
| Num (n : JS.number)
| Str (s : string)
| Arr (items : list value)
| Obj (fields : list (string * value)).

(** [Error] objects of the program, by the template of their message, and
    the two errors the language raises itself. *)
Inductive error : Type :=
| InvalidCentsAmount (amountStr : string)
| InvalidDollarAmount (amountStr : string)
| InvalidAmount (amountStr : string)
| ShellVariable (dollars : N)
| InvalidXUsername (username : string)
| InvalidFarcasterUsername (username : string)
| InvalidGitHubUsername (username : string)
| InvalidEmail (email : string)
| InvalidWebDomain (domain : string)
| UnknownPlatform (platform : string)
| InvalidTargetFormat (target : string)
| InvalidFormat (input : string)
| MissingAmount (pair : string)
| NoPlatformField
| NoPaymentsArray
| NoReceiverField
| NoAmountField
| ValidationFailed (errors : list string)
| FailedToRead (filePath reason : string)
| FailedToFetch (url reason : string)
| TypeError
| SyntaxError.

Inductive result (A : Type) : Type :=
| Ok (a : A)
| Err (e : error).

Arguments Ok {A} a.
Arguments Err {A} e.

Definition bind {A B : Type} (r : result A) (f : A -> result B) : result B :=
  match r with
  | Ok a => f a
  | Err e => Err e
  end.

Notation "x <- r ;; k" := (bind r (fun x => k))
  (at level 61, r at next level, right associativity).

(** a [for ... of] loop that pushes one result per element and stops at
    the first error *)
Fixpoint forEach {A B : Type} (f : A -> result B) (l : list A)
  : result (list B) :=
  match l with
  | [] => Ok []
  | a :: rest =>
      b <- f a ;;
      bs <- forEach f rest ;;
      Ok (b :: bs)
  end.

Definition quote : string := String (ascii_of_nat 34) EmptyString.
Definition newline : string := String (ascii_of_nat 10) EmptyString.
(** the cents sign alone *)
Definition centSign : string := String JS.cent EmptyString.
(** the literal of the suffix test in [parseAmount] and of the message
    about shell variables, as the source spells it: the code units
    U+00AC and U+00A2 *)
Definition centsLiteral : string :=
  String JS.notSign (String JS.cent EmptyString).

(** [errors.map((e) => `  - ${e}`).join("\n")] *)
Fixpoint bulletLines (errors : list string) : string :=
  match errors with
  | [] => EmptyString
  | [e] => "  - " ++ e
  | e :: rest => "  - " ++ e ++ newline ++ bulletLines rest
  end.

(** the text given to [new Error]; the two errors of the language are
    shown by their name.  The message about shell variables prints two
    numbers; they are printed here by their digits, as the language prints
    an integer that a double holds exactly. *)
Definition message (e : error) : string :=
  match e with
  | InvalidCentsAmount a => "Invalid cents amount: " ++ a
  | InvalidDollarAmount a => "Invalid dollar amount: " ++ a
  | InvalidAmount a => "Invalid amount: " ++ a
  | ShellVariable dollars =>
      "Dollar amounts like $" ++ JS.digitsOf dollars
      ++ " can be interpreted as shell variables. Please use "
      ++ JS.digitsOf (dollars * 100) ++ centsLiteral
      ++ " instead (or quote as '\$" ++ JS.digitsOf dollars ++ "')."
  | InvalidXUsername u =>
      "Invalid X/Twitter username: " ++ u
      ++ ". Must be 1-15 alphanumeric characters or underscores."
  | InvalidFarcasterUsername u =>
      "Invalid Farcaster username: " ++ u
      ++ ". Must be 1-16 characters, start with alphanumeric, contain only letters, numbers, hyphens, and underscores."
  | InvalidGitHubUsername u =>
      "Invalid GitHub username: " ++ u
      ++ ". Must be 1-39 alphanumeric characters or hyphens, cannot start/end with hyphen or have consecutive hyphens."
  | InvalidEmail a => "Invalid email address: " ++ a
  | InvalidWebDomain d =>
      "Invalid web domain: " ++ d
      ++ ". Must be a valid domain name (e.g., snack.money)"
  | UnknownPlatform p =>
      "Unknown platform: " ++ p
      ++ ". Supported: x, twitter, farcaster, github, email, web (with optional domain extensions)"
  | InvalidTargetFormat t =>
      "Invalid payment target format: " ++ t
      ++ ". Expected format: platform/username"
  | InvalidFormat i =>
      "Invalid format: " ++ i
      ++ ". Expected: platform/receiver1:amount1,receiver2:amount2"
  | MissingAmount p =>
      "Missing amount for " ++ p ++ ". Format: receiver:amount"
  | NoPlatformField => "JSON must contain " ++ quote ++ "platform" ++ quote ++ " field"
  | NoPaymentsArray => "JSON must contain " ++ quote ++ "payments" ++ quote ++ " array"
  | NoReceiverField => "Each payment must have " ++ quote ++ "receiver" ++ quote ++ " field"
  | NoAmountField => "Each payment must have " ++ quote ++ "amount" ++ quote ++ " field"
  | ValidationFailed errors => "Validation failed:" ++ newline ++ bulletLines errors
  | FailedToRead p reason => "Failed to read file " ++ p ++ ": " ++ reason
  | FailedToFetch u reason => "Failed to fetch " ++ u ++ ": " ++ reason
  | TypeError => "TypeError"
  | SyntaxError => "SyntaxError"
  end.

Module Value.

(** [!!v] *)
Definition truthy (v : value) : bool :=
  match v with
  | Undefined | Null => false
  | Bool b => b
  | Num (JS.Fin q) => negb (Qeq_bool q 0)
  | Num JS.NaN => false
  | Num _ => true
  | Str s => negb (JS.isEmpty s)
  | Arr _ | Obj _ => true
  end.

Fixpoint field (k : string) (fields : list (string * value)) : value :=
  match fields with
  | [] => Undefined
  | (k', v) :: rest => if String.eqb k k' then v else field k rest
  end.

(** [v.k] for the property names the program reads, none of which is
    an index or a member of a prototype: a [TypeError] on [undefined] and
    [null], the own property of an object, the [length] of a string or an
    array, and [undefined] otherwise. *)
Definition get (v : value) (k : string) : result value :=
  match v with
  | Undefined | Null => Err TypeError
  | Obj fields => Ok (field k fields)
  | Str s =>
      if String.eqb k "length"
      then Ok (Num (JS.ofN (N.of_nat (String.length s)))) else Ok Undefined
  | Arr items =>
      if String.eqb k "length"
      then Ok (Num (JS.ofN (N.of_nat (List.length items)))) else Ok Undefined
  | Bool _ | Num _ => Ok Undefined
  end.

(** [Object.hasOwn(o, k)] *)
Definition hasOwn (k : string) (fields : list (string * value)) : bool :=
  existsb (fun f => String.eqb k (fst f)) fields.

Section Join.

Variable element : value -> result string.

(** [Array.prototype.join] with the separator [,] *)
Fixpoint joinText (vs : list value) : result string :=
  match vs with
  | [] => Ok EmptyString
  | [v] => element v
  | v :: rest =>
      head <- element v ;;
      tail <- joinText rest ;;
      Ok (head ++ "," ++ tail)
  end.

End Join.

Section Coercion.

(** [Number.prototype.toString], the decimal text of a number *)
Variable numberText : JS.number -> string.

(** [String(v)], the coercion of template literals and of the argument
    of [RegExp.prototype.test].  An array joins the texts of its elements,
    [null] and [undefined] counting as empty.  An object is
    [[object Object]] by the method it inherits; one that has a member
    [toString] of its own, which in a JSON document is never a function,
    cannot be converted, and the coercion throws. *)
Fixpoint toText (v : value) : result string :=
  match v with
  | Undefined => Ok "undefined"
  | Null => Ok "null"
  | Bool true => Ok "true"
  | Bool false => Ok "false"
  | Num n => Ok (numberText n)
  | Str s => Ok s
  | Arr items =>
      joinText (fun v => match v with
                         | Undefined | Null => Ok EmptyString
                         | other => toText other
                         end) items
  | Obj fields =>
      if hasOwn "toString" fields then Err TypeError
      else Ok "[object Object]"
  end.

End Coercion.

End Value.

(** ** Network and credential resolution

    The same statements open [pay.ts], the send and batch commands, the
    payment agent and the campaign command. *)

Module Network.

Inductive network : Type := Base | Solana.

(** the ways the resolution ends the process, by what it prints *)
Inductive failure : Type :=
| InvalidNetwork      (* network must be either 'base' or 'solana' *)
| MissingSvmKey       (* Missing SVM_PRIVATE_KEY ... (needed for --network solana) *)
| MissingEvmKey       (* Missing EVM_PRIVATE_KEY ... (needed for --network base) *)
| BothKeysSet         (* Both EVM_PRIVATE_KEY and SVM_PRIVATE_KEY ... are set *)
| NoPrivateKeys.      (* No private keys found in environment variables *)

Inductive outcome : Type :=
| Exit (f : failure)
| Run (useSolana : bool).

Definition allowedNetworks : list string := ["base"; "solana"].

(** [!!process.env.KEY]: set, and not to the empty string *)
Definition hasKey (env : option string) : bool :=
  match env with
  | Some k => negb (JS.isEmpty k)
  | None => false
  end.

(** [if (args.network)] for a flag that is absent or carries a string;
    [fromArgument] below takes the flag as the argument parser delivers
    it *)
Definition given (flag : option string) : option string :=
  match flag with
  | Some n => if JS.isEmpty n then None else Some n
  | None => None
  end.

Definition useSolana (flag : option string) (hasEvmKey hasSvmKey : bool)
  : outcome :=
  match given flag with
  | Some network =>
      if negb (existsb (String.eqb (JS.toLowerCase network)) allowedNetworks)
      then Exit InvalidNetwork
      else
        let useSolana := String.eqb (JS.toLowerCase network) "solana" in
        if useSolana && negb hasSvmKey then Exit MissingSvmKey
        else if negb useSolana && negb hasEvmKey then Exit MissingEvmKey
        else Run useSolana
  | None =>
      if hasEvmKey && hasSvmKey then Exit BothKeysSet
      else if hasSvmKey then Run true
      else if hasEvmKey then Run false
      else Exit NoPrivateKeys
  end.

Definition selected (useSolana : bool) : network :=
  if useSolana then Solana else Base.

(** the resolution as the commands run it, from the environment *)
Definition resolve (flag privateKey svmPrivateKey : option string) : outcome :=
  useSolana flag (hasKey privateKey) (hasKey svmPrivateKey).

(** how the statements end: with an outcome of the resolution, or with
    an error that nothing catches *)
Inductive ending : Type :=
| Ended (o : outcome)
| Thrown (e : error).

(** the same statements on [args.network] as the argument parser
    delivers it: [undefined] without the flag, a string, but also a
    number for a numeric text, [true] for a flag without a value, an
    array for a flag given twice.  [if (args.network)] asks whether the
    value is truthy, and [args.network.toLowerCase()] is a call only a
    string answers. *)
Definition fromArgument (network : value) (hasEvmKey hasSvmKey : bool)
  : ending :=
  if Value.truthy network then
    match network with
    | Str n => Ended (useSolana (Some n) hasEvmKey hasSvmKey)
    | _ => Thrown TypeError
    end
  else Ended (useSolana None hasEvmKey hasSvmKey).

End Network.

(** ** Platforms and receivers

    [normalizePlatform] and the five validators have the same text in the
    send and the batch command. *)

Module Receiver.

Import Regex.

(** What [platformMap[lower]] evaluates to: the name stored under an own
    key, or the member every object inherits from [Object.prototype]
    under that key. *)
Inductive identity : Type :=
| Platform (name : string)
| Inherited (key : string).

Definition platformMap : list (string * string) :=
  [ ("x", "x"); ("x.com", "x"); ("twitter", "x"); ("twitter.com", "x");
    ("farcaster", "farcaster"); ("farcaster.xyz", "farcaster");
    ("github", "github"); ("github.com", "github");
    ("email", "email"); ("web", "web") ].

Definition objectPrototype : list string :=
  [ "constructor"; "__proto__"; "hasOwnProperty"; "isPrototypeOf";
    "propertyIsEnumerable"; "toLocaleString"; "toString"; "valueOf";
    "__defineGetter__"; "__defineSetter__"; "__lookupGetter__";
    "__lookupSetter__" ].

Fixpoint own (k : string) (m : list (string * string)) : option string :=
  match m with
  | [] => None
  | (k', v) :: rest => if String.eqb k k' then Some v else own k rest
  end.

Definition normalizePlatform (platform : string) : result identity :=
  let lower := JS.toLowerCase platform in
  match own lower platformMap with
  | Some normalized => Ok (Platform normalized)
  | None =>
      if existsb (String.eqb lower) objectPrototype
      then Ok (Inherited lower)
      else Err (UnknownPlatform platform)
  end.

Definition hyphen : ascii := "-".

(** [[a-zA-Z0-9_-]] *)
Definition isHandle (c : ascii) : bool := JS.isWord c || JS.isChar hyphen c.
(** [[a-zA-Z0-9-]] *)
Definition isLabel (c : ascii) : bool := JS.isAlnum c || JS.isChar hyphen c.
(** [[a-zA-Z0-9._%+-]] *)
Definition isLocal (c : ascii) : bool :=
  JS.isAlnum c || JS.isChar "." c || JS.isChar "_" c || JS.isChar "%" c
  || JS.isChar "+" c || JS.isChar hyphen c.
(** [[a-zA-Z0-9.-]] *)
Definition isHost (c : ascii) : bool :=
  JS.isAlnum c || JS.isChar "." c || JS.isChar hyphen c.

(** [/^[a-zA-Z0-9_]{1,15}$/] *)
Definition xUsername : regex :=
  seq [Bol; Rep 1 (Some 15) (Chr JS.isWord); Eol].

(** [/^[a-zA-Z0-9][a-zA-Z0-9_-]{0,15}$/] *)
Definition farcasterUsername : regex :=
  seq [Bol; Chr JS.isAlnum; Rep 0 (Some 15) (Chr isHandle); Eol].

(** [/^[a-zA-Z0-9]([a-zA-Z0-9-]{0,37}[a-zA-Z0-9])?$/] *)
Definition gitHubUsername : regex :=
  seq [Bol; Chr JS.isAlnum;
       opt (Group 1 (seq [Rep 0 (Some 37) (Chr isLabel); Chr JS.isAlnum]));
       Eol].

(** [/--/] *)
Definition twoHyphens : regex := str "--".

(** [/^[a-zA-Z0-9._%+-]+@[a-zA-Z0-9.-]+\.[a-zA-Z]{2,}$/] *)
Definition emailRegex : regex :=
  seq [Bol; plus (Chr isLocal); lit "@"; plus (Chr isHost); lit ".";
       Rep 2 None (Chr JS.isAlpha); Eol].

(** [/^([a-zA-Z0-9]([a-zA-Z0-9-]{0,61}[a-zA-Z0-9])?\.)+[a-zA-Z]{2,}$/] *)
Definition domainRegex : regex :=
  seq [Bol;
       plus (Group 1 (seq [Chr JS.isAlnum;
                           opt (Group 2 (seq [Rep 0 (Some 61) (Chr isLabel);
                                              Chr JS.isAlnum]));
                           lit "."]));
       Rep 2 None (Chr JS.isAlpha); Eol].

Definition validateXUsername (username : string) : result unit :=
  if negb (test xUsername username)
  then Err (InvalidXUsername username) else Ok tt.

Definition validateFarcasterUsername (username : string) : result unit :=
  if negb (test farcasterUsername username)
  then Err (InvalidFarcasterUsername username) else Ok tt.

Definition validateGitHubUsername (username : string) : result unit :=
  if negb (test gitHubUsername username) || test twoHyphens username
  then Err (InvalidGitHubUsername username) else Ok tt.

Definition validateEmail (email : string) : result unit :=
  if negb (test emailRegex email) then Err (InvalidEmail email) else Ok tt.

Definition validateWebDomain (domain : string) : result unit :=
  if negb (test domainRegex domain)
  then Err (InvalidWebDomain domain) else Ok tt.

(** the [switch] on the platform, whose cases are the five names and
    which has no [default] *)
Definition validateReceiver (platform : identity) (receiver : string)
  : result unit :=
  match platform with
  | Platform "x" => validateXUsername receiver
  | Platform "farcaster" => validateFarcasterUsername receiver
  | Platform "github" => validateGitHubUsername receiver
  | Platform "email" => validateEmail receiver
  | Platform "web" => validateWebDomain receiver
  | _ => Ok tt
  end.

Definition allowedIdentities : list string :=
  ["x"; "farcaster"; "web"; "email"; "github"].

(** [allowedIdentities.includes(receiverIdentity)] *)
Definition allowed (receiverIdentity : identity) : bool :=
  match receiverIdentity with
  | Platform name => existsb (String.eqb name) allowedIdentities
  | Inherited _ => false
  end.

End Receiver.

(** ** The send command *)

Module Send.

Import Receiver.

(** [/^\d+$/] *)
Definition allDigits : Regex.regex :=
  Regex.seq [Regex.Bol; Regex.plus (Regex.Chr JS.isDigit); Regex.Eol].

Definition parseAmount (amountStr : string) : result JS.number :=
  let trimmed := JS.trim amountStr in
  if JS.endsWith trimmed centsLiteral then
    let cents := JS.parseFloat (JS.slice trimmed 0 (-1)) in
    if JS.isNaN cents then Err (InvalidCentsAmount amountStr)
    else Ok (JS.divBy cents 100)
  else if JS.startsWith trimmed "$" then
    let dollarPart := JS.sliceFrom trimmed 1 in
    if Regex.test allDigits dollarPart then
      (* parseInt(dollarPart, 10) on a string of digits: the integer
         they denote, which the code holds as a double *)
      let dollars := JS.digitsVal 0 dollarPart in
      Err (ShellVariable dollars)
    else
      let dollars := JS.parseFloat dollarPart in
      if JS.isNaN dollars then Err (InvalidDollarAmount amountStr)
      else Ok dollars
  else
    let amount := JS.parseFloat trimmed in
    if JS.isNaN amount then Err (InvalidAmount amountStr)
    else Ok amount.

Definition parsePaymentTarget (target : string)
  : result (identity * string) :=
  match JS.split "/" target with
  | [platform; receiver] =>
      identity <- normalizePlatform platform ;;
      _ <- match identity with
           | Platform "x" => validateXUsername receiver
           | Platform "farcaster" => validateFarcasterUsername receiver
           | Platform "github" => validateGitHubUsername receiver
           | Platform "email" => validateEmail receiver
           | Platform "web" => validateWebDomain receiver
           | _ => Ok tt
           end ;;
      Ok (identity, receiver)
  | _ => Err (InvalidTargetFormat target)
  end.

(** the two positional arguments of [snackmoney send] *)
Definition parseArguments (target amount : string)
  : result (identity * string * JS.number) :=
  t <- parsePaymentTarget target ;;
  a <- parseAmount amount ;;
  Ok (fst t, snd t, a).

End Send.

(** ** The batch command *)

Module BatchSend.

Import Receiver.

Record payment : Type := Payment { receiver : value; amount : JS.number }.

Record batch : Type := Batch { platform : identity; payments : list payment }.

(** the amount of a pair is a string; the amount of a JSON record is
    whatever the document holds *)
Definition parseAmount (amountStr : value) : result JS.number :=
  match amountStr with
  | Num n => Ok n
  | Str raw =>
      let trimmed := JS.trim raw in
      if JS.endsWith trimmed centsLiteral then
        let cents := JS.parseFloat (JS.slice trimmed 0 (-1)) in
        if JS.isNaN cents then Err (InvalidCentsAmount raw)
        else Ok (JS.divBy cents 100)
      else if JS.startsWith trimmed "$" then
        let dollars := JS.parseFloat (JS.sliceFrom trimmed 1) in
        if JS.isNaN dollars then Err (InvalidDollarAmount raw)
        else Ok dollars
      else
        let amount := JS.parseFloat trimmed in
        if JS.isNaN amount then Err (InvalidAmount raw)
        else Ok amount
  | _ => Err TypeError
  end.

Definition parseCommaSeparated (input : string) : result batch :=
  match JS.indexOf "/" input with
  | None => Err (InvalidFormat input)
  | Some firstSlash =>
      let platformStr := JS.substring2 input 0 firstSlash in
      let receiversStr := JS.substringFrom input (firstSlash + 1) in
      platform <- normalizePlatform platformStr ;;
      let pairs := JS.split "," receiversStr in
      payments <-
        forEach (fun pair =>
                   match JS.lastIndexOf ":" pair with
                   | None => Err (MissingAmount pair)
                   | Some colonIndex =>
                       let receiver := JS.substring2 pair 0 colonIndex in
                       let amountStr := JS.substringFrom pair (colonIndex + 1) in
                       _ <- validateReceiver platform receiver ;;
                       amount <- parseAmount (Str amountStr) ;;
                       Ok (Payment (Str receiver) amount)
                   end) pairs ;;
      Ok (Batch platform payments)
  end.

Section Environment.

Variable numberText : JS.number -> string.

(** [JSON.parse], and the two loaders, which read a document and parse
    it, and throw [FailedToRead] and [FailedToFetch] *)
Variable JSON_parse : string -> result value.
Variable loadFromFile : string -> result value.
Variable loadFromURL : string -> result value.

(** [validateReceiver] on a receiver that need not be a string: the
    validator the [switch] selects, if it selects one, coerces it *)
Definition validateReceiverValue (platform : identity) (receiver : value)
  : result unit :=
  if allowed platform then
    text <- Value.toText numberText receiver ;;
    validateReceiver platform text
  else Ok tt.

Definition parseJSONPayments (data : value) : result batch :=
  platformField <- Value.get data "platform" ;;
  if negb (Value.truthy platformField) then Err NoPlatformField
  else
    paymentsField <- Value.get data "payments" ;;
    match paymentsField with
    | Arr items =>
        platform <- match platformField with
                    | Str p => normalizePlatform p
                    | _ => Err TypeError
                    end ;;
        payments <-
          forEach (fun payment =>
                     receiver <- Value.get payment "receiver" ;;
                     if negb (Value.truthy receiver) then Err NoReceiverField
                     else
                       amountField <- Value.get payment "amount" ;;
                       match amountField with
                       | Undefined => Err NoAmountField
                       | _ =>
                           _ <- validateReceiverValue platform receiver ;;
                           amount <- parseAmount amountField ;;
                           Ok (Payment receiver amount)
                       end) items ;;
        Ok (Batch platform payments)
    | _ => Err NoPaymentsArray
    end.

Definition parseInput (input : string) : result batch :=
  if JS.startsWith input "http://" || JS.startsWith input "https://" then
    data <- loadFromURL input ;;
    parseJSONPayments data
  else if JS.startsWith input "file:" || JS.endsWith input ".json" then
    data <- loadFromFile input ;;
    parseJSONPayments data
  else if JS.startsWith input "{" then
    data <- JSON_parse input ;;
    parseJSONPayments data
  else parseCommaSeparated input.

End Environment.

End BatchSend.

(** ** The payment agent *)

Module Agent.

Import Regex.

Record instruction : Type :=
  Instruction { receiver : string; amount : JS.number; platform : string }.

(** the object literal pushed for an instruction *)
Definition objectOf (i : instruction) : value :=
  Obj [ ("receiver", Str (receiver i)); ("amount", Num (amount i));
        ("platform", Str (platform i)) ].

Definition space : regex := Chr JS.isSpace.
Definition digit : regex := Chr JS.isDigit.

(** the group of an amount, [\d+\.?\d*] *)
Definition quantity (i : nat) : regex :=
  Group i (seq [plus digit; opt (lit "."); star digit]).

(** a handle, [@?] and the group [\w+] *)
Definition handle (i : nat) : regex :=
  seq [opt (lit "@"); Group i (plus (Chr JS.isWord))].

(** the group [x|farcaster|web|email|github] under the [i] flag *)
Definition network (i : nat) : regex :=
  Group i (alt [stri "x"; stri "farcaster"; stri "web"; stri "email";
                stri "github"]).

(** the three patterns, flags [gi], each with its [source] *)
Definition patterns : list (string * regex) :=
  [ ("send\s+(\d+\.?\d*)\s+usdc\s+to\s+@?(\w+)\s+on\s+(x|farcaster|web|email|github)",
     seq [stri "send"; plus space; quantity 1; plus space; stri "usdc";
          plus space; stri "to"; plus space; handle 2; plus space;
          stri "on"; plus space; network 3]);
    ("pay\s+@?(\w+)\s+(\d+\.?\d*)\s+usdc\s+on\s+(x|farcaster|web|email|github)",
     seq [stri "pay"; plus space; handle 1; plus space; quantity 2;
          plus space; stri "usdc"; plus space; stri "on"; plus space;
          network 3]);
    ("@?(\w+)\s+on\s+(x|farcaster|web|email|github)\s+(\d+\.?\d*)\s+usdc",
     seq [handle 1; plus space; stri "on"; plus space; network 2;
          plus space; quantity 3; plus space; stri "usdc"]) ].

(** [match[i]]; every group of the three patterns takes part in every
    match *)
Definition group (i : nat) (m : found) : string :=
  match capture i (groups m) with
  | Some text => text
  | None => EmptyString
  end.

Definition instructionOf (source : string) (m : found) : instruction :=
  if JS.includes source "send" then
    Instruction (group 2 m) (JS.parseFloat (group 1 m))
                (JS.toLowerCase (group 3 m))
  else if JS.includes source "pay" then
    Instruction (group 1 m) (JS.parseFloat (group 2 m))
                (JS.toLowerCase (group 3 m))
  else
    Instruction (group 1 m) (JS.parseFloat (group 3 m))
                (JS.toLowerCase (group 2 m)).

(** [while ((match = pattern.exec(prompt)) !== null)], each call
    starting where the last match ended; [None] when the fuel does not
    reach the call that returns [null] *)
Fixpoint execAll (fuel : nat) (pattern : regex) (prompt : string)
         (from : nat) : option (list found) :=
  match fuel with
  | 0 => None
  | S fuel' =>
      match exec pattern prompt from with
      | None => Some []
      | Some m =>
          match execAll fuel' pattern prompt (lastIndex m) with
          | Some ms => Some (m :: ms)
          | None => None
          end
      end
  end.

Fixpoint collect (ps : list (string * regex)) (prompt : string)
         (instructions : list instruction) : option (list instruction) :=
  match ps with
  | [] => Some instructions
  | (source, pattern) :: rest =>
      match execAll (S (S (String.length prompt))) pattern prompt 0 with
      | Some ms =>
          collect rest prompt (instructions ++ map (instructionOf source) ms)
      | None => None
      end
  end.

Definition fallbackParser (prompt : string) : option (list instruction) :=
  collect patterns prompt [].

(** [/\[[\s\S]*\]/] *)
Definition bracketed : regex :=
  seq [lit "["; star (Chr (fun _ => true)); lit "]"].

Section Environment.

Variable numberText : JS.number -> string.

Variable JSON_parse : string -> result value.

(** the request to a provider and the text of its answer *)
Variable openai : string -> result string.
Variable claude : string -> result string.

Variable openaiApiKey : option string.
Variable anthropicApiKey : option string.

(** the line printed for a parsed instruction puts its amount, its
    receiver and its platform into a text, in this order; the line is no
    part of the result, a failure to build it is *)
Definition summary (inst : value) : result unit :=
  amount <- Value.get inst "amount" ;;
  _ <- Value.toText numberText amount ;;
  receiver <- Value.get inst "receiver" ;;
  _ <- Value.toText numberText receiver ;;
  platform <- Value.get inst "platform" ;;
  _ <- Value.toText numberText platform ;;
  Ok tt.

Definition parseAIResponse (content : string)
  : option (result (list value)) :=
  match firstMatch bracketed content with
  | None =>
      match fallbackParser content with
      | Some instructions => Some (Ok (map objectOf instructions))
      | None => None
      end
  | Some text =>
      Some (instructions <- JSON_parse text ;;
            match instructions with
            | Arr items =>
                _ <- forEach summary items ;;
                Ok items
            | _ => Err TypeError
            end)
  end.

Definition parseWithOpenAI (prompt : string) : option (result (list value)) :=
  match openai prompt with
  | Ok content => parseAIResponse content
  | Err e => Some (Err e)
  end.

Definition parseWithClaude (prompt : string) : option (result (list value)) :=
  match claude prompt with
  | Ok content => parseAIResponse content
  | Err e => Some (Err e)
  end.

Definition parsePaymentRequest (prompt : string)
  : option (result (list value)) :=
  if Network.hasKey openaiApiKey then parseWithOpenAI prompt
  else if Network.hasKey anthropicApiKey then parseWithClaude prompt
  else match fallbackParser prompt with
       | Some instructions => Some (Ok (map objectOf instructions))
       | None => None
       end.

End Environment.

End Agent.

(** ** The campaign command *)

Module Campaign.

Definition push (errors : list string) (e : string) : list string :=
  errors ++ [e].

(** [["x", "farcaster"].includes(v)] *)
Definition isCampaignPlatform (v : value) : bool :=
  match v with
  | Str p => String.eqb p "x" || String.eqb p "farcaster"
  | _ => false
  end.

Section Environment.

Variable numberText : JS.number -> string.

(** whether [new URL(s)] returns rather than throws *)
Variable URL_valid : string -> bool.

Definition checkPlatform (platform : value) (errors : list string)
  : result (list string) :=
  if negb (Value.truthy platform) then
    Ok (push errors "platform is required (must be 'x' or 'farcaster')")
  else if negb (isCampaignPlatform platform) then
    got <- Value.toText numberText platform ;;
    Ok (push errors ("platform must be 'x' or 'farcaster', got: " ++ got))
  else Ok errors.

(** the four-way check of a text field: present, a string, and of a
    length within the two bounds *)
Definition checkText (label : string) (min max : nat) (unit : string)
           (v : value) (errors : list string) : list string :=
  if negb (Value.truthy v) then push errors (label ++ " is required")
  else match v with
       | Str s =>
           if Nat.ltb (String.length s) min then
             push errors (label ++ " must be at least "
                          ++ JS.digitsOf (N.of_nat min) ++ " " ++ unit)
           else if Nat.ltb max (String.length s) then
             push errors (label ++ " must be at most "
                          ++ JS.digitsOf (N.of_nat max) ++ " characters")
           else errors
       | _ => push errors (label ++ " must be a string")
       end.

Definition checkTotalCookies (totalCookies : value) (errors : list string)
  : list string :=
  match totalCookies with
  | Undefined | Null => push errors "totalCookies is required"
  | Num n =>
      if negb (JS.isInteger n) then
        push errors "totalCookies must be an integer"
      else if JS.ltb n (JS.ofN 3) then
        push errors "totalCookies must be at least 3"
      else if JS.ltb (JS.ofN 10) n then
        push errors "totalCookies must be at most 10"
      else errors
  | _ => push errors "totalCookies must be a number"
  end.

Definition checkUrl (url : value) (errors : list string) : list string :=
  match url with
  | Undefined | Null => errors
  | Str s =>
      if URL_valid s then errors
      else push errors ("sponsor.url must be a valid URL: " ++ s)
  | _ => push errors "sponsor.url must be a string"
  end.

Definition validateCampaignData (data : value) : result value :=
  let errors := [] in
  platform <- Value.get data "platform" ;;
  errors <- checkPlatform platform errors ;;
  name <- Value.get data "name" ;;
  let errors := checkText "name" 3 100 "characters" name errors in
  description <- Value.get data "description" ;;
  let errors :=
    checkText "description" 10 500 "characters" description errors in
  totalCookies <- Value.get data "totalCookies" ;;
  let errors := checkTotalCookies totalCookies errors in
  sponsor <- Value.get data "sponsor" ;;
  errors <-
    (if negb (Value.truthy sponsor) then
       Ok (push errors "sponsor is required")
     else
       sponsorName <- Value.get sponsor "name" ;;
       let errors :=
         checkText "sponsor.name" 1 100 "character" sponsorName errors in
       sponsorHandle <- Value.get sponsor "handle" ;;
       let errors :=
         checkText "sponsor.handle" 1 50 "character" sponsorHandle errors in
       url <- Value.get sponsor "url" ;;
       Ok (checkUrl url errors)) ;;
  match errors with
  | [] => Ok data
  | _ => Err (ValidationFailed errors)
  end.

End Environment.

End Campaign.

(** ** The network of the signer

    Every command creates its signer in the same way, from the network
    that was resolved and the address of the server. *)

Module Signer.

Definition defaultURL : string := "https://api.snack.money".

(** [process.env.RESOURCE_SERVER_URL || "https://api.snack.money"] *)
Definition baseURL (env : option string) : string :=
  match env with
  | Some url => if JS.isEmpty url then defaultURL else url
  | None => defaultURL
  end.

(** whether the server is a local one *)
Definition isLocal (baseURL : string) : bool :=
  JS.includes baseURL "localhost" || JS.includes baseURL "127.0.0.1".

(** the [network] of [main] *)
Definition network (useSolana : bool) (baseURL : string) : string :=
  if useSolana then
    if isLocal baseURL then "solana-devnet" else "solana"
  else "base".

(** the name the commands print for it *)
Definition networkLabel (useSolana : bool) (network : string) : string :=
  if useSolana then
    if String.eqb network "solana" then "Solana Mainnet" else "Solana Devnet"
  else "Base".

(** the [networkName] of the payment agent, from the address itself *)
Definition networkName (useSolana : bool) (baseURL : string) : string :=
  if useSolana then
    if isLocal baseURL then "Solana Devnet" else "Solana Mainnet"
  else "Base".

End Signer.

(** ** The send command, from its arguments to its request *)

Module SendCommand.

Import Receiver.

(** the ways the command ends before it sends anything *)
Inductive exit : Type :=
| Usage                                   (* fewer than two arguments *)
| Rejected (e : error)                    (* an error of the parsers *)
| PlatformNotAllowed (identity : identity)
| NoNetwork (f : Network.failure).

(** what is posted: the path names the identity, the body carries the
    amount and the receiver *)
Record request : Type := Request {
  receiverIdentity : identity;
  receiver : string;
  amount : JS.number;
  useSolana : bool
}.

Inductive outcome : Type :=
| Exit (e : exit)
| Post (r : request).

(** a positional argument as the parsers use it: they call [split] and
    [trim], which only a string has *)
Definition text (v : value) : result string :=
  match v with
  | Str s => Ok s
  | _ => Err TypeError
  end.

Definition command (positional : list value)
           (network privateKey svmPrivateKey : option string) : outcome :=
  match positional with
  | first :: second :: _ =>
      match (target <- text first ;;
             parsed <- Send.parsePaymentTarget target ;;
             amountStr <- text second ;;
             amount <- Send.parseAmount amountStr ;;
             Ok (parsed, amount)) with
      | Err e => Exit (Rejected e)
      | Ok ((identity, receiver), amount) =>
          if negb (allowed identity) then Exit (PlatformNotAllowed identity)
          else
            match Network.resolve network privateKey svmPrivateKey with
            | Network.Exit f => Exit (NoNetwork f)
            | Network.Run useSolana =>
                Post (Request identity receiver amount useSolana)
            end
      end
  | _ => Exit Usage
  end.

(** [`/payments/${receiverIdentity}/pay`], for an identity that is a
    name *)
Definition endpoint (receiverIdentity : string) : string :=
  "/payments/" ++ receiverIdentity ++ "/pay".

End SendCommand.

(** ** The batch command, from its argument to its request *)

Module BatchSendCommand.

Import Receiver.

Inductive exit : Type :=
| Usage                                   (* no argument *)
| Rejected (e : error)                    (* an error of the parsers *)
| PlatformNotAllowed (identity : identity)
| NoNetwork (f : Network.failure).

Record request : Type := Request {
  receiverIdentity : identity;
  receivers : list BatchSend.payment;
  useSolana : bool
}.

Inductive outcome : Type :=
| Exit (e : exit)
| Post (r : request).

Section Environment.

Variable numberText : JS.number -> string.
Variable JSON_parse : string -> result value.
Variable loadFromFile : string -> result value.
Variable loadFromURL : string -> result value.

(** [parseInput] on [args._[0]], then [init] *)
Definition init (positional : list value)
           (network privateKey svmPrivateKey : option string) : outcome :=
  match positional with
  | [] => Exit Usage
  | first :: _ =>
      match (input <- SendCommand.text first ;;
             BatchSend.parseInput numberText JSON_parse loadFromFile
                                  loadFromURL input) with
      | Err e => Exit (Rejected e)
      | Ok parsed =>
          let identity := BatchSend.platform parsed in
          if negb (allowed identity) then Exit (PlatformNotAllowed identity)
          else
            match Network.resolve network privateKey svmPrivateKey with
            | Network.Exit f => Exit (NoNetwork f)
            | Network.Run useSolana =>
                Post (Request identity (BatchSend.payments parsed) useSolana)
            end
      end
  end.

End Environment.

(** [`/payments/${receiverIdentity}/batch-pay`], for an identity that is
    a name *)
Definition endpoint (receiverIdentity : string) : string :=
  "/payments/" ++ receiverIdentity ++ "/batch-pay".

End BatchSendCommand.

(** ** The pay command of [pay.ts], by flags *)

Module Pay.

Inductive exit : Type :=
| Usage               (* a flag is missing *)
| IdentityNotAllowed  (* receiver_identity must be either ... *)
| InvalidAmount       (* Amount must be a valid number *)
| NoNetwork (f : Network.failure)
| Uncaught (e : error).

(** the identity and the receiver are posted as the flags hold them *)
Record request : Type := Request {
  receiver_identity : string;
  receiver : value;
  amount : JS.number;
  useSolana : bool
}.

Inductive outcome : Type :=
| Exit (e : exit)
| Post (r : request).

Section Environment.

Variable numberText : JS.number -> string.

Definition command (receiver_identity receiver amount : value)
           (network privateKey svmPrivateKey : option string) : outcome :=
  if negb (Value.truthy receiver_identity) || negb (Value.truthy receiver)
     || negb (Value.truthy amount)
  then Exit Usage
  else
    match receiver_identity with
    | Str identity =>
        if negb (existsb (String.eqb (JS.toLowerCase identity))
                         Receiver.allowedIdentities)
        then Exit IdentityNotAllowed
        else
          match Value.toText numberText amount with
          | Err e => Exit (Uncaught e)
          | Ok amountText =>
              let amount := JS.parseFloat amountText in
              if JS.isNaN amount then Exit InvalidAmount
              else
                match Network.resolve network privateKey svmPrivateKey with
                | Network.Exit f => Exit (NoNetwork f)
                | Network.Run useSolana =>
                    (* [main] prints [args.receiver] in a template
                       literal before it posts *)
                    match Value.toText numberText receiver with
                    | Err e => Exit (Uncaught e)
                    | Ok _ => Post (Request identity receiver amount useSolana)
                    end
                end
          end
    | _ => Exit (Uncaught TypeError)   (* no [toLowerCase] but on a string *)
    end.

End Environment.

(** [`/payments/${args.receiver_identity}/pay`] *)
Definition endpoint (r : request) : string :=
  "/payments/" ++ receiver_identity r ++ "/pay".

End Pay.

(** ** The command line *)

Module Cli.

Definition commands : list (string * string) :=
  [ ("pay", "pay.js"); ("batch-pay", "batch_pay.js");
    ("ai-agent", "ai-payment-agent.js");
    ("sponsor-a-cookie", "sponsor-a-cookie.js") ].

Inductive action : Type :=
| ShowHelp                                  (* and exit 0 *)
| ShowVersion                               (* and exit 0 *)
| RunCommand (commandFile : string) (commandArgs : list string)
| UnknownCommand (command : string)         (* and exit 1 *)
| Uncaught (e : error).

(** [main] on [process.argv.slice(2)].  [command in commands] also holds
    of the members every object inherits; what the table then yields is
    no string, and [join] refuses it. *)
Definition main (args : list string) : action :=
  match args with
  | [] => ShowHelp
  | command :: commandArgs =>
      if String.eqb command "--help" || String.eqb command "-h" then ShowHelp
      else if String.eqb command "--version" || String.eqb command "-v"
      then ShowVersion
      else
        match Receiver.own command commands with
        | Some commandFile => RunCommand commandFile commandArgs
        | None =>
            if existsb (String.eqb command) Receiver.objectPrototype
            then Uncaught TypeError
            else UnknownCommand command
        end
  end.

(** [process.exit(code || 0)], [code] being [null] when a signal ended
    the command *)
Definition exitCode (code : option nat) : nat :=
  match code with
  | Some c => c
  | None => 0
  end.

End Cli.

(** ** The campaign command, around its validation *)

Module CampaignCommand.

(** [answer.toLowerCase() === "y" || answer.toLowerCase() === "yes"] *)
Definition confirmed (answer : string) : bool :=
  String.eqb (JS.toLowerCase answer) "y"
  || String.eqb (JS.toLowerCase answer) "yes".

(** [getCookieValue]: one dollar for a cookie *)
Definition getCookieValue : JS.number := JS.ofN 1.

Definition isZero (q : Q) : bool := Qeq_bool q 0.
Definition isNegative (q : Q) : bool := negb (Qle_bool 0 q).

(** [a * b] *)
Definition times (a b : JS.number) : JS.number :=
  match a, b with
  | JS.NaN, _ | _, JS.NaN => JS.NaN
  | JS.Fin x, JS.Fin y => JS.fin (x * y)%Q
  | JS.Fin x, JS.PosInf | JS.PosInf, JS.Fin x =>
      if isZero x then JS.NaN
      else if isNegative x then JS.NegInf else JS.PosInf
  | JS.Fin x, JS.NegInf | JS.NegInf, JS.Fin x =>
      if isZero x then JS.NaN
      else if isNegative x then JS.PosInf else JS.NegInf
  | JS.PosInf, JS.PosInf | JS.NegInf, JS.NegInf => JS.PosInf
  | JS.PosInf, JS.NegInf | JS.NegInf, JS.PosInf => JS.NegInf
  end.

(** [campaignData.totalCookies * cookieValue] *)
Definition totalCost (totalCookies cookieValue : JS.number) : JS.number :=
  times totalCookies cookieValue.

(** [`/campaigns/${campaignData.platform}/create`] *)
Definition endpoint (platform : string) : string :=
  "/campaigns/" ++ platform ++ "/create".

End CampaignCommand.

(** ** The payment agent, from its instructions to its payments

    The instructions are those the templates build: a receiver, an amount
    and a platform. *)

Module AgentCommand.

Import Agent.

(** [{ receiver: inst.receiver, amount: inst.amount }] *)
Record share : Type := Share { to : string; sum : JS.number }.

Definition shareOf (inst : instruction) : share :=
  Share (receiver inst) (amount inst).

(** the object [byPlatform]: its own properties, in the order in which
    they were created *)
Definition groups : Type := list (string * list share).

Fixpoint lookup (platform : string) (acc : groups) : option (list share) :=
  match acc with
  | [] => None
  | (k, receivers) :: rest =>
      if String.eqb platform k then Some receivers else lookup platform rest
  end.

(** [acc[platform].push(r)] on an own property *)
Fixpoint pushTo (platform : string) (r : share) (acc : groups) : groups :=
  match acc with
  | [] => []
  | (k, receivers) :: rest =>
      if String.eqb platform k then (k, (receivers ++ [r])%list) :: rest
      else (k, receivers) :: pushTo platform r rest
  end.

(** one round of the [reduce].  Under the name of a member every object
    inherits, [acc[inst.platform]] is that member: no list is created,
    and the member has no [push]. *)
Definition add (acc : groups) (inst : instruction) : result groups :=
  match lookup (platform inst) acc with
  | Some _ => Ok (pushTo (platform inst) (shareOf inst) acc)
  | None =>
      if existsb (String.eqb (platform inst)) Receiver.objectPrototype
      then Err TypeError
      else Ok (acc ++ [(platform inst, [shareOf inst])])%list
  end.

Fixpoint reduce (acc : groups) (instructions : list instruction)
  : result groups :=
  match instructions with
  | [] => Ok acc
  | inst :: rest =>
      acc' <- add acc inst ;;
      reduce acc' rest
  end.

Definition byPlatform (instructions : list instruction) : result groups :=
  reduce [] instructions.

(** a property name that is an array index: the decimal text of an
    integer below [2^32 - 1] *)
Definition arrayIndex (k : string) : option N :=
  let n := JS.digitsVal 0 k in
  if String.eqb k (JS.digitsOf n) && N.ltb n 4294967295 then Some n else None.

Fixpoint insertByIndex (i : N) (e : string * list share)
         (sorted : list (N * (string * list share)))
  : list (N * (string * list share)) :=
  match sorted with
  | [] => [(i, e)]
  | (j, f) :: rest =>
      if N.ltb i j then (i, e) :: sorted
      else (j, f) :: insertByIndex i e rest
  end.

Fixpoint indexed (o : groups) : list (N * (string * list share)) :=
  match o with
  | [] => []
  | e :: rest =>
      match arrayIndex (fst e) with
      | Some i => insertByIndex i e (indexed rest)
      | None => indexed rest
      end
  end.

Definition named (o : groups) : groups :=
  filter (fun e => match arrayIndex (fst e) with
                   | Some _ => false
                   | None => true
                   end) o.

(** [Object.entries]: the array indices in ascending order, then the
    other names in the order of their creation *)
Definition entries (o : groups) : groups :=
  (map snd (indexed o) ++ named o)%list.

Inductive payment : Type :=
| Single (inst : instruction)                          (* executePayment *)
| Batch (platform : string) (receivers : list share).  (* executeBatchPayment *)

(** [instructions.find(i => i.platform === platform
                            && i.receiver === receivers[0].receiver)] *)
Definition find (instructions : list instruction) (platform : string)
           (first : share) : option instruction :=
  List.find (fun i => String.eqb (Agent.platform i) platform
                      && String.eqb (receiver i) (to first))
            instructions.

(** the payment made for one entry; [executePayment] reads the fields of
    the instruction it is given *)
Definition paymentFor (instructions : list instruction)
           (entry : string * list share) : result payment :=
  match snd entry with
  | [first] =>
      match find instructions (fst entry) first with
      | Some inst => Ok (Single inst)
      | None => Err TypeError
      end
  | receivers => Ok (Batch (fst entry) receivers)
  end.

Inductive outcome : Type :=
| NoInstructions                 (* No valid payment instructions found *)
| Failed (e : error)
| Payments (ps : list payment).

(** [main], once the request is parsed: the payments it makes, in their
    order, when each of them succeeds *)
Definition main (instructions : list instruction) : outcome :=
  match instructions with
  | [] => NoInstructions
  | _ =>
      match (grouped <- byPlatform instructions ;;
             forEach (paymentFor instructions) (entries grouped)) with
      | Ok ps => Payments ps
      | Err e => Failed e
      end
  end.

(** [receivers.reduce((sum, receiver) => sum + receiver.amount, 0)] is
    printed only; the total is no part of what is posted *)

End AgentCommand.

(** ** The batch command of [batch_pay.ts], by flags *)

Module BatchPay.

Inductive exit : Type :=
| Usage                 (* a flag is missing *)
| IdentityNotAllowed    (* receiver_identity must be either ... *)
| ReceiversNotParsed    (* Failed to parse receivers JSON *)
| NoNetwork (f : Network.failure)
| Uncaught (e : error).

(** the identity and the receivers are posted as they were read *)
Record request : Type := Request {
  receiver_identity : string;
  receivers : list value;
  useSolana : bool
}.

Inductive outcome : Type :=
| Exit (e : exit)
| Post (r : request).

Section Environment.

Variable numberText : JS.number -> string.
Variable JSON_parse : string -> result value.

Definition command (receiver_identity receivers : value)
           (network privateKey svmPrivateKey : option string) : outcome :=
  if negb (Value.truthy receiver_identity) || negb (Value.truthy receivers)
  then Exit Usage
  else
    match receiver_identity with
    | Str identity =>
        if negb (existsb (String.eqb (JS.toLowerCase identity))
                         Receiver.allowedIdentities)
        then Exit IdentityNotAllowed
        else
          (* JSON.parse(args.receivers), and the test for an array, in
             one try block *)
          match (receiversText <- Value.toText numberText receivers ;;
                 JSON_parse receiversText) with
          | Ok (Arr items) =>
              match Network.resolve network privateKey svmPrivateKey with
              | Network.Exit f => Exit (NoNetwork f)
              | Network.Run useSolana => Post (Request identity items useSolana)
              end
          | _ => Exit ReceiversNotParsed
          end
    | _ => Exit (Uncaught TypeError)   (* no [toLowerCase] but on a string *)
    end.

End Environment.

End BatchPay.

(** ** The file of a batch *)

Module BatchFile.

Section Environment.

(** [path.resolve], and [readFileSync] and [JSON.parse] with the message
    of what they throw *)
Variable resolve : string -> string.
Variable readFileSync : string -> string + string.
Variable JSON_parse : string -> string + value.

(** the path without a [file:] before it *)
Definition cleanPath (filePath : string) : string :=
  if JS.startsWith filePath "file:" then JS.substringFrom filePath 5
  else filePath.

Definition loadFromFile (filePath : string) : result value :=
  match readFileSync (resolve (cleanPath filePath)) with
  | inl reason => Err (FailedToRead filePath reason)
  | inr content =>
      match JSON_parse content with
      | inl reason => Err (FailedToRead filePath reason)
      | inr data => Ok data
      end
  end.

End Environment.

End BatchFile.


(** ** Vocabulary of the properties *)

(** induction on values through the lists they nest *)
Fixpoint value_induction (P : value -> Prop)
         (HUndefined : P Undefined) (HNull : P Null)
         (HBool : forall b, P (Bool b)) (HNum : forall n, P (Num n))
         (HStr : forall s, P (Str s))
         (HArr : forall items, Forall P items -> P (Arr items))
         (HObj : forall fields, Forall (fun f => P (snd f)) fields -> P (Obj fields))
         (v : value) {struct v} : P v :=
  let self := value_induction P HUndefined HNull HBool HNum HStr HArr HObj in
  match v with
  | Undefined => HUndefined
  | Null => HNull
  | Bool b => HBool b
  | Num n => HNum n
  | Str s => HStr s
  | Arr items =>
      HArr items
        ((fix all (l : list value) : Forall P l :=
            match l with
            | [] => Forall_nil P
            | x :: rest => Forall_cons x (self x) (all rest)
            end) items)
  | Obj fields =>
      HObj fields
        ((fix all (l : list (string * value)) : Forall (fun f => P (snd f)) l :=
            match l with
            | [] => Forall_nil _
            | f :: rest => Forall_cons f (self (snd f)) (all rest)
            end) fields)
  end.

(** every character of [s] satisfies [p] *)
Fixpoint every (p : ascii -> bool) (s : string) : bool :=
  match s with
  | EmptyString => true
  | String c r => p c && every p r
  end.

(** a string of decimal digits, one at least *)
Definition isDigits (s : string) : Prop :=
  every JS.isDigit s = true /\ s <> EmptyString.


(** the text of a token that [parseFloat] is given, white space around
    the token set aside: all but the last code unit of a token that ends
    with the literal of the suffix test, what stands after the dollar
    sign, or the whole token *)
Definition numericText (token : string) : string :=
  let trimmed := JS.trim token in
  if JS.endsWith trimmed centsLiteral then JS.slice trimmed 0 (-1)
  else if JS.startsWith trimmed "$" then JS.sliceFrom trimmed 1
  else trimmed.

(** an error that reports an amount as invalid and names the token *)
Definition invalidAmountOf (token : string) (e : error) : Prop :=
  e = InvalidCentsAmount token \/ e = InvalidDollarAmount token
  \/ e = InvalidAmount token.

(** *** The bounds of a campaign descriptor *)


(** an integer from 3 to 10 *)
Definition cookiesWithin (v : value) : Prop :=
  exists (q : Q) (z : Z), v = Num (JS.Fin q) /\ (q == inject_Z z)%Q /\ (3 <= z <= 10)%Z.

(** [x] or [farcaster] *)
Definition platformWithin (v : value) : Prop :=
  v = Str "x" \/ v = Str "farcaster".



(** [v.k] where it does not throw *)
Definition property (v : value) (k : string) : value :=
  match Value.get v k with
  | Ok x => x
  | Err _ => Undefined
  end.


Definition platformReport (numberText : JS.number -> string)
           (platform : value) : list string :=
  match Campaign.checkPlatform numberText platform [] with
  | Ok errors => errors
  | Err _ => []
  end.

(** what each field of a campaign contributes to the list of errors, on
    its own: the platform, the name, the description, the number of
    cookies, and the sponsor with its name, handle and URL *)
Definition reports (numberText : JS.number -> string)
           (URL_valid : string -> bool) (data : value) : list (list string) :=
  let sponsor := property data "sponsor" in
  [ platformReport numberText (property data "platform");
    Campaign.checkText "name" 3 100 "characters" (property data "name") [];
    Campaign.checkText "description" 10 500 "characters"
      (property data "description") [];
    Campaign.checkTotalCookies (property data "totalCookies") [];
    if Value.truthy sponsor then
      (Campaign.checkText "sponsor.name" 1 100 "character"
         (property sponsor "name") []
       ++ Campaign.checkText "sponsor.handle" 1 50 "character"
            (property sponsor "handle") []
       ++ Campaign.checkUrl URL_valid (property sponsor "url") [])%list
    else ["sponsor is required"] ].

(** *** Matchers *)

(** a matcher hands over to its continuation at a position that is not
    before its own, within the input *)
Definition forward (m : Regex.cont -> Regex.cont) : Prop :=
  forall k s pos caps e c,
    m k s pos caps = Some (e, c) ->
    exists s' pos' caps',
      k s' pos' caps' = Some (e, c)
      /\ pos <= pos' /\ pos' + String.length s' = pos + String.length s.

(** a pattern that matches no empty text *)
Definition nonempty (r : Regex.regex) : Prop :=
  forall s pos e c,
    Regex.run r Regex.accept s pos [] = Some (e, c) -> pos < e <= pos + String.length s.


(** *** The examples of the specification *)

(** [x/alice:5¢,bob:$0.5] *)
Definition compactBatch : string :=
  "x/alice:5" ++ centSign ++ ",bob:$0.5".

(** the object of the JSON form: platform [x] and the payments of
    receiver [alice], amount [5¢], and of receiver [bob], amount [$0.5],
    both amounts strings *)
Definition jsonBatch : value :=
  Obj [ ("platform", Str "x");
        ("payments",
         Arr [ Obj [("receiver", Str "alice"); ("amount", Str ("5" ++ centSign))];
               Obj [("receiver", Str "bob"); ("amount", Str "$0.5")] ]) ].

(** the same document as the text given on the command line *)
Definition jsonBatchText : string :=
  "{" ++ quote ++ "platform" ++ quote ++ ":" ++ quote ++ "x" ++ quote ++ ","
  ++ quote ++ "payments" ++ quote ++ ":[{"
  ++ quote ++ "receiver" ++ quote ++ ":" ++ quote ++ "alice" ++ quote ++ ","
  ++ quote ++ "amount" ++ quote ++ ":" ++ quote ++ "5" ++ centSign ++ quote ++ "},{"
  ++ quote ++ "receiver" ++ quote ++ ":" ++ quote ++ "bob" ++ quote ++ ","
  ++ quote ++ "amount" ++ quote ++ ":" ++ quote ++ "$0.5" ++ quote ++ "}]}".

(** platform [x], payments [alice, 0.05] and [bob, 0.5] *)
Definition expectedBatch : BatchSend.batch :=
  BatchSend.Batch (Receiver.Platform "x")
    [ BatchSend.Payment (Str "alice") (JS.fin (5 # 100));
      BatchSend.Payment (Str "bob") (JS.fin (5 # 10)) ].

(** platform [x], payments [alice, 5] and [bob, 0.5] *)
Definition observedBatch : BatchSend.batch :=
  BatchSend.Batch (Receiver.Platform "x")
    [ BatchSend.Payment (Str "alice") (JS.fin (5 # 1));
      BatchSend.Payment (Str "bob") (JS.fin (5 # 10)) ].

(** receiver [alice], amount 0.5, platform [farcaster] *)
Definition aliceOnFarcaster : Agent.instruction :=
  Agent.Instruction "alice" (JS.fin (5 # 10)) "farcaster".


(** *** What a pattern matches *)

(** [matches r pos t rest]: at position [pos] of an input, with [rest]
    after it, the pattern [r] can match the text [t].  A round of a
    quantifier past its lower bound matches some text; [^] holds at
    position 0 and [$] where nothing is left. *)
Inductive matches : Regex.regex -> nat -> string -> string -> Prop :=
| matches_eps (pos : nat) (rest : string) :
    matches Regex.Eps pos "" rest
| matches_chr (p : ascii -> bool) (c : ascii) (pos : nat) (rest : string) :
    p c = true -> matches (Regex.Chr p) pos (String c "") rest
| matches_seq (a b : Regex.regex) (pos : nat) (t u rest : string) :
    matches a pos t (u ++ rest) ->
    matches b (pos + String.length t) u rest ->
    matches (Regex.Seq a b) pos (t ++ u) rest
| matches_left (a b : Regex.regex) (pos : nat) (t rest : string) :
    matches a pos t rest -> matches (Regex.Alt a b) pos t rest
| matches_right (a b : Regex.regex) (pos : nat) (t rest : string) :
    matches b pos t rest -> matches (Regex.Alt a b) pos t rest
| matches_group (i : nat) (a : Regex.regex) (pos : nat) (t rest : string) :
    matches a pos t rest -> matches (Regex.Group i a) pos t rest
| matches_bol (rest : string) :
    matches Regex.Bol 0 "" rest
| matches_eol (pos : nat) :
    matches Regex.Eol pos "" ""
| matches_stop (min : nat) (max : option nat) (a : Regex.regex)
               (pos : nat) (rest : string) :
    min = 0 \/ max = Some 0 ->
    matches (Regex.Rep min max a) pos "" rest
| matches_round (min : nat) (max : option nat) (a : Regex.regex)
                (pos : nat) (t u rest : string) :
    max <> Some 0 ->
    min <> 0 \/ t <> "" ->
    matches a pos t (u ++ rest) ->
    matches (Regex.Rep (Nat.pred min) (Regex.decMax max) a)
            (pos + String.length t) u rest ->
    matches (Regex.Rep min max a) pos (t ++ u) rest.

(** a continuation that succeeds at a state whatever was captured *)
Definition succeeds (k : Regex.cont) (s : string) (pos : nat) : Prop :=
  forall caps, k s pos caps <> None.

(** an upper bound of a quantifier *)
Definition within (max : option nat) (n : nat) : Prop :=
  match max with
  | Some m => n <= m
  | None => True
  end.

(** *** Shapes of receivers *)

Definition first (s : string) : option ascii :=
  match s with
  | String c _ => Some c
  | EmptyString => None
  end.

Fixpoint final (s : string) : option ascii :=
  match s with
  | EmptyString => None
  | String c EmptyString => Some c
  | String _ r => final r
  end.

(** the character is there and satisfies [p] *)
Definition holds (p : ascii -> bool) (c : option ascii) : Prop :=
  exists x, c = Some x /\ p x = true.

(** letters, digits and hyphens, [max] at most and one at least, the
    first and the last of them a letter or a digit *)
Definition hostLabel (max : nat) (s : string) : Prop :=
  1 <= String.length s <= max
  /\ every Receiver.isLabel s = true
  /\ holds JS.isAlnum (first s)
  /\ holds JS.isAlnum (final s).

(** the texts of a list, one after the other *)
Definition joined (pieces : list string) : string :=
  fold_right append EmptyString pieces.

(** labels, each followed by a dot *)
Definition dotted (labels : list string) : string :=
  joined (map (fun label => label ++ ".") labels).

(** [s] contains [p] *)
Definition contains (s p : string) : Prop :=
  exists before after, s = before ++ p ++ after.

(** *** Instructions *)

(** an instruction the five platforms can carry: a supported platform, a
    receiver of word characters, an amount that is a number and not
    negative *)
Definition wellFormedInstruction (i : Agent.instruction) : Prop :=
  In (Agent.platform i) Receiver.allowedIdentities
  /\ 1 <= String.length (Agent.receiver i)
  /\ every JS.isWord (Agent.receiver i) = true
  /\ exists q, Agent.amount i = JS.Fin q /\ (0 <= q)%Q.

(** *** Batches of cent amounts *)

(** the pair [receiver:N¢], with the cents sign alone *)
Definition pairText (e : string * N) : string :=
  fst e ++ ":" ++ JS.digitsOf (snd e) ++ centSign.

(** texts with a comma between them *)
Fixpoint commaJoined (items : list string) : string :=
  match items with
  | [] => EmptyString
  | [x] => x
  | x :: rest => x ++ "," ++ commaJoined rest
  end.

(** the compact form: the platform, a slash, the pairs *)
Definition compactOf (platform : string) (entries : list (string * N)) : string :=
  platform ++ "/" ++ commaJoined (map pairText entries).

(** the JSON form: the object of the platform and of the payments, each
    with its receiver and with its amount as the string [N¢] *)
Definition jsonOf (platform : string) (entries : list (string * N)) : value :=
  Obj [ ("platform", Str platform);
        ("payments",
         Arr (map (fun e => Obj [ ("receiver", Str (fst e));
                                  ("amount", Str (JS.digitsOf (snd e) ++ centSign)) ])
                  entries)) ].

(** the pair [receiver:N] followed by the literal of the suffix test, and
    the compact form of such pairs *)
Definition literalPair (e : string * N) : string :=
  fst e ++ ":" ++ JS.digitsOf (snd e) ++ centsLiteral.

Definition literalCompactOf (platform : string) (entries : list (string * N))
  : string :=
  platform ++ "/" ++ commaJoined (map literalPair entries).

(** the payment of [N] cents to a receiver: the amount [N / 100] *)
Definition paymentOf (e : string * N) : BatchSend.payment :=
  BatchSend.Payment (Str (fst e)) (JS.divBy (JS.ofN (snd e)) 100).

(** the payment of the amount [N] to a receiver *)
Definition wholeOf (e : string * N) : BatchSend.payment :=
  BatchSend.Payment (Str (fst e)) (JS.ofN (snd e)).

(** how often [c] occurs in [s] *)
Fixpoint occurrences (c : ascii) (s : string) : nat :=
  match s with
  | EmptyString => 0
  | String x r => (if Ascii.eqb x c then 1 else 0) + occurrences c r
  end.

(** *** Payments of the agent *)

(** what an instruction asks for: on a platform, to a receiver, an
    amount *)
Definition due (inst : Agent.instruction) : string * string * JS.number :=
  (Agent.platform inst, Agent.receiver inst, Agent.amount inst).

(** what the receivers of a platform get *)
Definition shares (entry : string * list AgentCommand.share)
  : list (string * string * JS.number) :=
  map (fun r => (fst entry, AgentCommand.to r, AgentCommand.sum r)) (snd entry).

(** what a payment pays *)
Definition paid (p : AgentCommand.payment) : list (string * string * JS.number) :=
  match p with
  | AgentCommand.Single inst => [due inst]
  | AgentCommand.Batch platform receivers => shares (platform, receivers)
  end.

Definition platformOf (p : AgentCommand.payment) : string :=
  match p with
  | AgentCommand.Single inst => Agent.platform inst
  | AgentCommand.Batch platform _ => platform
  end.

(** the instructions for a platform *)
Definition onPlatform (platform : string) (instructions : list Agent.instruction)
  : list Agent.instruction :=
  filter (fun i => String.eqb (Agent.platform i) platform) instructions.

(** a payment in the form its platform asks for: the single payment of
    the one instruction on the platform, or the batch of the two or more
    instructions on it, in their order *)
Definition shaped (instructions : list Agent.instruction)
           (p : AgentCommand.payment) : Prop :=
  match p with
  | AgentCommand.Single inst =>
      onPlatform (Agent.platform inst) instructions = [inst]
  | AgentCommand.Batch platform receivers =>
      2 <= List.length receivers
      /\ receivers = map AgentCommand.shareOf (onPlatform platform instructions)
  end.

(** the object [byPlatform] after the instructions [done]: one property
    for each of their platforms, which lists their receivers on it, in
    their order *)
Definition groupedBy (g : AgentCommand.groups) (done : list Agent.instruction)
  : Prop :=
  NoDup (map fst g)
  /\ (forall k rs, In (k, rs) g ->
                   rs = map AgentCommand.shareOf (onPlatform k done) /\ rs <> [])
  /\ (forall i, In i done -> In (Agent.platform i) (map fst g))
  /\ (forall k, In k (map fst g) -> ~ In k Receiver.objectPrototype).


(** * Facts about the built-ins *)

(** ** Strings *)

Section StringFacts.

Lemma append_empty (s : string) : s ++ "" = s.
Proof. induction s as [| c s IH]; cbn; [| rewrite IH]; reflexivity. Qed.

Lemma append_assoc (a b c : string) : (a ++ b) ++ c = a ++ (b ++ c).
Proof. induction a as [| x a IH]; cbn; [| rewrite IH]; reflexivity. Qed.

Lemma length_append (a b : string) :
  String.length (a ++ b) = String.length a + String.length b.
Proof. induction a as [| c a IH]; cbn; [| rewrite IH]; reflexivity. Qed.

Lemma substring_all (s : string) : substring 0 (String.length s) s = s.
Proof. induction s as [| c s IH]; cbn; [| rewrite IH]; reflexivity. Qed.

Lemma substring_front (a b : string) :
  substring 0 (String.length a) (a ++ b) = a.
Proof.
  induction a as [| c a IH]; cbn.
  - destruct b; reflexivity.
  - rewrite IH. reflexivity.
Qed.

Lemma substring_back (a b : string) (m : nat) :
  substring (String.length a) m (a ++ b) = substring 0 m b.
Proof. induction a as [| c a IH]; cbn; [reflexivity | exact IH]. Qed.

Lemma every_append (p : ascii -> bool) (a b : string) :
  every p (a ++ b) = every p a && every p b.
Proof.
  induction a as [| c a IH]; cbn; [reflexivity |].
  rewrite IH, andb_assoc. reflexivity.
Qed.

Lemma trimStart_kept (c : ascii) (s : string) :
  JS.isSpace c = false -> JS.trimStart (String c s) = String c s.
Proof. intros H. cbn. rewrite H. reflexivity. Qed.

Lemma trimEnd_kept (s : string) (c : ascii) :
  JS.isSpace c = false ->
  JS.trimEnd (s ++ String c "") = s ++ String c "".
Proof.
  intros H. induction s as [| x s IH]; cbn.
  - rewrite H. reflexivity.
  - rewrite IH. destruct s; reflexivity.
Qed.

Lemma endsWith_last (s : string) (c d : ascii) :
  JS.endsWith (s ++ String d "") (String c "") = Ascii.eqb d c.
Proof.
  unfold JS.endsWith. rewrite length_append. cbn [String.length].
  replace (String.length s + 1 - 1) with (String.length s) by lia.
  rewrite substring_back.
  replace (Nat.leb 1 (String.length s + 1)) with true
    by (symmetry; apply Nat.leb_le; lia).
  cbn. destruct (Ascii.eqb d c); reflexivity.
Qed.

Lemma slice_without_last (s : string) (c : ascii) :
  JS.slice (s ++ String c "") 0 (-1) = s.
Proof.
  unfold JS.slice, JS.sliceIndex. rewrite length_append. cbn [String.length].
  replace (0 <? 0)%Z with false by reflexivity.
  replace (-1 <? 0)%Z with true by reflexivity.
  rewrite Z.min_l by lia. rewrite Z.max_l by lia.
  replace (Z.to_nat (Z.of_nat (String.length s + 1) + -1 - 0))
    with (String.length s) by lia.
  cbn [Z.to_nat]. apply substring_front.
Qed.

Lemma sliceFrom_all (s : string) : JS.sliceFrom s 0 = s.
Proof.
  unfold JS.sliceFrom, JS.slice, JS.sliceIndex.
  replace (0 <? 0)%Z with false by reflexivity.
  replace (Z.of_nat (String.length s) <? 0)%Z with false
    by (symmetry; apply Z.ltb_ge; lia).
  rewrite Z.min_l by lia. rewrite Z.min_id.
  rewrite Z.sub_0_r, Nat2Z.id. cbn [Z.to_nat]. apply substring_all.
Qed.

Lemma sliceFrom_tail (c : ascii) (s : string) :
  JS.sliceFrom (String c s) 1 = s.
Proof.
  unfold JS.sliceFrom, JS.slice, JS.sliceIndex. cbn [String.length].
  replace (1 <? 0)%Z with false by reflexivity.
  replace (Z.of_nat (S (String.length s)) <? 0)%Z with false
    by (symmetry; apply Z.ltb_ge; lia).
  rewrite Z.min_l by lia. rewrite Z.min_id.
  replace (Z.to_nat 1) with 1 by reflexivity.
  replace (Z.to_nat (Z.of_nat (S (String.length s)) - 1))
    with (String.length s) by lia.
  cbn. apply substring_all.
Qed.

(** a character that does not occur in a string does not occur in its
    parts *)
Lemma absent_cons (c x : ascii) (s : string) :
  JS.indexOf c (String x s) = None <-> Ascii.eqb x c = false /\ JS.indexOf c s = None.
Proof.
  cbn. destruct (Ascii.eqb x c); [split; [discriminate | intros [H _]; discriminate] |].
  destruct (JS.indexOf c s); split; try discriminate; auto.
  intros [_ H]. discriminate.
Qed.

Lemma absent_substring (c : ascii) (s : string) (n m : nat) :
  JS.indexOf c s = None -> JS.indexOf c (substring n m s) = None.
Proof.
  revert n m. induction s as [| x s IH]; intros n m H.
  - destruct n, m; reflexivity.
  - apply absent_cons in H. destruct H as [Hx Hs].
    destruct n as [| n]; [destruct m as [| m] |]; cbn [substring].
    + reflexivity.
    + apply absent_cons. split; [exact Hx | apply IH; exact Hs].
    + apply IH. exact Hs.
Qed.

Lemma absent_trimStart (c : ascii) (s : string) :
  JS.indexOf c s = None -> JS.indexOf c (JS.trimStart s) = None.
Proof.
  induction s as [| x s IH]; intros H; [reflexivity |].
  cbn [JS.trimStart]. destruct (JS.isSpace x); [| exact H].
  apply IH. apply absent_cons in H. tauto.
Qed.

Lemma absent_trimEnd (c : ascii) (s : string) :
  JS.indexOf c s = None -> JS.indexOf c (JS.trimEnd s) = None.
Proof.
  induction s as [| x s IH]; intros H; [reflexivity |].
  apply absent_cons in H. destruct H as [Hx Hs]. specialize (IH Hs).
  cbn [JS.trimEnd]. destruct (JS.trimEnd s) as [| y r].
  - destruct (JS.isSpace x); [reflexivity |].
    apply absent_cons. split; [exact Hx | reflexivity].
  - apply absent_cons. split; [exact Hx | exact IH].
Qed.

Lemma absent_trim (c : ascii) (s : string) :
  JS.indexOf c s = None -> JS.indexOf c (JS.trim s) = None.
Proof. intros H. apply absent_trimEnd, absent_trimStart, H. Qed.

Lemma absent_slice (c : ascii) (s : string) (b e : Z) :
  JS.indexOf c s = None -> JS.indexOf c (JS.slice s b e) = None.
Proof. intros H. apply absent_substring, H. Qed.

(** the end of a string *)
Lemma append_last_inj (a b : string) (x y : ascii) :
  a ++ String x "" = b ++ String y "" -> a = b /\ x = y.
Proof.
  revert b. induction a as [| c a IH]; intros b H.
  - destruct b as [| d b]; cbn in H.
    + inversion H. split; reflexivity.
    + inversion H as [[Hc Hb]]. destruct b; discriminate Hb.
  - destruct b as [| d b]; cbn in H.
    + inversion H as [[Hc Ha]]. destruct a; discriminate Ha.
    + inversion H as [[Hc Ha]]. destruct (IH b Ha) as [-> ->].
      split; reflexivity.
Qed.

Lemma substring_split (s : string) (n : nat) :
  n <= String.length s ->
  s = substring 0 n s ++ substring n (String.length s - n) s.
Proof.
  revert n. induction s as [| c s IH]; intros n Hn.
  - destruct n; [reflexivity | cbn in Hn; lia].
  - destruct n as [| n].
    + change (substring 0 0 (String c s)) with EmptyString.
      rewrite Nat.sub_0_r, substring_all. reflexivity.
    + cbn [String.length] in *. cbn [substring append Nat.sub].
      rewrite <- (IH n) by lia. reflexivity.
Qed.

(** [s.endsWith(p)]: [s] is some text followed by [p] *)
Lemma endsWith_suffix (s p : string) :
  JS.endsWith s p = true <-> exists a, s = a ++ p.
Proof.
  unfold JS.endsWith. split.
  - intros H. apply andb_true_iff in H. destruct H as [Hl He].
    apply Nat.leb_le in Hl. apply String.eqb_eq in He.
    exists (substring 0 (String.length s - String.length p) s).
    pose proof (substring_split s (String.length s - String.length p)
                  ltac:(lia)) as E.
    replace (String.length s - (String.length s - String.length p))
      with (String.length p) in E by lia.
    rewrite He in E. exact E.
  - intros [a ->]. rewrite length_append.
    replace (String.length a + String.length p - String.length p)
      with (String.length a) by lia.
    rewrite substring_back, substring_all, String.eqb_refl, andb_true_r.
    apply Nat.leb_le. lia.
Qed.

(** a string whose last character is not that of [p] does not end with
    [p] *)
Lemma endsWith_final (s p : string) (z c : ascii) :
  Ascii.eqb z c = false ->
  JS.endsWith (s ++ String z "") (p ++ String c "") = false.
Proof.
  intros Hz. destruct (JS.endsWith (s ++ String z "") (p ++ String c "")) eqn:E;
    [| reflexivity].
  apply endsWith_suffix in E. destruct E as [a E].
  rewrite <- append_assoc in E. apply append_last_inj in E. destruct E as [_ ->].
  rewrite Ascii.eqb_refl in Hz. discriminate Hz.
Qed.

End StringFacts.

(** ** Numeric literals *)

Section NumberFacts.

Ltac bits c := destruct c as [[] [] [] [] [] [] [] []].
Ltac decide_bits c :=
  bits c; vm_compute; intros; try discriminate; try reflexivity.

Lemma digit_not_space (c : ascii) : JS.isDigit c = true -> JS.isSpace c = false.
Proof. decide_bits c. Qed.

Lemma digit_not_sign (c : ascii) (r : string) :
  JS.isDigit c = true -> JS.signOf (String c r) = (false, String c r).
Proof. decide_bits c. Qed.

Lemma digit_not_dot (c : ascii) : JS.isDigit c = true -> Ascii.eqb c "." = false.
Proof. decide_bits c. Qed.

Lemma signOf_negative (s r : string) :
  JS.signOf s = (true, r) -> s = String "-" r.
Proof.
  destruct s as [| c s]; [discriminate |].
  bits c; cbn; intros H; inversion H; reflexivity.
Qed.

Lemma signOf_positive (s r : string) :
  JS.signOf s = (false, r) -> s = r \/ s = String "+" r.
Proof.
  destruct s as [| c s]; [cbn; intros H; inversion H; auto |].
  bits c; cbn; intros H; inversion H; auto.
Qed.

Lemma not_Infinity (c : ascii) (r : string) :
  Ascii.eqb c "I" = false -> JS.startsWith (String c r) "Infinity" = false.
Proof.
  intros H. cbn. rewrite H. reflexivity.
Qed.

Lemma digit_not_I (c : ascii) : JS.isDigit c = true -> Ascii.eqb c "I" = false.
Proof. decide_bits c. Qed.

Lemma spanDigits_digits (ds rest : string) :
  every JS.isDigit ds = true ->
  (forall c r, rest = String c r -> JS.isDigit c = false) ->
  JS.spanDigits (ds ++ rest) = (ds, rest).
Proof.
  intros Hds Hrest. induction ds as [| c ds IH]; cbn.
  - destruct rest as [| c r]; [reflexivity |].
    cbn. rewrite (Hrest c r eq_refl). reflexivity.
  - cbn in Hds. apply andb_true_iff in Hds. destruct Hds as [Hc Hds].
    rewrite Hc, (IH Hds). reflexivity.
Qed.



(** *** The digits of a natural number *)

Lemma string_of_uint_digits (d : Decimal.uint) :
  every JS.isDigit (NilEmpty.string_of_uint d) = true.
Proof. induction d; cbn; auto. Qed.

Lemma digitsVal_of_uint_acc (d : Decimal.uint) (acc : positive) :
  JS.digitsVal (Npos acc) (NilEmpty.string_of_uint d)
  = Npos (Pos.of_uint_acc d acc).
Proof.
  revert acc. induction d; intros acc; cbn [NilEmpty.string_of_uint JS.digitsVal Pos.of_uint_acc];
    [reflexivity | ..];
    match goal with
    | |- JS.digitsVal ?v _ = N.pos (Pos.of_uint_acc _ ?w) =>
        replace v with (N.pos w) by (vm_compute JS.digitVal; lia)
    end; apply IHd.
Qed.

Lemma digitsVal_of_uint (d : Decimal.uint) :
  JS.digitsVal 0 (NilEmpty.string_of_uint d) = Pos.of_uint d.
Proof.
  induction d; cbn [NilEmpty.string_of_uint JS.digitsVal Pos.of_uint];
    [reflexivity | exact IHd | ..];
    match goal with
    | |- JS.digitsVal ?v _ = N.pos (Pos.of_uint_acc _ ?w) =>
        replace v with (N.pos w) by (vm_compute; reflexivity)
    end; apply digitsVal_of_uint_acc.
Qed.

Lemma digitsOf_value (n : N) : JS.digitsVal 0 (JS.digitsOf n) = n.
Proof.
  unfold JS.digitsOf, NilZero.string_of_uint.
  rewrite <- (DecimalN.Unsigned.of_to n) at 2. unfold N.of_uint.
  destruct (N.to_uint n); try apply digitsVal_of_uint. reflexivity.
Qed.

Lemma digitsOf_isDigits (n : N) : isDigits (JS.digitsOf n).
Proof.
  unfold isDigits, JS.digitsOf, NilZero.string_of_uint.
  destruct (N.to_uint n) eqn:E; split;
    try apply string_of_uint_digits; try reflexivity; cbn; discriminate.
Qed.

(** *** [parseFloat] *)

Lemma pow10_positive (e : Z) : (0 < JS.pow10 e)%Q.
Proof.
  unfold JS.pow10. destruct (0 <=? e)%Z eqn:He.
  - apply Z.leb_le in He.
    assert (H : (0 < 10 ^ e)%Z) by (apply Z.pow_pos_nonneg; lia).
    unfold Qlt. cbn. lia.
  - apply Z.leb_gt in He. apply Qinv_lt_0_compat.
    assert (H : (0 < 10 ^ (- e))%Z) by (apply Z.pow_pos_nonneg; lia).
    unfold Qlt. cbn. lia.
Qed.

Lemma unsignedDecimal_nonneg (u : string) (q : Q) :
  JS.unsignedDecimal u = Some q -> (0 <= q)%Q.
Proof.
  unfold JS.unsignedDecimal.
  assert (Hv : forall n e, (0 <= inject_Z (Z.of_N n) * JS.pow10 e)%Q).
  { intros n e. apply Qmult_le_0_compat.
    - unfold Qle. cbn. lia.
    - apply Qlt_le_weak, pow10_positive. }
  destruct (JS.spanDigits u) as [ip r1].
  destruct r1 as [| c r2].
  - destruct (JS.isEmpty ip); intros H; inversion H. apply Hv.
  - destruct (Ascii.eqb c ".") eqn:Ec.
    + apply Ascii.eqb_eq in Ec. subst c.
      destruct (JS.spanDigits r2) as [fp r3].
      destruct (JS.isEmpty ip && JS.isEmpty fp); intros H; inversion H. apply Hv.
    + assert (Hsame :
        match c with
        | "."%char =>
            let (fp, r3) := JS.spanDigits r2 in
            if JS.isEmpty ip && JS.isEmpty fp
            then None
            else
              Some
                (inject_Z (Z.of_N (JS.digitsVal 0 (ip ++ fp)))
                 * JS.pow10 (JS.exponentPart r3 - Z.of_nat (String.length fp)))%Q
        | _ =>
            if JS.isEmpty ip
            then None
            else Some (inject_Z (Z.of_N (JS.digitsVal 0 ip))
                       * JS.pow10 (JS.exponentPart (String c r2)))%Q
        end
        = if JS.isEmpty ip then None
          else Some (inject_Z (Z.of_N (JS.digitsVal 0 ip))
                     * JS.pow10 (JS.exponentPart (String c r2)))%Q).
      { revert Ec. bits c; cbn; intros Ec; try discriminate Ec; reflexivity. }
      rewrite Hsame. destruct (JS.isEmpty ip); intros H; inversion H. apply Hv.
Qed.

Lemma fin_nonneg (q : Q) : (0 <= q)%Q -> JS.nonNegative (JS.fin q).
Proof. intros H. change (0 <= Qred q)%Q. rewrite Qred_correct. exact H. Qed.

(** no minus sign at the head, no negative number *)
Lemma parseFloat_sign (s : string) :
  JS.startsWith (JS.trimStart s) "-" = false ->
  JS.parseFloat s = JS.NaN \/ JS.nonNegative (JS.parseFloat s).
Proof.
  intros H. unfold JS.parseFloat.
  destruct (JS.signOf (JS.trimStart s)) as [neg u] eqn:Es.
  destruct neg.
  - apply signOf_negative in Es. rewrite Es in H. discriminate H.
  - destruct (JS.startsWith u "Infinity"); [right; exact I |].
    destruct (JS.unsignedDecimal u) as [q |] eqn:Eu; [right | left; reflexivity].
    apply fin_nonneg. exact (unsignedDecimal_nonneg u q Eu).
Qed.

Lemma divBy_nonneg (n : JS.number) (d : positive) :
  JS.nonNegative n -> JS.nonNegative (JS.divBy n d).
Proof.
  destruct n as [| q | |]; cbn [JS.divBy JS.nonNegative]; auto. intros H.
  apply fin_nonneg.
  apply Qle_shift_div_l; [reflexivity | rewrite Qmult_0_l; exact H].
Qed.

Lemma divBy_not_NaN (n : JS.number) (d : positive) :
  JS.isNaN n = false -> JS.isNaN (JS.divBy n d) = false.
Proof. destruct n; cbn; auto. Qed.

Lemma parseFloat_digits (ds : string) :
  isDigits ds ->
  JS.parseFloat ds = JS.fin (inject_Z (Z.of_N (JS.digitsVal 0 ds))).
Proof.
  intros [Hds Hne]. destruct ds as [| c r]; [contradiction |].
  pose proof Hds as Hc. cbn in Hc. apply andb_true_iff in Hc. destruct Hc as [Hc _].
  unfold JS.parseFloat.
  rewrite (trimStart_kept c r (digit_not_space c Hc)).
  rewrite (digit_not_sign c r Hc).
  rewrite (not_Infinity c r (digit_not_I c Hc)).
  unfold JS.unsignedDecimal.
  rewrite <- (append_empty (String c r)) at 1.
  rewrite (spanDigits_digits (String c r) "" Hds) by (intros ? ? E; discriminate E).
  cbn [JS.isEmpty JS.exponentPart].
  unfold JS.fin. f_equal. apply Qred_complete.
  unfold JS.pow10. cbn. apply Qmult_1_r.
Qed.

(** digits followed by the cents sign or by the not sign: the two
    characters end the number *)
Lemma parseFloat_digits_sign (ds rest : string) (c : ascii) :
  isDigits ds -> c = JS.cent \/ c = JS.notSign ->
  JS.parseFloat (ds ++ String c rest)
  = JS.fin (inject_Z (Z.of_N (JS.digitsVal 0 ds))).
Proof.
  intros [Hds Hne] Hc. destruct ds as [| d r]; [contradiction |].
  pose proof Hds as Hd. cbn in Hd. apply andb_true_iff in Hd. destruct Hd as [Hd _].
  unfold JS.parseFloat. cbn [append].
  rewrite (trimStart_kept d _ (digit_not_space d Hd)).
  rewrite (digit_not_sign d _ Hd).
  rewrite (not_Infinity d _ (digit_not_I d Hd)).
  unfold JS.unsignedDecimal.
  change (String d (r ++ String c rest)) with (String d r ++ String c rest).
  rewrite (spanDigits_digits (String d r) (String c rest) Hds)
    by (intros x y E; inversion E; subst; destruct Hc as [-> | ->]; reflexivity).
  destruct Hc as [-> | ->];
    [ let v := eval vm_compute in JS.cent in change JS.cent with v
    | let v := eval vm_compute in JS.notSign in change JS.notSign with v ];
    cbn [JS.isEmpty JS.exponentPart JS.isChar Ascii.eqb Bool.eqb orb andb];
    unfold JS.fin; f_equal; apply Qred_complete;
    unfold JS.pow10; cbn; apply Qmult_1_r.
Qed.


End NumberFacts.

(** ** Anchored patterns over one character class *)

Section RegexFacts.

Import Regex.

Lemma forget_none (caps : captures) : forget [] caps = caps.
Proof.
  induction caps as [| c caps IH]; [reflexivity |].
  unfold forget in *. simpl. f_equal. exact IH.
Qed.

(** [p+$] and the like: the class is repeated to the end of the input *)
Lemma repeat_to_end (p : ascii -> bool) (m : cont -> cont) (k : cont) :
  (forall k' s pos caps,
      m k' s pos caps = match s with
                        | String c t => if p c then k' t (S pos) caps else None
                        | EmptyString => None
                        end) ->
  (forall s pos caps,
      k s pos caps = if JS.isEmpty s then Some (pos, caps) else None) ->
  forall s fuel min pos caps,
    String.length s < fuel ->
    repeat m [] k fuel min None s pos caps
    = if every p s && Nat.leb min (String.length s)
      then Some (pos + String.length s, caps) else None.
Proof.
  intros Hm Hk.
  induction s as [| c s IH]; intros fuel min pos caps Hfuel;
    (destruct fuel as [| fuel]; [cbn in Hfuel; lia |]);
    cbn [repeat every String.length]; rewrite Hm, Hk; cbn [JS.isEmpty].
  - destruct min as [| min]; cbn; [rewrite Nat.add_0_r |]; reflexivity.
  - rewrite forget_none. destruct (p c) eqn:Hc; cbn [andb].
    + assert (Hnext : Nat.eqb (S pos) pos = false) by (apply Nat.eqb_neq; lia).
      rewrite Hnext, andb_false_r. cbn [decMax].
      rewrite (IH fuel (Nat.pred min) (S pos) caps) by (cbn in Hfuel; lia).
      destruct min as [| min]; cbn [Nat.eqb Nat.pred Nat.leb].
      * destruct (every p s); cbn [andb]; [| reflexivity].
        f_equal. f_equal. lia.
      * destruct (every p s && Nat.leb min (String.length s)); [| reflexivity].
        f_equal. f_equal. lia.
    + destruct min; reflexivity.
Qed.

Lemma search_anchored (r : regex) (s : string) (pos : nat) :
  0 < pos -> search (Seq Bol r) s pos = None.
Proof.
  revert pos. induction s as [| c s IH]; intros pos Hpos; cbn [search run];
    (replace (Nat.eqb pos 0) with false by (symmetry; apply Nat.eqb_neq; lia)).
  - reflexivity.
  - apply IH. lia.
Qed.

Lemma test_anchored (r : regex) (s : string) :
  test (Seq Bol r) s
  = match run r accept s 0 [] with Some _ => true | None => false end.
Proof.
  unfold test, exec. cbn [Nat.ltb Nat.leb]. rewrite sliceFrom_all.
  destruct s as [| c s]; cbn [search run Nat.eqb].
  - destruct (run r accept "" 0 []) as [[e caps] |]; reflexivity.
  - destruct (run r accept (String c s) 0 []) as [[e caps] |]; [reflexivity |].
    rewrite search_anchored by lia. reflexivity.
Qed.

(** [/^\d+$/] holds of the strings of digits, one at least *)
Lemma test_allDigits (s : string) :
  test Send.allDigits s = every JS.isDigit s && negb (JS.isEmpty s).
Proof.
  unfold Send.allDigits. cbn [seq]. rewrite test_anchored.
  unfold plus. cbn [run groupsOf].
  rewrite (repeat_to_end JS.isDigit) by (reflexivity || lia).
  destruct s as [| c s]; cbn [String.length Nat.leb JS.isEmpty negb].
  - reflexivity.
  - rewrite andb_true_r. destruct (every JS.isDigit (String c s)); reflexivity.
Qed.

End RegexFacts.

(** ** Matches move forward *)

Section ProgressFacts.

Import Regex.

Lemma repeat_forward (m : cont -> cont) (inner : list nat) (k : cont) :
  forward m ->
  forall fuel min max s pos caps e c,
    repeat m inner k fuel min max s pos caps = Some (e, c) ->
    exists s' pos' caps',
      k s' pos' caps' = Some (e, c)
      /\ pos <= pos' /\ pos' + String.length s' = pos + String.length s.
Proof.
  intros Hm. induction fuel as [| fuel IH]; intros min max s pos caps e c H.
  - destruct max as [[| n] |]; cbn in H; try discriminate H;
      exists s, pos, caps; auto.
  - assert (Hround : forall (b : bool) (min' : nat) (max' : option nat) res,
               m (fun s' pos' caps' =>
                    if b && Nat.eqb pos' pos then None
                    else repeat m inner k fuel min' max' s' pos' caps')
                 s pos (forget inner caps) = Some res ->
               res = (e, c) ->
               exists s' pos' caps',
                 k s' pos' caps' = Some (e, c)
                 /\ pos <= pos' /\ pos' + String.length s' = pos + String.length s).
    { intros b min' max' res Hres ->. apply Hm in Hres.
      destruct Hres as [s1 [p1 [c1 [Hagain [Hle Hlen]]]]].
      destruct (b && Nat.eqb p1 pos); [discriminate Hagain |].
      apply IH in Hagain. destruct Hagain as [s2 [p2 [c2 [Hk [Hle2 Hlen2]]]]].
      exists s2, p2, c2. repeat split; [exact Hk | lia | lia]. }
    destruct max as [[| n] |]; cbn [repeat] in H.
    + exists s, pos, caps. auto.
    + destruct (Nat.eqb min 0).
      * match type of H with
        | match ?x with _ => _ end = _ => destruct x as [res |] eqn:Ex
        end.
        -- inversion H; subst.
           exact (Hround true _ _ _ Ex eq_refl).
        -- exists s, pos, caps. auto.
      * exact (Hround false _ _ _ H eq_refl).
    + destruct (Nat.eqb min 0).
      * match type of H with
        | match ?x with _ => _ end = _ => destruct x as [res |] eqn:Ex
        end.
        -- inversion H; subst.
           exact (Hround true _ _ _ Ex eq_refl).
        -- exists s, pos, caps. auto.
      * exact (Hround false _ _ _ H eq_refl).
Qed.

Lemma run_forward (r : regex) : forward (run r).
Proof.
  induction r as [| p | a IHa b IHb | a IHa b IHb | min max a IHa | i a IHa | |];
    intros k s pos caps e c H; cbn [run] in H.
  - exists s, pos, caps. auto.
  - destruct s as [| x t]; [discriminate H |].
    destruct (p x); [| discriminate H].
    exists t, (S pos), caps. cbn [String.length]. repeat split; [exact H | lia | lia].
  - apply IHa in H. destruct H as [s1 [p1 [c1 [H [Hle Hlen]]]]].
    apply IHb in H. destruct H as [s2 [p2 [c2 [H [Hle2 Hlen2]]]]].
    exists s2, p2, c2. repeat split; [exact H | lia | lia].
  - destruct (run a k s pos caps) as [res |] eqn:Ea.
    + inversion H; subst. apply IHa in Ea. exact Ea.
    + apply IHb in H. exact H.
  - apply (repeat_forward (run a) (groupsOf a) k IHa) in H. exact H.
  - apply IHa in H. destruct H as [s1 [p1 [c1 [H [Hle Hlen]]]]].
    eexists s1, p1, _. repeat split; [exact H | lia | lia].
  - destruct (Nat.eqb pos 0); [| discriminate H]. exists s, pos, caps. auto.
  - destruct (JS.isEmpty s); [| discriminate H]. exists s, pos, caps. auto.
Qed.

(** where a match of a pattern ends *)
Lemma run_accept_bounds (r : regex) (s : string) (pos e : nat) (c caps : captures) :
  run r accept s pos caps = Some (e, c) -> pos <= e <= pos + String.length s.
Proof.
  intros H. apply run_forward in H.
  destruct H as [s' [p' [c' [H [Hle Hlen]]]]]. inversion H; subst. lia.
Qed.

(** a pattern that begins with a character it cannot do without *)
Lemma run_first_character (p : ascii -> bool) (r : regex) (s : string)
      (pos e : nat) (c caps : captures) :
  run (Seq (Chr p) r) accept s pos caps = Some (e, c) ->
  pos < e <= pos + String.length s.
Proof.
  cbn [run]. destruct s as [| x t]; [discriminate |].
  destruct (p x); [| discriminate]. intros H.
  apply run_accept_bounds in H. cbn [String.length]. lia.
Qed.

Lemma run_assoc (a b c : regex) (k : cont) :
  run (Seq (Seq a b) c) k = run (Seq a (Seq b c)) k.
Proof. reflexivity. Qed.

Lemma search_bounds (r : regex) (s : string) (pos : nat) (m : found) :
  nonempty r ->
  search r s pos = Some m ->
  pos < lastIndex m <= pos + String.length s.
Proof.
  intros Hr. revert pos. induction s as [| x t IH]; intros pos H; cbn [search] in H.
  - destruct (run r accept "" pos []) as [[e caps] |] eqn:E; [| discriminate H].
    inversion H; subst. cbn [lastIndex]. apply (Hr _ _ _ _ E).
  - destruct (run r accept (String x t) pos []) as [[e caps] |] eqn:E.
    + inversion H; subst. cbn [lastIndex]. apply (Hr _ _ _ _ E).
    + apply IH in H. cbn [String.length]. lia.
Qed.

Lemma length_substring_tail (s : string) (n : nat) :
  n <= String.length s ->
  String.length (substring n (String.length s - n) s) = String.length s - n.
Proof.
  revert n. induction s as [| c s IH]; intros n Hn.
  - destruct n; reflexivity.
  - destruct n as [| n].
    + cbn [String.length Nat.sub substring]. rewrite substring_all. reflexivity.
    + cbn [String.length] in *. cbn [Nat.sub substring]. apply IH. lia.
Qed.

Lemma exec_bounds (r : regex) (s : string) (from : nat) (m : found) :
  nonempty r ->
  exec r s from = Some m ->
  from < lastIndex m <= String.length s.
Proof.
  intros Hr. unfold exec.
  destruct (Nat.ltb (String.length s) from) eqn:E; [discriminate |].
  apply Nat.ltb_ge in E. intros H. apply (search_bounds r _ _ _ Hr) in H.
  unfold JS.sliceFrom, JS.slice, JS.sliceIndex in H.
  replace (Z.of_nat from <? 0)%Z with false in H by (symmetry; apply Z.ltb_ge; lia).
  replace (Z.of_nat (String.length s) <? 0)%Z with false in H
    by (symmetry; apply Z.ltb_ge; lia).
  rewrite Z.min_l in H by lia. rewrite Z.min_id in H.
  rewrite Nat2Z.id in H.
  replace (Z.to_nat (Z.of_nat (String.length s) - Z.of_nat from))
    with (String.length s - from) in H by lia.
  rewrite length_substring_tail in H by exact E. lia.
Qed.

(** the loop over the matches of a pattern that matches no empty text
    ends within its fuel *)
Lemma execAll_returns (r : regex) (s : string) :
  nonempty r ->
  forall fuel from,
    String.length s + 1 - from < fuel ->
    exists ms, Agent.execAll fuel r s from = Some ms.
Proof.
  intros Hr. induction fuel as [| fuel IH]; intros from Hfuel; [lia |].
  cbn [Agent.execAll]. destruct (exec r s from) as [m |] eqn:E.
  - apply (exec_bounds r s from m Hr) in E.
    destruct (IH (lastIndex m)) as [ms Hms]; [lia |].
    rewrite Hms. eexists. reflexivity.
  - eexists. reflexivity.
Qed.

Lemma patterns_nonempty :
  Forall (fun p => nonempty (snd p)) Agent.patterns.
Proof.
  unfold Agent.patterns.
  apply Forall_cons; [| apply Forall_cons; [| apply Forall_cons; [| apply Forall_nil]]];
    cbn [snd]; intros s pos e c H.
  - cbn [seq stri word] in H. rewrite run_assoc in H. unfold liti at 1 in H.
    exact (run_first_character _ _ _ _ _ _ _ H).
  - cbn [seq stri word] in H. rewrite run_assoc in H. unfold liti at 1 in H.
    exact (run_first_character _ _ _ _ _ _ _ H).
  - (* an optional @, then one word character at least *)
    cbn [seq Agent.handle] in H.
    change (run (opt (lit "@"))
              (run (Group 1 (plus (Chr JS.isWord)))
                   (run (seq [plus Agent.space; stri "on"; plus Agent.space;
                              Agent.network 2; plus Agent.space;
                              Agent.quantity 3; plus Agent.space; stri "usdc"])
                        accept))
              s pos [] = Some (e, c)) in H.
    apply run_forward in H. destruct H as [s1 [p1 [c1 [H [Hle Hlen]]]]].
    cbn [run plus repeat groupsOf] in H.
    destruct s1 as [| x t]; [discriminate H |].
    destruct (JS.isWord x); [| discriminate H].
    cbn [Nat.eqb andb Nat.pred decMax] in H.
    apply (repeat_forward _ _ _ (run_forward (Chr JS.isWord))) in H.
    destruct H as [s2 [p2 [c2 [H [Hle2 Hlen2]]]]].
    apply run_accept_bounds in H. cbn [String.length] in *. lia.
Qed.

Lemma fallbackParser_returns (prompt : string) :
  exists instructions, Agent.fallbackParser prompt = Some instructions.
Proof.
  unfold Agent.fallbackParser.
  assert (H : forall ps acc,
             Forall (fun p => nonempty (snd p)) ps ->
             exists instructions, Agent.collect ps prompt acc = Some instructions).
  { induction ps as [| [source pattern] ps IH]; intros acc Hps; cbn [Agent.collect].
    - eexists. reflexivity.
    - inversion Hps as [| ? ? Hp Hrest]; subst. cbn [snd] in Hp.
      destruct (execAll_returns pattern prompt Hp
                  (S (S (String.length prompt))) 0 ltac:(lia)) as [ms Hms].
      rewrite Hms. apply IH, Hrest. }
  apply H, patterns_nonempty.
Qed.

End ProgressFacts.

(** * Properties of the program *)

(** ** Network resolution *)

Section NetworkFacts.

Import Network.

Lemma given_nonempty (n : string) : n <> EmptyString -> given (Some n) = Some n.
Proof. destruct n; [congruence | reflexivity]. Qed.

Lemma toLowerCase_nonempty (n target : string) :
  JS.toLowerCase n = target -> target <> EmptyString -> n <> EmptyString.
Proof. intros H Ht ->. apply Ht. symmetry. exact H. Qed.

Lemma useSolana_flag (n : string) (evm svm : bool) :
  n <> EmptyString ->
  useSolana (Some n) evm svm =
    if String.eqb (JS.toLowerCase n) "base" then
      if evm then Run false else Exit MissingEvmKey
    else if String.eqb (JS.toLowerCase n) "solana" then
      if svm then Run true else Exit MissingSvmKey
    else Exit InvalidNetwork.
Proof.
  intros Hn. unfold useSolana. rewrite (given_nonempty n Hn).
  unfold allowedNetworks. cbn [existsb].
  destruct (String.eqb (JS.toLowerCase n) "base") eqn:Hb.
  - apply String.eqb_eq in Hb. rewrite Hb. cbn. destruct evm; reflexivity.
  - destruct (String.eqb (JS.toLowerCase n) "solana") eqn:Hs; cbn.
    + destruct svm; reflexivity.
    + reflexivity.
Qed.

(** a string that is not empty is a flag *)
Lemma fromArgument_string (n : string) (evm svm : bool) :
  n <> EmptyString ->
  fromArgument (Str n) evm svm = Ended (useSolana (Some n) evm svm).
Proof. destruct n; [congruence | reflexivity]. Qed.

(** a value that is falsy is no flag *)
Lemma fromArgument_falsy (flag : value) (evm svm : bool) :
  Value.truthy flag = false ->
  fromArgument flag evm svm = Ended (useSolana None evm svm).
Proof. intros H. unfold fromArgument. rewrite H. reflexivity. Qed.

End NetworkFacts.

(** C1, as the specification states it, fails on a flag value that is
    falsy: [--network ""] and [--network 0], which the argument parser
    delivers as the empty string and as the number 0, are values other
    than [base] and [solana], and with only the EVM key configured the
    resolution selects Base on them, where the decision table asks for
    the invalid-network failure. *)
Lemma network_empty_flag_not_rejected :
  JS.toLowerCase "" <> "base" /\ JS.toLowerCase "" <> "solana"
  /\ Network.fromArgument (Str "") true false = Network.Ended (Network.Run false)
  /\ Network.fromArgument (Str "") true false
     <> Network.Ended (Network.Exit Network.InvalidNetwork)
  /\ Network.fromArgument (Num (JS.Fin 0)) true false
     = Network.Ended (Network.Run false).
Proof. repeat split; cbn; discriminate. Qed.

(** C1 (amended): on a flag value that is a string or is falsy, and on
    every pair of key booleans, the resolution follows the decision
    table, a falsy value (no flag, the empty string, 0, [false]) counting
    as no flag.  A string that is not empty and is neither [base] nor
    [solana] in any letter case is rejected whatever the keys are, so
    before any credential check; [base] needs the EVM key and [solana]
    the SVM key; without a flag two keys are ambiguous, one key selects
    its network, no key is a failure. *)
Theorem network_decision_table (evm svm : bool) :
  (forall n, n <> EmptyString ->
             JS.toLowerCase n <> "base" -> JS.toLowerCase n <> "solana" ->
             Network.fromArgument (Str n) evm svm
             = Network.Ended (Network.Exit Network.InvalidNetwork))
  /\ (forall n, JS.toLowerCase n = "base" ->
                Network.fromArgument (Str n) evm svm
                = Network.Ended (if evm then Network.Run false
                                 else Network.Exit Network.MissingEvmKey))
  /\ (forall n, JS.toLowerCase n = "solana" ->
                Network.fromArgument (Str n) evm svm
                = Network.Ended (if svm then Network.Run true
                                 else Network.Exit Network.MissingSvmKey))
  /\ (forall flag,
         Value.truthy flag = false ->
         Network.fromArgument flag true true
         = Network.Ended (Network.Exit Network.BothKeysSet)
         /\ Network.fromArgument flag true false = Network.Ended (Network.Run false)
         /\ Network.fromArgument flag false true = Network.Ended (Network.Run true)
         /\ Network.fromArgument flag false false
            = Network.Ended (Network.Exit Network.NoPrivateKeys))
  /\ Value.truthy Undefined = false
  /\ Value.truthy (Str "") = false
  /\ Value.truthy (Num (JS.Fin 0)) = false
  /\ Value.truthy (Bool false) = false
  /\ Network.selected false = Network.Base
  /\ Network.selected true = Network.Solana.
Proof.
  split; [| split; [| split; [| split]]].
  - intros n Hn Hb Hs.
    rewrite (fromArgument_string n evm svm Hn), (useSolana_flag n evm svm Hn).
    apply String.eqb_neq in Hb, Hs. rewrite Hb, Hs. reflexivity.
  - intros n Hb.
    pose proof (toLowerCase_nonempty n "base" Hb ltac:(discriminate)) as Hn.
    rewrite (fromArgument_string n evm svm Hn), (useSolana_flag n evm svm Hn).
    rewrite Hb. destruct evm; reflexivity.
  - intros n Hs.
    pose proof (toLowerCase_nonempty n "solana" Hs ltac:(discriminate)) as Hn.
    rewrite (fromArgument_string n evm svm Hn), (useSolana_flag n evm svm Hn).
    rewrite Hs. destruct svm; reflexivity.
  - intros flag Hf. rewrite !(fromArgument_falsy flag _ _ Hf).
    repeat split.
  - repeat split.
Qed.

Lemma network_decision_table_witness :
  JS.toLowerCase "BASE" = "base" /\ JS.toLowerCase "Solana" = "solana"
  /\ Network.fromArgument (Str "devnet") true true
     = Network.Ended (Network.Exit Network.InvalidNetwork)
  /\ Network.fromArgument (Str "BASE") false true
     = Network.Ended (Network.Exit Network.MissingEvmKey)
  /\ Network.fromArgument (Str "Solana") false true
     = Network.Ended (Network.Run true)
  /\ Network.fromArgument Undefined true true
     = Network.Ended (Network.Exit Network.BothKeysSet).
Proof.
  destruct (network_decision_table true true) as [Hinvalid [_ [_ [Hnone _]]]].
  destruct (network_decision_table false true) as [_ [Hbase [Hsolana _]]].
  split; [reflexivity | split; [reflexivity |]].
  split; [| split; [| split]].
  - apply Hinvalid; cbn; discriminate.
  - apply (Hbase "BASE"). reflexivity.
  - apply (Hsolana "Solana"). reflexivity.
  - apply (Hnone Undefined). reflexivity.
Defined.

(** ** Receivers *)

Section ReceiverFacts.

Import Receiver.



Lemma split_without (c : ascii) (s : string) :
  JS.indexOf c s = None -> JS.split c s = [s].
Proof.
  induction s as [| x s IH]; cbn; [reflexivity |].
  destruct (Ascii.eqb x c); [discriminate |].
  destruct (JS.indexOf c s); [discriminate |].
  intros _. rewrite IH; reflexivity.
Qed.



Lemma normalizePlatform_range (p : string) (identity : identity) :
  normalizePlatform p = Ok identity ->
  allowed identity = true \/ exists key, identity = Inherited key.
Proof.
  unfold normalizePlatform, platformMap. cbn [own].
  repeat match goal with
         | |- context [if String.eqb ?a ?b then _ else _] =>
             destruct (String.eqb a b)
         end;
    try (intros H; inversion H; left; reflexivity).
  destruct (existsb (String.eqb (JS.toLowerCase p)) objectPrototype);
    intros H; inversion H. right. eexists. reflexivity.
Qed.

End ReceiverFacts.



(** ** Amounts *)

Section AmountFacts.

Lemma last_character (s : string) :
  s <> EmptyString -> exists r z, s = r ++ String z "".
Proof.
  induction s as [| c s IH]; [congruence |]. intros _.
  destruct s as [| d s].
  - exists "", c. reflexivity.
  - destruct (IH ltac:(discriminate)) as [r [z E]].
    exists (String c r), z. cbn. rewrite <- E. reflexivity.
Qed.

Lemma cent_not_space : JS.isSpace JS.cent = false.
Proof. reflexivity. Qed.

Lemma digit_not_cent (c : ascii) : JS.isDigit c = true -> Ascii.eqb c JS.cent = false.
Proof.
  destruct c as [[] [] [] [] [] [] [] []]; vm_compute; intros;
    try discriminate; reflexivity.
Qed.

(** a token of digits and the cents sign: nothing to trim, no dollar
    sign before it, and not the literal of the suffix test at its end *)
Lemma cents_sign_token (ds : string) :
  isDigits ds ->
  JS.trim (ds ++ centSign) = ds ++ centSign
  /\ JS.endsWith (ds ++ centSign) centsLiteral = false
  /\ JS.startsWith (ds ++ centSign) "$" = false.
Proof.
  intros [Hds Hne]. unfold centSign. split; [| split].
  - unfold JS.trim. destruct ds as [| c r]; [contradiction |].
    cbn in Hds. apply andb_true_iff in Hds. destruct Hds as [Hc _].
    change (String c r ++ String JS.cent "") with (String c (r ++ String JS.cent "")).
    rewrite (trimStart_kept c _ (digit_not_space c Hc)).
    change (String c (r ++ String JS.cent "")) with (String c r ++ String JS.cent "").
    apply trimEnd_kept, cent_not_space.
  - destruct (JS.endsWith (ds ++ String JS.cent "") centsLiteral) eqn:E; [| reflexivity].
    apply endsWith_suffix in E. destruct E as [a E].
    change centsLiteral with (String JS.notSign "" ++ String JS.cent "") in E.
    rewrite <- append_assoc in E. apply append_last_inj in E. destruct E as [E _].
    rewrite E, every_append in Hds. apply andb_true_iff in Hds.
    destruct Hds as [_ Hn]. discriminate Hn.
  - destruct ds as [| c r]; [contradiction |].
    cbn in Hds. apply andb_true_iff in Hds. destruct Hds as [Hc _].
    cbn. destruct (Ascii.eqb c "$") eqn:E; [| reflexivity].
    apply Ascii.eqb_eq in E. subst c. discriminate Hc.
Qed.

(** a token [$body] whose body ends with a digit: nothing to trim, not
    the literal of the suffix test at its end, the body stands after the
    dollar sign *)
Lemma dollar_token (body : string) (z : ascii) :
  JS.isDigit z = true ->
  let token := "$" ++ body ++ String z "" in
  JS.trim token = token
  /\ JS.endsWith token centsLiteral = false
  /\ JS.startsWith token "$" = true
  /\ JS.sliceFrom token 1 = body ++ String z "".
Proof.
  intros Hz token. subst token. split; [| split; [| split]].
  - unfold JS.trim. cbn [append]. rewrite trimStart_kept by reflexivity.
    change (String "$" (body ++ String z "")) with (String "$" body ++ String z "").
    apply trimEnd_kept, digit_not_space, Hz.
  - change ("$" ++ body ++ String z "") with (String "$" body ++ String z "").
    change centsLiteral with (String JS.notSign "" ++ String JS.cent "").
    apply endsWith_final, digit_not_cent, Hz.
  - reflexivity.
  - cbn [append]. apply sliceFrom_tail.
Qed.

Lemma isDigits_last (ds : string) :
  isDigits ds -> exists r z, ds = r ++ String z "" /\ JS.isDigit z = true.
Proof.
  intros [Hds Hne]. destruct (last_character ds Hne) as [r [z E]].
  exists r, z. split; [exact E |].
  rewrite E, every_append in Hds. apply andb_true_iff in Hds.
  destruct Hds as [_ Hz]. cbn in Hz. rewrite andb_true_r in Hz. exact Hz.
Qed.

Lemma fin_not_NaN (q : Q) : JS.isNaN (JS.fin q) = false.
Proof. reflexivity. Qed.

Lemma isNaN_true (n : JS.number) : JS.isNaN n = true <-> n = JS.NaN.
Proof. destruct n; cbn; split; congruence. Qed.

Lemma allDigits_not_NaN (s : string) :
  Regex.test Send.allDigits s = true -> JS.isNaN (JS.parseFloat s) = false.
Proof.
  rewrite test_allDigits. intros H. apply andb_true_iff in H. destruct H as [Hd Hne].
  rewrite parseFloat_digits; [reflexivity |].
  split; [exact Hd | destruct s; [discriminate | discriminate]].
Qed.

(** a number and its hundredth differ, but for 0 *)
Lemma ofN_not_hundredth (n : N) :
  n <> 0%N -> JS.ofN n <> JS.divBy (JS.ofN n) 100.
Proof.
  intros Hn E. set (a := inject_Z (Z.of_N n)).
  assert (E' : JS.Fin (Qred a) = JS.Fin (Qred (Qred a / inject_Z 100))) by exact E.
  assert (Hq : Qred a = Qred (Qred a / inject_Z 100)) by congruence.
  pose proof (Qred_correct a) as H1.
  pose proof (Qred_correct (Qred a / inject_Z 100)) as H2.
  rewrite <- Hq in H2. rewrite H1 in H2. subst a.
  unfold Qeq, Qdiv, Qmult, Qinv, inject_Z in H2. cbn in H2. lia.
Qed.

End AmountFacts.

(** C5, on the digits of a natural number [n] followed by the cents
    sign: the suffix test of [parseAmount] compares the end of the token
    with a literal of two code units, U+00AC and U+00A2, which such a
    token does not end with; the token is read as a plain decimal, and
    for every [n] that a double holds exactly the amount is [n], not
    [n / 100], in the send and in the batch command.  So [7¢] is the
    amount 7.  With the literal of the source at its end, [7] is read as
    the claim says, as 7/100. *)
Theorem parseAmount_cents_sign_unread :
  (forall n : N,
      (n <= 2 ^ 53)%N ->
      JS.endsWith (JS.trim (JS.digitsOf n ++ centSign)) centsLiteral = false
      /\ Send.parseAmount (JS.digitsOf n ++ centSign) = Ok (JS.ofN n)
      /\ BatchSend.parseAmount (Str (JS.digitsOf n ++ centSign)) = Ok (JS.ofN n)
      /\ (n <> 0%N -> JS.ofN n <> JS.divBy (JS.ofN n) 100))
  /\ Send.parseAmount ("7" ++ centSign) = Ok (JS.Fin (7 # 1))
  /\ BatchSend.parseAmount (Str ("7" ++ centSign)) = Ok (JS.Fin (7 # 1))
  /\ Send.parseAmount ("7" ++ centsLiteral) = Ok (JS.Fin (7 # 100))
  /\ BatchSend.parseAmount (Str ("7" ++ centsLiteral)) = Ok (JS.Fin (7 # 100)).
Proof.
  split; [| repeat split; vm_compute; reflexivity].
  intros n _. pose proof (digitsOf_isDigits n) as Hds.
  destruct (cents_sign_token (JS.digitsOf n) Hds) as [Htrim [Hends Hstart]].
  assert (Hread : JS.parseFloat (JS.digitsOf n ++ centSign) = JS.ofN n).
  { unfold centSign. rewrite (parseFloat_digits_sign _ "" JS.cent Hds (or_introl eq_refl)).
    rewrite digitsOf_value. reflexivity. }
  split; [rewrite Htrim; exact Hends |].
  split; [| split].
  - unfold Send.parseAmount. rewrite Htrim, Hends, Hstart, Hread. reflexivity.
  - unfold BatchSend.parseAmount. rewrite Htrim, Hends, Hstart, Hread. reflexivity.
  - apply ofN_not_hundredth.
Qed.

Lemma parseAmount_cents_sign_unread_witness :
  (7 <= 2 ^ 53)%N
  /\ Send.parseAmount (JS.digitsOf 7 ++ centSign) = Ok (JS.ofN 7)
  /\ JS.ofN 7 <> JS.divBy (JS.ofN 7) 100.
Proof.
  assert (H : (7 <= 2 ^ 53)%N) by (vm_compute; discriminate).
  destruct (proj1 parseAmount_cents_sign_unread 7%N H) as [_ [Hsend [_ Hne]]].
  split; [exact H | split; [exact Hsend | apply Hne; discriminate]].
Defined.



(** C2, as the specification states it, fails on a token that begins
    with a minus sign: [-5] is accepted as the amount -5 and [$-1.5] as
    -1.5, in both commands, and the compact batch [x/alice:-5] is parsed
    to a payment of -5. *)
Lemma parseAmount_accepts_negative :
  Send.parseAmount "-5" = Ok (JS.Fin (-5 # 1))
  /\ BatchSend.parseAmount (Str "-5") = Ok (JS.Fin (-5 # 1))
  /\ Send.parseAmount "$-1.5" = Ok (JS.Fin (-3 # 2))
  /\ BatchSend.parseAmount (Str "$-1.5") = Ok (JS.Fin (-3 # 2))
  /\ BatchSend.parseCommaSeparated "x/alice:-5"
     = Ok (BatchSend.Batch (Receiver.Platform "x")
             [BatchSend.Payment (Str "alice") (JS.Fin (-5 # 1))])
  /\ ~ JS.nonNegative (JS.Fin (-5 # 1))
  /\ ~ JS.nonNegative (JS.Fin (-3 # 2)).
Proof.
  repeat split; try (vm_compute; reflexivity);
    cbn; intros H; apply (Qle_not_lt _ _ H); reflexivity.
Qed.

(** C2 (amended): [parseAmount] has no check of the sign; a token that
    it accepts yields an amount that is not negative when the text it
    reads as a number does not begin, after white space, with a minus
    sign, in the three notations and in both commands. *)
Theorem parseAmount_nonnegative_without_minus (token : string) (v : JS.number) :
  JS.startsWith (JS.trimStart (numericText token)) "-" = false ->
  (Send.parseAmount token = Ok v -> JS.nonNegative v)
  /\ (BatchSend.parseAmount (Str token) = Ok v -> JS.nonNegative v).
Proof.
  unfold numericText. intros Hsign.
  assert (Hread : forall s, JS.startsWith (JS.trimStart s) "-" = false ->
                    JS.isNaN (JS.parseFloat s) = false ->
                    JS.nonNegative (JS.parseFloat s)).
  { intros s Hs Hn. destruct (parseFloat_sign s Hs) as [E | H]; [| exact H].
    rewrite E in Hn. discriminate Hn. }
  split.
  - unfold Send.parseAmount.
    destruct (JS.endsWith (JS.trim token) centsLiteral).
    + destruct (JS.isNaN (JS.parseFloat (JS.slice (JS.trim token) 0 (-1)))) eqn:Hn;
        intros H; inversion H.
      apply divBy_nonneg, Hread; [exact Hsign | exact Hn].
    + destruct (JS.startsWith (JS.trim token) "$").
      * destruct (Regex.test Send.allDigits (JS.sliceFrom (JS.trim token) 1));
          [discriminate |].
        destruct (JS.isNaN (JS.parseFloat (JS.sliceFrom (JS.trim token) 1))) eqn:Hn;
          intros H; inversion H.
        apply Hread; [exact Hsign | exact Hn].
      * destruct (JS.isNaN (JS.parseFloat (JS.trim token))) eqn:Hn;
          intros H; inversion H.
        apply Hread; [exact Hsign | exact Hn].
  - unfold BatchSend.parseAmount.
    destruct (JS.endsWith (JS.trim token) centsLiteral).
    + destruct (JS.isNaN (JS.parseFloat (JS.slice (JS.trim token) 0 (-1)))) eqn:Hn;
        intros H; inversion H.
      apply divBy_nonneg, Hread; [exact Hsign | exact Hn].
    + destruct (JS.startsWith (JS.trim token) "$").
      * destruct (JS.isNaN (JS.parseFloat (JS.sliceFrom (JS.trim token) 1))) eqn:Hn;
          intros H; inversion H.
        apply Hread; [exact Hsign | exact Hn].
      * destruct (JS.isNaN (JS.parseFloat (JS.trim token))) eqn:Hn;
          intros H; inversion H.
        apply Hread; [exact Hsign | exact Hn].
Qed.

Lemma parseAmount_nonnegative_without_minus_witness :
  JS.startsWith (JS.trimStart (numericText " $1e-2 ")) "-" = false
  /\ Send.parseAmount " $1e-2 " = Ok (JS.Fin (1 # 100))
  /\ JS.nonNegative (JS.Fin (1 # 100)).
Proof.
  split; [reflexivity | split; [reflexivity |]].
  apply (parseAmount_nonnegative_without_minus " $1e-2 " (JS.Fin (1 # 100))).
  - reflexivity.
  - reflexivity.
Defined.

(** C3, as the specification states it, fails on the infinities: the
    tokens [Infinity] and [-Infinity] are accepted and returned as they
    are, in both commands and in the three notations.  A token in none of
    the three notations is accepted as well when it begins with a number:
    [5abc] is the amount 5. *)
Lemma parseAmount_returns_infinity :
  Send.parseAmount "Infinity" = Ok JS.PosInf
  /\ BatchSend.parseAmount (Str "Infinity") = Ok JS.PosInf
  /\ Send.parseAmount "-Infinity" = Ok JS.NegInf
  /\ Send.parseAmount ("Infinity" ++ centsLiteral) = Ok JS.PosInf
  /\ BatchSend.parseAmount (Str "$Infinity") = Ok JS.PosInf
  /\ JS.parseFloat (numericText "Infinity") = JS.PosInf
  /\ JS.isFinite JS.PosInf = false
  /\ Send.parseAmount "5abc" = Ok (JS.Fin (5 # 1))
  /\ BatchSend.parseAmount (Str "5abc") = Ok (JS.Fin (5 # 1)).
Proof. repeat split; vm_compute; reflexivity. Qed.

(** C3 (amended): a token whose numeric text does not begin with a
    number, so that it reads as [NaN], fails with an invalid-amount error
    that names the token as it was given; [parseAmount] never returns
    [NaN]; and it fails in no other way, but for the shell-variable error
    of the send command.  Nothing is said of the other numbers that are
    not finite. *)
Theorem parseAmount_rejects_NaN (token : string) :
  (JS.parseFloat (numericText token) = JS.NaN ->
   (exists e, BatchSend.parseAmount (Str token) = Err e /\ invalidAmountOf token e)
   /\ (exists e, Send.parseAmount token = Err e /\ invalidAmountOf token e))
  /\ (forall v, BatchSend.parseAmount (Str token) = Ok v -> v <> JS.NaN)
  /\ (forall v, Send.parseAmount token = Ok v -> v <> JS.NaN)
  /\ (forall e, BatchSend.parseAmount (Str token) = Err e -> invalidAmountOf token e)
  /\ (forall e, Send.parseAmount token = Err e ->
                invalidAmountOf token e \/ exists dollars, e = ShellVariable dollars).
Proof.
  assert (Hdiv : forall n, JS.isNaN n = false -> JS.divBy n 100 <> JS.NaN).
  { intros n Hn E. pose proof (divBy_not_NaN n 100 Hn) as H.
    rewrite E in H. discriminate H. }
  assert (Hnot : forall n, JS.isNaN n = false -> n <> JS.NaN).
  { intros n Hn E. rewrite E in Hn. discriminate Hn. }
  assert (Hdigits : forall s, JS.parseFloat s = JS.NaN ->
                              Regex.test Send.allDigits s = false).
  { intros s E. destruct (Regex.test Send.allDigits s) eqn:Ht; [| reflexivity].
    apply allDigits_not_NaN in Ht. rewrite E in Ht. discriminate Ht. }
  unfold numericText, BatchSend.parseAmount, Send.parseAmount, invalidAmountOf.
  split; [| split; [| split; [| split]]].
  - intros HNaN. destruct (JS.endsWith (JS.trim token) centsLiteral).
    + rewrite HNaN. cbn [JS.isNaN]. split; eexists; (split; [reflexivity | auto]).
    + destruct (JS.startsWith (JS.trim token) "$").
      * rewrite (Hdigits _ HNaN), HNaN. cbn [JS.isNaN].
        split; eexists; (split; [reflexivity | auto]).
      * rewrite HNaN. cbn [JS.isNaN]. split; eexists; (split; [reflexivity | auto]).
  - intros v H.
    repeat match type of H with
           | context [if ?b then _ else _] => destruct b eqn:?
           end; inversion H; subst; auto.
  - intros v H.
    repeat match type of H with
           | context [if ?b then _ else _] => destruct b eqn:?
           end; inversion H; subst; auto.
  - intros e H.
    repeat match type of H with
           | context [if ?b then _ else _] => destruct b eqn:?
           end; inversion H; subst; auto.
  - intros e H.
    repeat match type of H with
           | context [if ?b then _ else _] => destruct b eqn:?
           end; inversion H; subst; eauto.
Qed.

Lemma parseAmount_rejects_NaN_witness :
  JS.parseFloat (numericText " abc ") = JS.NaN
  /\ (exists e, BatchSend.parseAmount (Str " abc ") = Err e
                /\ invalidAmountOf " abc " e)
  /\ (exists e, Send.parseAmount " abc " = Err e /\ invalidAmountOf " abc " e).
Proof.
  split; [reflexivity |].
  destruct (parseAmount_rejects_NaN " abc ") as [H _].
  apply H. reflexivity.
Defined.

(** ** Batch descriptors *)

(** C4, at the example of the specification: the compact form
    [x/alice:5¢,bob:$0.5] and the JSON object with platform [x] and the
    payments [alice, 5¢] and [bob, $0.5] do parse to one and the same
    descriptor, of platform [x], but its payments are [alice, 5] and
    [bob, 0.5]: the amount [5¢] does not end with the literal of the
    suffix test, which is two code units long, and is read as the plain
    decimal 5.  The same holds through [parseInput].  With the literal of
    the source in place of the cents sign, the compact form parses to the
    descriptor the claim names. *)
Theorem batch_example_amounts
        (numberText : JS.number -> string)
        (JSON_parse loadFromFile loadFromURL : string -> result value) :
  BatchSend.parseCommaSeparated compactBatch = Ok observedBatch
  /\ BatchSend.parseJSONPayments numberText jsonBatch = Ok observedBatch
  /\ BatchSend.parseInput numberText JSON_parse loadFromFile loadFromURL
       compactBatch = Ok observedBatch
  /\ observedBatch <> expectedBatch
  /\ BatchSend.payments observedBatch
     = [ BatchSend.Payment (Str "alice") (JS.Fin (5 # 1));
         BatchSend.Payment (Str "bob") (JS.Fin (1 # 2)) ]
  /\ BatchSend.payments expectedBatch
     = [ BatchSend.Payment (Str "alice") (JS.Fin (1 # 20));
         BatchSend.Payment (Str "bob") (JS.Fin (1 # 2)) ]
  /\ BatchSend.parseCommaSeparated ("x/alice:5" ++ centsLiteral ++ ",bob:$0.5")
     = Ok expectedBatch
  /\ (JSON_parse jsonBatchText = Ok jsonBatch ->
      BatchSend.parseInput numberText JSON_parse loadFromFile loadFromURL
        jsonBatchText = Ok observedBatch).
Proof.
  split; [vm_compute; reflexivity |].
  split; [vm_compute; reflexivity |].
  split; [vm_compute; reflexivity |].
  split; [vm_compute; discriminate |].
  split; [vm_compute; reflexivity |].
  split; [vm_compute; reflexivity |].
  split; [vm_compute; reflexivity |].
  intros Hparse. unfold BatchSend.parseInput.
  replace (JS.startsWith jsonBatchText "http://") with false by (vm_compute; reflexivity).
  replace (JS.startsWith jsonBatchText "https://") with false by (vm_compute; reflexivity).
  replace (JS.startsWith jsonBatchText "file:") with false by (vm_compute; reflexivity).
  replace (JS.endsWith jsonBatchText ".json") with false by (vm_compute; reflexivity).
  replace (JS.startsWith jsonBatchText "{") with true by (vm_compute; reflexivity).
  cbn [orb]. rewrite Hparse. vm_compute. reflexivity.
Qed.

Lemma batch_example_amounts_witness :
  BatchSend.parseInput (fun _ => EmptyString) (fun _ => Ok jsonBatch)
    (fun _ => Err SyntaxError) (fun _ => Err SyntaxError) jsonBatchText
  = Ok observedBatch.
Proof.
  apply (batch_example_amounts (fun _ => EmptyString) (fun _ => Ok jsonBatch)
           (fun _ => Err SyntaxError) (fun _ => Err SyntaxError)).
  reflexivity.
Defined.

(** ** The payment agent *)

(** C9: with neither provider key configured, the prompt
    [Send 0.5 USDC to @alice on farcaster] yields exactly one instruction,
    receiver [alice], amount 0.5, platform [farcaster]: the first template
    matches once, the other two do not match. *)
Theorem fallback_single_instruction
        (numberText : JS.number -> string)
        (JSON_parse : string -> result value)
        (openai claude : string -> result string) :
  Agent.fallbackParser "Send 0.5 USDC to @alice on farcaster"
    = Some [aliceOnFarcaster]
  /\ Agent.parsePaymentRequest numberText JSON_parse openai claude None None
       "Send 0.5 USDC to @alice on farcaster"
     = Some (Ok [Agent.objectOf aliceOnFarcaster])
  /\ map (fun p => Agent.execAll 38 (snd p)
                     "Send 0.5 USDC to @alice on farcaster" 0)
         Agent.patterns
     = [ Some [Regex.Found 0 36 "Send 0.5 USDC to @alice on farcaster"
                 [(3, "farcaster"); (2, "alice"); (1, "0.5")]];
         Some []; Some [] ].
Proof. repeat split; vm_compute; reflexivity. Qed.

(** C8, at a response without brackets: the agent applies the three
    templates to the text of the response, and not to the prompt.  That
    is so for every such response, the loop over the matches always
    ending.  With a provider key configured and the answer
    [Sorry, I cannot help.] to the prompt
    [Send 0.5 USDC to @alice on farcaster], no instruction is extracted,
    while the templates find one in the prompt.  A response with brackets
    that [JSON.parse] refuses ends in that error, without any fallback. *)
Theorem fallback_reads_the_response
        (numberText : JS.number -> string)
        (JSON_parse : string -> result value) (claude : string -> result string) :
  (forall content,
      Regex.firstMatch Agent.bracketed content = None ->
      exists instructions,
        Agent.fallbackParser content = Some instructions
        /\ Agent.parseAIResponse numberText JSON_parse content
           = Some (Ok (map Agent.objectOf instructions)))
  /\ (forall content text e,
         Regex.firstMatch Agent.bracketed content = Some text ->
         JSON_parse text = Err e ->
         Agent.parseAIResponse numberText JSON_parse content = Some (Err e))
  /\ Agent.parsePaymentRequest numberText JSON_parse
       (fun _ => Ok "Sorry, I cannot help.")
       claude (Some "sk-key") None "Send 0.5 USDC to @alice on farcaster"
     = Some (Ok [])
  /\ Agent.fallbackParser "Send 0.5 USDC to @alice on farcaster"
     = Some [aliceOnFarcaster].
Proof.
  split; [| split; [| split]].
  - intros content H. destruct (fallbackParser_returns content) as [instructions Hi].
    exists instructions. split; [exact Hi |].
    unfold Agent.parseAIResponse. rewrite H, Hi. reflexivity.
  - intros content text e H He. unfold Agent.parseAIResponse.
    rewrite H, He. reflexivity.
  - vm_compute. reflexivity.
  - vm_compute. reflexivity.
Qed.

Lemma fallback_reads_the_response_witness :
  Regex.firstMatch Agent.bracketed "Sorry, I cannot help." = None
  /\ exists instructions,
       Agent.fallbackParser "Sorry, I cannot help." = Some instructions
       /\ Agent.parseAIResponse (fun _ => EmptyString) (fun _ => Err SyntaxError)
            "Sorry, I cannot help."
          = Some (Ok (map Agent.objectOf instructions)).
Proof.
  split; [reflexivity |].
  destruct (fallback_reads_the_response (fun _ => EmptyString)
              (fun _ => Err SyntaxError) (fun _ => Err SyntaxError))
    as [H _].
  apply H. reflexivity.
Defined.

(** ** Campaigns *)

Section CampaignFacts.

Import Campaign.

Variable numberText : JS.number -> string.
Variable URL_valid : string -> bool.

Lemma checkPlatform_push (v : value) (errors : list string) :
  checkPlatform numberText v errors
  = match checkPlatform numberText v [] with
    | Ok report => Ok (errors ++ report)%list
    | Err e => Err e
    end.
Proof.
  unfold checkPlatform, push.
  destruct (negb (Value.truthy v)); [reflexivity |].
  destruct (negb (isCampaignPlatform v)).
  - destruct (Value.toText numberText v); reflexivity.
  - rewrite app_nil_r. reflexivity.
Qed.

(** the coercion to text fails in one way only *)
Lemma joinText_error (element : value -> result string) (vs : list value) :
  Forall (fun v => forall e, element v = Err e -> e = TypeError) vs ->
  forall e, Value.joinText element vs = Err e -> e = TypeError.
Proof.
  induction 1 as [| x vs Hx Hvs IH]; intros e; [discriminate |].
  cbn [Value.joinText]. destruct vs as [| y vs]; [apply Hx |].
  destruct (element x) as [head | e'] eqn:Ex; cbn [bind].
  - destruct (Value.joinText element (y :: vs)) as [tail | e''] eqn:Et;
      cbn [bind]; [discriminate |].
    intros H. inversion H; subst. apply IH. reflexivity.
  - intros H. inversion H; subst. apply Hx. reflexivity.
Qed.

Lemma toText_error (v : value) :
  forall e, Value.toText numberText v = Err e -> e = TypeError.
Proof.
  induction v as [| | b | n | s | items IH | fields IH] using value_induction;
    intros e; cbn [Value.toText]; try discriminate.
  - destruct b; discriminate.
  - apply joinText_error.
    apply Forall_impl with (2 := IH). intros x Hx e'.
    destruct x; try discriminate; apply Hx.
  - destruct (Value.hasOwn "toString" fields); [| discriminate].
    intros H. inversion H. reflexivity.
Qed.

Lemma checkPlatform_error (v : value) (errors : list string) (e : error) :
  checkPlatform numberText v errors = Err e -> e = TypeError.
Proof.
  unfold checkPlatform.
  destruct (negb (Value.truthy v)); [discriminate |].
  destruct (negb (isCampaignPlatform v)); [| discriminate].
  destruct (Value.toText numberText v) as [got | e'] eqn:E; [discriminate |].
  cbn. intros H. inversion H; subst. apply (toText_error v e E).
Qed.

Lemma checkText_push (label : string) (min max : nat) (unit : string)
      (v : value) (errors : list string) :
  checkText label min max unit v errors
  = (errors ++ checkText label min max unit v [])%list.
Proof.
  unfold checkText, push.
  destruct (negb (Value.truthy v)); [reflexivity |].
  destruct v as [| | b | n | s | items | fields]; try reflexivity.
  destruct (Nat.ltb (String.length s) min); [reflexivity |].
  destruct (Nat.ltb max (String.length s)); [reflexivity |].
  rewrite app_nil_r. reflexivity.
Qed.

Lemma checkTotalCookies_push (v : value) (errors : list string) :
  checkTotalCookies v errors = (errors ++ checkTotalCookies v [])%list.
Proof.
  unfold checkTotalCookies, push.
  destruct v as [| | b | n | s | items | fields]; try reflexivity.
  destruct (negb (JS.isInteger n)); [reflexivity |].
  destruct (JS.ltb n (JS.ofN 3)); [reflexivity |].
  destruct (JS.ltb (JS.ofN 10) n); [reflexivity |].
  rewrite app_nil_r. reflexivity.
Qed.

Lemma checkUrl_push (v : value) (errors : list string) :
  checkUrl URL_valid v errors = (errors ++ checkUrl URL_valid v [])%list.
Proof.
  unfold checkUrl, push.
  destruct v as [| | b | n | s | items | fields];
    try reflexivity; try (rewrite app_nil_r; reflexivity).
  destruct (URL_valid s); [rewrite app_nil_r |]; reflexivity.
Qed.


(** the validation in one piece: unless a field cannot be read or the
    platform cannot be named, the errors are the reports of the fields,
    one after the other, and the outcome is decided at the end *)
Lemma validateCampaignData_reports (data : value) :
  data <> Undefined -> data <> Null ->
  validateCampaignData numberText URL_valid data
  = match checkPlatform numberText (property data "platform") [] with
    | Err e => Err e
    | Ok _ =>
        match concat (reports numberText URL_valid data) with
        | [] => Ok data
        | errors => Err (ValidationFailed errors)
        end
    end.
Proof.
  intros Hu Hn.
  assert (Hget : forall k, Value.get data k = Ok (property data k)).
  { intros k. unfold property. destruct data; try contradiction; cbn;
      try reflexivity; destruct (String.eqb k "length"); reflexivity. }
  unfold validateCampaignData, reports, platformReport. rewrite !Hget.
  cbn [bind concat].
  destruct (checkPlatform numberText (property data "platform") [])
    as [report | e]; [| reflexivity].
  cbn [bind]. set (sponsor := property data "sponsor").
  rewrite app_nil_r.
  rewrite (checkText_push "name"), (checkText_push "description"),
    checkTotalCookies_push.
  destruct (Value.truthy sponsor) eqn:Ht; cbn [negb bind].
  - assert (Hs : forall k, Value.get sponsor k = Ok (property sponsor k)).
    { intros k. unfold property. destruct sponsor; try discriminate Ht; cbn;
        try reflexivity; destruct (String.eqb k "length"); reflexivity. }
    rewrite !Hs. cbn [bind].
    rewrite checkUrl_push, (checkText_push "sponsor.handle"),
      (checkText_push "sponsor.name").
    rewrite <- !app_assoc.
    match goal with |- match ?l with _ => _ end = _ => destruct l end; reflexivity.
  - unfold push. rewrite <- !app_assoc.
    match goal with |- match ?l with _ => _ end = _ => destruct l end; reflexivity.
Qed.

Lemma checkPlatform_clean (v : value) :
  checkPlatform numberText v [] = Ok [] <-> platformWithin v.
Proof.
  unfold checkPlatform, push, platformWithin. split.
  - destruct (negb (Value.truthy v)); [discriminate |].
    destruct (negb (isCampaignPlatform v)) eqn:Ec.
    + destruct (Value.toText numberText v); discriminate.
    + intros _. apply negb_false_iff in Ec.
      destruct v as [| | b | n | s | items | fields]; try discriminate Ec.
      cbn in Ec. apply orb_true_iff in Ec.
      destruct Ec as [E | E]; apply String.eqb_eq in E; subst; auto.
  - intros [-> | ->]; reflexivity.
Qed.


Lemma Qred_integer (z : Z) : Qred (inject_Z z) = inject_Z z.
Proof.
  unfold Qred, inject_Z.
  pose proof (Z.ggcd_gcd z 1) as Hg.
  pose proof (Z.ggcd_correct_divisors z 1) as Hd.
  destruct (Z.ggcd z 1) as [g [a b]]. cbn [fst snd] in *.
  rewrite Z.gcd_1_r in Hg. subst g. destruct Hd as [Ha Hb].
  rewrite !Z.mul_1_l in *. subst a b. reflexivity.
Qed.

Lemma isInteger_integer (q : Q) :
  JS.isInteger (JS.Fin q) = true <-> exists z, (q == inject_Z z)%Q.
Proof.
  cbn [JS.isInteger]. split.
  - intros H. apply Z.eqb_eq in H. exists (Qnum (Qred q)).
    rewrite <- (Qred_correct q) at 1.
    destruct (Qred q) as [n d]. cbn in *. injection H as ->. reflexivity.
  - intros [z Hz]. rewrite (Qred_complete _ _ Hz), Qred_integer. reflexivity.
Qed.

Lemma ltb_integer (q : Q) (z : Z) (k : N) :
  (q == inject_Z z)%Q ->
  JS.ltb (JS.Fin q) (JS.ofN k) = Z.ltb z (Z.of_N k)
  /\ JS.ltb (JS.ofN k) (JS.Fin q) = Z.ltb (Z.of_N k) z.
Proof.
  intros Hq. unfold JS.ofN, JS.fin. rewrite Qred_integer. cbn [JS.ltb].
  split.
  - destruct (Qle_bool (inject_Z (Z.of_N k)) q) eqn:E; cbn [negb]; symmetry.
    + apply Qle_bool_iff in E. rewrite Hq, <- Zle_Qle in E.
      apply Z.ltb_ge. exact E.
    + apply Z.ltb_lt. apply Z.nle_gt. intros Hle.
      rewrite Zle_Qle, <- Hq in Hle. apply Qle_bool_iff in Hle.
      rewrite Hle in E. discriminate E.
  - destruct (Qle_bool q (inject_Z (Z.of_N k))) eqn:E; cbn [negb]; symmetry.
    + apply Qle_bool_iff in E. rewrite Hq, <- Zle_Qle in E.
      apply Z.ltb_ge. exact E.
    + apply Z.ltb_lt. apply Z.nle_gt. intros Hle.
      rewrite Zle_Qle, <- Hq in Hle. apply Qle_bool_iff in Hle.
      rewrite Hle in E. discriminate E.
Qed.

Lemma checkTotalCookies_clean (v : value) :
  checkTotalCookies v [] = [] <-> cookiesWithin v.
Proof.
  unfold checkTotalCookies, push, cookiesWithin. split.
  - destruct v as [| | b | n | s | items | fields]; try discriminate.
    destruct (JS.isInteger n) eqn:Hi; [| discriminate]. cbn [negb].
    destruct n as [| q | |]; try discriminate Hi.
    apply isInteger_integer in Hi. destruct Hi as [z Hz].
    destruct (ltb_integer q z 3 Hz) as [H3 _].
    destruct (ltb_integer q z 10 Hz) as [_ H10].
    rewrite H3, H10.
    destruct (Z.ltb z (Z.of_N 3)) eqn:E3; [discriminate |].
    destruct (Z.ltb (Z.of_N 10) z) eqn:E10; [discriminate |].
    apply Z.ltb_ge in E3, E10. intros _. exists q, z.
    split; [reflexivity | split; [exact Hz | cbn in *; lia]].
  - intros [q [z [-> [Hz [H3 H10]]]]].
    replace (JS.isInteger (JS.Fin q)) with true
      by (symmetry; apply isInteger_integer; exists z; exact Hz).
    cbn [negb].
    destruct (ltb_integer q z 3 Hz) as [E3 _].
    destruct (ltb_integer q z 10 Hz) as [_ E10].
    rewrite E3, E10.
    replace (Z.ltb z (Z.of_N 3)) with false by (symmetry; apply Z.ltb_ge; cbn; lia).
    replace (Z.ltb (Z.of_N 10) z) with false by (symmetry; apply Z.ltb_ge; cbn; lia).
    reflexivity.
Qed.


End CampaignFacts.




(** ** The matcher against what a pattern matches *)

Section MatcherFacts.

Import Regex.

Lemma repeat_sound (a : regex) :
  (forall k s pos caps res,
      run a k s pos caps = Some res ->
      exists t rest caps',
        s = t ++ rest /\ matches a pos t rest
        /\ k rest (pos + String.length t) caps' = Some res
        /\ (groupsOf a = [] -> caps' = caps)) ->
  forall k fuel min max s pos caps res,
    repeat (run a) (groupsOf a) k fuel min max s pos caps = Some res ->
    exists t rest caps',
      s = t ++ rest /\ matches (Rep min max a) pos t rest
      /\ k rest (pos + String.length t) caps' = Some res
      /\ (groupsOf a = [] -> caps' = caps).
Proof.
  intros Ha k.
  assert (Hstop : forall min max s pos caps res,
             min = 0 \/ max = Some 0 ->
             k s pos caps = Some res ->
             exists t rest caps',
               s = t ++ rest /\ matches (Rep min max a) pos t rest
               /\ k rest (pos + String.length t) caps' = Some res
               /\ (groupsOf a = [] -> caps' = caps)).
  { intros min max s pos caps res Hb Hk. exists "", s, caps.
    cbn [String.length append]. rewrite Nat.add_0_r.
    repeat split; [apply matches_stop; exact Hb | exact Hk]. }
  induction fuel as [| fuel IH]; intros min max s pos caps res H.
  - destruct max as [[| n] |]; cbn [repeat] in H; try discriminate H.
    apply Hstop; [right; reflexivity | exact H].
  - assert (Hround : forall (b : bool),
               b = Nat.eqb min 0 ->
               max <> Some 0 ->
               run a (fun s' pos' caps' =>
                        if b && Nat.eqb pos' pos then None
                        else repeat (run a) (groupsOf a) k fuel (Nat.pred min)
                                    (decMax max) s' pos' caps')
                   s pos (forget (groupsOf a) caps) = Some res ->
               exists t rest caps',
                 s = t ++ rest /\ matches (Rep min max a) pos t rest
                 /\ k rest (pos + String.length t) caps' = Some res
                 /\ (groupsOf a = [] -> caps' = caps)).
    { intros b Hb Hmax Hres. apply Ha in Hres.
      destruct Hres as [t1 [rest1 [caps1 [Hs [Hm [Hagain Hcaps1]]]]]].
      destruct (b && Nat.eqb (pos + String.length t1) pos) eqn:Hcheck;
        [discriminate Hagain |].
      apply IH in Hagain.
      destruct Hagain as [t2 [rest2 [caps2 [Hs2 [Hm2 [Hk Hcaps2]]]]]].
      exists (t1 ++ t2), rest2, caps2.
      rewrite length_append, append_assoc, Nat.add_assoc.
      repeat split.
      - rewrite Hs, Hs2. reflexivity.
      - apply matches_round; [exact Hmax | | rewrite <- Hs2; exact Hm | exact Hm2].
        destruct min as [| min]; [| left; discriminate].
        right. intros ->. subst b. cbn [Nat.eqb andb String.length] in Hcheck.
        rewrite Nat.add_0_r, Nat.eqb_refl in Hcheck. discriminate Hcheck.
      - exact Hk.
      - intros Hg. rewrite (Hcaps2 Hg), (Hcaps1 Hg), Hg. apply forget_none. }
    destruct max as [[| n] |].
    + cbn [repeat] in H. apply Hstop; [right; reflexivity | exact H].
    + cbn [repeat] in H. destruct (Nat.eqb min 0) eqn:Hmin.
      * match type of H with
        | match ?x with _ => _ end = _ => destruct x as [r1 |] eqn:Ex
        end.
        -- inversion H; subst r1. apply (Hround true eq_refl); [discriminate |].
           exact Ex.
        -- apply Hstop; [left; apply Nat.eqb_eq; exact Hmin | exact H].
      * apply (Hround false eq_refl); [discriminate | exact H].
    + cbn [repeat] in H. destruct (Nat.eqb min 0) eqn:Hmin.
      * match type of H with
        | match ?x with _ => _ end = _ => destruct x as [r1 |] eqn:Ex
        end.
        -- inversion H; subst r1. apply (Hround true eq_refl); [discriminate |].
           exact Ex.
        -- apply Hstop; [left; apply Nat.eqb_eq; exact Hmin | exact H].
      * apply (Hround false eq_refl); [discriminate | exact H].
Qed.

(** a successful run of a pattern matched a text the pattern matches, and
    went on after it; without groups it captured nothing *)
Lemma run_sound (r : regex) :
  forall k s pos caps res,
    run r k s pos caps = Some res ->
    exists t rest caps',
      s = t ++ rest /\ matches r pos t rest
      /\ k rest (pos + String.length t) caps' = Some res
      /\ (groupsOf r = [] -> caps' = caps).
Proof.
  induction r as [| p | a IHa b IHb | a IHa b IHb | min max a IHa | i a IHa | |];
    intros k s pos caps res H; cbn [run] in H.
  - exists "", s, caps. cbn [String.length append]. rewrite Nat.add_0_r.
    repeat split; [apply matches_eps | exact H].
  - destruct s as [| x t]; [discriminate H |].
    destruct (p x) eqn:Hp; [| discriminate H].
    exists (String x ""), t, caps. cbn [String.length append].
    replace (pos + 1) with (S pos) by lia.
    repeat split; [apply matches_chr; exact Hp | exact H].
  - apply IHa in H. destruct H as [t1 [rest1 [caps1 [Hs [Hm [H Hc1]]]]]].
    apply IHb in H. destruct H as [t2 [rest2 [caps2 [Hs2 [Hm2 [H Hc2]]]]]].
    exists (t1 ++ t2), rest2, caps2.
    rewrite length_append, append_assoc, Nat.add_assoc.
    repeat split.
    + rewrite Hs, Hs2. reflexivity.
    + apply matches_seq; [rewrite <- Hs2; exact Hm | exact Hm2].
    + exact H.
    + cbn [groupsOf]. intros Hg. apply app_eq_nil in Hg. destruct Hg as [Hga Hgb].
      rewrite (Hc2 Hgb), (Hc1 Hga). reflexivity.
  - destruct (run a k s pos caps) as [r1 |] eqn:Ea.
    + inversion H; subst r1. apply IHa in Ea.
      destruct Ea as [t [rest [caps' [Hs [Hm [Hk Hc]]]]]].
      exists t, rest, caps'. repeat split; [exact Hs | apply matches_left; exact Hm | exact Hk |].
      cbn [groupsOf]. intros Hg. apply app_eq_nil in Hg. apply Hc, Hg.
    + apply IHb in H.
      destruct H as [t [rest [caps' [Hs [Hm [Hk Hc]]]]]].
      exists t, rest, caps'. repeat split; [exact Hs | apply matches_right; exact Hm | exact Hk |].
      cbn [groupsOf]. intros Hg. apply app_eq_nil in Hg. apply Hc, Hg.
  - apply (repeat_sound a IHa) in H. exact H.
  - apply IHa in H. destruct H as [t [rest [caps' [Hs [Hm [Hk Hc]]]]]].
    eexists t, rest, _.
    split; [exact Hs | split; [apply matches_group; exact Hm | split; [exact Hk |]]].
    cbn [groupsOf]. discriminate.
  - destruct (Nat.eqb pos 0) eqn:Hpos; [| discriminate H].
    apply Nat.eqb_eq in Hpos. subst pos.
    exists "", s, caps. cbn [String.length append Nat.add].
    repeat split; [apply matches_bol | exact H].
  - destruct s as [| x t]; [| discriminate H]. cbn [JS.isEmpty] in H.
    exists "", "", caps. cbn [String.length append]. rewrite Nat.add_0_r.
    repeat split; [apply matches_eol | exact H].
Qed.

(** a group around a pattern without groups captures the text matched *)
Lemma run_group (i : nat) (a : regex) (k : cont) (s : string) (pos : nat)
      (caps : captures) (res : nat * captures) :
  groupsOf a = [] ->
  run (Group i a) k s pos caps = Some res ->
  exists t rest,
    s = t ++ rest /\ matches a pos t rest
    /\ k rest (pos + String.length t) ((i, t) :: caps) = Some res.
Proof.
  intros Hg H. cbn [run] in H. apply run_sound in H.
  destruct H as [t [rest [caps' [Hs [Hm [Hk Hc]]]]]].
  exists t, rest. repeat split; [exact Hs | exact Hm |].
  rewrite (Hc Hg) in Hk. rewrite Hs in Hk.
  replace (pos + String.length t - pos) with (String.length t) in Hk by lia.
  rewrite substring_front in Hk. exact Hk.
Qed.

(** what a pattern matches the matcher finds, when what follows it
    succeeds: some match is returned *)
Lemma run_complete (r : regex) (pos : nat) (t rest : string) :
  matches r pos t rest ->
  (forall k, succeeds k rest (pos + String.length t) ->
             succeeds (run r k) (t ++ rest) pos)
  /\ (forall min max a, r = Rep min max a ->
        forall k fuel,
          succeeds k rest (pos + String.length t) ->
          min + String.length (t ++ rest) < fuel ->
          succeeds (fun s p caps =>
                      repeat (run a) (groupsOf a) k fuel min max s p caps)
                   (t ++ rest) pos).
Proof.
  intros H.
  induction H as
    [ pos rest
    | p c pos rest Hp
    | a b pos t u rest Ha [IHa _] Hb [IHb _]
    | a b pos t rest Ha [IHa _]
    | a b pos t rest Hb [IHb _]
    | i a pos t rest Ha [IHa _]
    | rest
    | pos
    | min max a pos rest Hstop
    | min max a pos t u rest Hmax Hside Ha [IHa _] Hrest [_ IHrest] ].
  - split; [| discriminate]. intros k Hk. cbn [String.length append run] in *.
    rewrite Nat.add_0_r in Hk. exact Hk.
  - split; [| discriminate]. intros k Hk caps. cbn [String.length append run] in *.
    rewrite Hp. replace (pos + 1) with (S pos) in Hk by lia. apply Hk.
  - split; [| discriminate]. intros k Hk. cbn [run]. rewrite append_assoc.
    apply IHa. apply IHb. rewrite length_append, Nat.add_assoc in Hk. exact Hk.
  - split; [| discriminate]. intros k Hk caps. cbn [run].
    destruct (run a k (t ++ rest) pos caps) eqn:E; [discriminate |].
    exfalso. exact (IHa k Hk caps E).
  - split; [| discriminate]. intros k Hk caps. cbn [run].
    destruct (run a k (t ++ rest) pos caps) eqn:E; [discriminate |].
    apply IHb. exact Hk.
  - split; [| discriminate]. intros k Hk caps. cbn [run].
    apply IHa. intros caps'. apply Hk.
  - split; [| discriminate]. intros k Hk caps. cbn [String.length append run Nat.eqb] in *.
    apply Hk.
  - split; [| discriminate]. intros k Hk caps. cbn [String.length append run JS.isEmpty] in *.
    rewrite Nat.add_0_r in Hk. apply Hk.
  - assert (Hrep : forall k fuel,
               succeeds k rest (pos + String.length "") ->
               min + String.length ("" ++ rest) < fuel ->
               succeeds (fun s p caps =>
                           repeat (run a) (groupsOf a) k fuel min max s p caps)
                        ("" ++ rest) pos).
    { intros k fuel Hk Hfuel caps. cbn [String.length append] in *.
      rewrite Nat.add_0_r in Hk.
      destruct fuel as [| fuel]; [lia |].
      destruct max as [[| n] |]; cbn [repeat]; try apply Hk;
        (destruct Hstop as [-> | Hz]; [| discriminate Hz]); cbn [Nat.eqb];
        match goal with
        | |- match ?x with _ => _ end <> None => destruct x; [discriminate | apply Hk]
        end. }
    split.
    + intros k Hk caps. cbn [run]. apply (Hrep k _ Hk). lia.
    + intros min' max' a' E. inversion E; subst min' max' a'. exact Hrep.
  - assert (Hrep : forall k fuel,
               succeeds k rest (pos + String.length (t ++ u)) ->
               min + String.length ((t ++ u) ++ rest) < fuel ->
               succeeds (fun s p caps =>
                           repeat (run a) (groupsOf a) k fuel min max s p caps)
                        ((t ++ u) ++ rest) pos).
    { intros k fuel Hk Hfuel caps.
      rewrite length_append, Nat.add_assoc in Hk.
      rewrite append_assoc in *. rewrite length_append in Hfuel.
      destruct fuel as [| fuel]; [lia |].
      assert (Hagain : succeeds
                         (fun s' pos' caps' =>
                            if Nat.eqb min 0 && Nat.eqb pos' pos then None
                            else repeat (run a) (groupsOf a) k fuel (Nat.pred min)
                                        (decMax max) s' pos' caps')
                         (u ++ rest) (pos + String.length t)).
      { intros caps'.
        assert (Hcheck : Nat.eqb min 0 && Nat.eqb (pos + String.length t) pos = false).
        { destruct Hside as [Hmin | Ht].
          - apply Nat.eqb_neq in Hmin. rewrite Hmin. reflexivity.
          - apply andb_false_iff. right. apply Nat.eqb_neq.
            destruct t; [contradiction Ht; reflexivity | cbn [String.length]; lia]. }
        rewrite Hcheck.
        apply (IHrest (Nat.pred min) (decMax max) a eq_refl k fuel Hk).
        destruct Hside as [Hmin | Ht].
        - lia.
        - destruct t; [contradiction Ht; reflexivity |]. cbn [String.length] in Hfuel. lia. }
      specialize (IHa _ Hagain (forget (groupsOf a) caps)).
      destruct max as [[| n] |]; [contradiction Hmax; reflexivity | |];
        cbn [repeat]; destruct (Nat.eqb min 0);
        try exact IHa;
        match goal with
        | |- match ?x with _ => _ end <> None =>
            destruct x; [discriminate | exfalso; apply IHa; reflexivity]
        end. }
    split.
    + intros k Hk caps. cbn [run]. apply (Hrep k _ Hk). lia.
    + intros min' max' a' E. inversion E; subst min' max' a'. exact Hrep.
Qed.

(** the first place at which a pattern is found *)
Lemma search_found (r : regex) (s : string) (pos : nat) (m : found) :
  search r s pos = Some m ->
  exists before from,
    s = before ++ from
    /\ index m = pos + String.length before
    /\ run r accept from (index m) [] = Some (lastIndex m, groups m)
    /\ matched m = substring 0 (lastIndex m - index m) from.
Proof.
  revert pos. induction s as [| x s IH]; intros pos H; cbn [search] in H.
  - destruct (run r accept "" pos []) as [[e caps] |] eqn:E; [| discriminate H].
    inversion H; subst m. exists "", "". cbn [index lastIndex groups matched String.length].
    rewrite Nat.add_0_r. repeat split. exact E.
  - destruct (run r accept (String x s) pos []) as [[e caps] |] eqn:E.
    + inversion H; subst m. exists "", (String x s).
      cbn [index lastIndex groups matched String.length].
      rewrite Nat.add_0_r. repeat split. exact E.
    + apply IH in H. destruct H as [before [from [Hs [Hi [Hrun Hm]]]]].
      exists (String x before), from. cbn [String.length append].
      repeat split; [rewrite Hs; reflexivity | lia | exact Hrun | exact Hm].
Qed.

Lemma search_none (r : regex) (s : string) (pos : nat) :
  search r s pos = None ->
  forall before from,
    s = before ++ from -> run r accept from (pos + String.length before) [] = None.
Proof.
  revert pos. induction s as [| x s IH]; intros pos H before from Hs; cbn [search] in H.
  - destruct before; [| discriminate Hs]. cbn [append] in Hs. subst from.
    cbn [String.length]. rewrite Nat.add_0_r.
    destruct (run r accept "" pos []) as [[e caps] |]; [discriminate H | reflexivity].
  - destruct (run r accept (String x s) pos []) as [[e caps] |] eqn:E; [discriminate H |].
    destruct before as [| y before].
    + cbn [append] in Hs. subst from. cbn [String.length]. rewrite Nat.add_0_r. exact E.
    + cbn [append] in Hs. inversion Hs; subst.
      cbn [String.length]. replace (pos + S (String.length before))
        with (S pos + String.length before) by lia.
      apply (IH (S pos) H before from eq_refl).
Qed.

(** [r.test(s)] holds when the pattern matches somewhere in [s] *)
Lemma test_matches (r : regex) (s : string) :
  test r s = true <->
  exists before t rest,
    s = before ++ t ++ rest /\ matches r (String.length before) t rest.
Proof.
  unfold test, exec. cbn [Nat.ltb Nat.leb]. rewrite sliceFrom_all. split.
  - destruct (search r s 0) as [m |] eqn:E; [| discriminate]. intros _.
    apply search_found in E. destruct E as [before [from [Hs [Hi [Hrun _]]]]].
    apply run_sound in Hrun. destruct Hrun as [t [rest [caps' [Hf [Hm _]]]]].
    exists before, t, rest. rewrite Hi in Hm. cbn [Nat.add] in Hm.
    split; [rewrite Hs, Hf; reflexivity | exact Hm].
  - intros [before [t [rest [Hs Hm]]]].
    destruct (search r s 0) as [m |] eqn:E; [reflexivity |].
    exfalso. apply (search_none r s 0 E before (t ++ rest)) in Hs.
    cbn [Nat.add] in Hs. revert Hs.
    apply (proj1 (run_complete r _ t rest Hm) accept). intros caps. discriminate.
Qed.

(** a pattern that begins with [^] is tried at the beginning only *)
Lemma test_anchored_matches (r : regex) (s : string) :
  test (Seq Bol r) s = true <->
  exists t rest, s = t ++ rest /\ matches r 0 t rest.
Proof.
  rewrite test_matches. split.
  - intros [before [t [rest [Hs Hm]]]].
    inversion Hm as [| | a b pos t1 u rest' Ha Hb | | | | | | |]; subst.
    inversion Ha; subst. destruct before; [| discriminate].
    cbn [String.length append Nat.add] in *. exists u, rest. split; [reflexivity | exact Hb].
  - intros [t [rest [Hs Hm]]]. exists "", t, rest. split; [exact Hs |].
    change t with ("" ++ t). apply matches_seq; [apply matches_bol | exact Hm].
Qed.

End MatcherFacts.

(** ** What the patterns of the receivers match *)

Section PatternFacts.

Import Regex.

Ltac unseq :=
  repeat match goal with
         | H : matches (Seq _ _) _ _ _ |- _ => inversion H; clear H; subst
         | H : matches Eol _ _ _ |- _ => inversion H; clear H; subst
         | H : matches Bol _ _ _ |- _ => inversion H; clear H; subst
         | H : matches (Chr _) _ _ _ |- _ => inversion H; clear H; subst
         | H : matches (Group _ _) _ _ _ |- _ => inversion H; clear H; subst
         | H : matches Eps _ _ _ |- _ => inversion H; clear H; subst
         end.

(** a quantifier over a character class *)
Lemma matches_class (p : ascii -> bool) (min : nat) (max : option nat)
      (pos : nat) (t rest : string) :
  within max min ->
  matches (Rep min max (Chr p)) pos t rest <->
  every p t = true /\ min <= String.length t /\ within max (String.length t).
Proof.
  intros Hwf. split.
  - intros H. remember (Rep min max (Chr p)) as r eqn:Er.
    revert min max Hwf Er.
    induction H as [| | | | | | | | min' max' a pos rest Hstop
                   | min' max' a pos t u rest Hmax Hside Ha _ Hrest IH];
      intros min max Hwf Er; try discriminate Er.
    + inversion Er; subst min' max' a. cbn [every String.length].
      destruct Hstop as [-> | ->]; cbn [within] in *.
      * repeat split; [lia | destruct max; cbn; [lia | exact I]].
      * repeat split; lia.
    + inversion Er; subst min' max' a.
      inversion Ha as [| q c pos' rest' Hc | | | | | | | |]; subst.
      destruct (IH (Nat.pred min) (decMax max)) as [He [Hmin Hm]].
      * destruct max as [m |]; cbn [decMax within] in *; [lia | exact I].
      * reflexivity.
      * cbn [append every String.length]. rewrite Hc, He.
        repeat split; [lia |].
        destruct max as [m |]; cbn [decMax within] in *; [| exact I].
        destruct m; [contradiction Hmax; reflexivity | cbn in Hm; lia].
  - revert min max pos Hwf.
    induction t as [| c t IH]; intros min max pos Hwf [He [Hmin Hmax]].
    + apply matches_stop. left. cbn in Hmin. lia.
    + cbn [every] in He. apply andb_true_iff in He. destruct He as [Hc He].
      change (String c t) with (String c "" ++ t).
      cbn [String.length] in Hmin, Hmax.
      apply matches_round.
      * intros ->. cbn in Hmax. lia.
      * right. discriminate.
      * apply matches_chr. exact Hc.
      * apply IH.
        -- destruct max as [m |]; cbn [decMax within] in *; [lia | exact I].
        -- repeat split; [exact He | lia |].
           destruct max as [m |]; cbn [decMax within] in *; [lia | exact I].
Qed.

(** an optional part *)
Lemma matches_opt (a : regex) (pos : nat) (t rest : string) :
  matches (opt a) pos t rest <->
  t = "" \/ (t <> "" /\ matches a pos t rest).
Proof.
  unfold opt. split.
  - intros H. inversion H as [| | | | | | | | min max a' pos' rest' Hstop
                             | min max a' pos' t1 u rest' Hmax Hside Ha Hrest]; subst.
    + left. reflexivity.
    + cbn [Nat.pred decMax] in Hrest.
      inversion Hrest as [| | | | | | | | min max a' pos' rest' Hstop
                         | min max a' pos' t2 u2 rest' Hmax2 Hside2 Ha2 Hrest2]; subst.
      * rewrite append_empty. cbn [append] in Ha.
        destruct Hside as [Hside | Hside]; [contradiction Hside; reflexivity |].
        right. split; [exact Hside | exact Ha].
      * contradiction Hmax2. reflexivity.
  - intros [-> | [Hne Ha]].
    + apply matches_stop. left. reflexivity.
    + rewrite <- (append_empty t). apply matches_round.
      * discriminate.
      * right. exact Hne.
      * exact Ha.
      * apply matches_stop. right. reflexivity.
Qed.

(** the rounds of a quantifier *)
Lemma matches_rounds (a : regex) (min : nat) (max : option nat)
      (pos : nat) (t rest : string) :
  within max min ->
  matches (Rep min max a) pos t rest ->
  exists pieces,
    t = joined pieces
    /\ min <= List.length pieces /\ within max (List.length pieces)
    /\ Forall (fun piece => exists pos' rest', matches a pos' piece rest') pieces.
Proof.
  intros Hwf H. remember (Rep min max a) as r eqn:Er.
  revert min max Hwf Er.
  induction H as [| | | | | | | | min' max' a' pos rest Hstop
                 | min' max' a' pos t u rest Hmax Hside Ha _ Hrest IH];
    intros min max Hwf Er; try discriminate Er.
  - inversion Er; subst min' max' a'. exists []. cbn [joined fold_right List.length].
    destruct Hstop as [-> | ->]; cbn [within] in *.
    + repeat split; [lia | destruct max; cbn; [lia | exact I] | apply Forall_nil].
    + repeat split; [lia | lia | apply Forall_nil].
  - inversion Er; subst min' max' a'.
    destruct (IH (Nat.pred min) (decMax max)) as [pieces [Hu [Hmin [Hm Hall]]]].
    + destruct max as [m |]; cbn [decMax within] in *; [lia | exact I].
    + reflexivity.
    + exists (t :: pieces). cbn [joined fold_right List.length].
      repeat split.
      * rewrite Hu. reflexivity.
      * lia.
      * destruct max as [m |]; cbn [decMax within] in *; [| exact I].
        destruct m; [contradiction Hmax; reflexivity | cbn in Hm; lia].
      * apply Forall_cons; [| exact Hall]. eexists _, _. exact Ha.
Qed.

Lemma rounds_match (a : regex) (pieces : list string) :
  Forall (fun piece => piece <> "" /\ forall pos rest, matches a pos piece rest)
         pieces ->
  forall min max pos rest,
    min <= List.length pieces -> within max (List.length pieces) ->
    matches (Rep min max a) pos (joined pieces) rest.
Proof.
  induction 1 as [| piece pieces [Hne Hp] _ IH]; intros min max pos rest Hmin Hmax.
  - apply matches_stop. left. cbn in Hmin. lia.
  - cbn [joined fold_right List.length] in *. apply matches_round.
    + intros ->. cbn in Hmax. lia.
    + right. exact Hne.
    + apply Hp.
    + apply IH; [lia |].
      destruct max as [m |]; cbn [decMax within] in *; [lia | exact I].
Qed.

End PatternFacts.

(** ** The receivers the validators accept *)

Section ReceiverShapes.

Import Regex Receiver.

Ltac unseq :=
  repeat match goal with
         | H : matches (Seq _ _) _ _ _ |- _ => inversion H; clear H; subst
         | H : matches Eol _ _ _ |- _ => inversion H; clear H; subst
         | H : matches Bol _ _ _ |- _ => inversion H; clear H; subst
         | H : matches (Chr _) _ _ _ |- _ => inversion H; clear H; subst
         | H : matches (Group _ _) _ _ _ |- _ => inversion H; clear H; subst
         | H : matches Eps _ _ _ |- _ => inversion H; clear H; subst
         end.

Lemma final_append (s : string) (c : ascii) : final (s ++ String c "") = Some c.
Proof.
  induction s as [| x s IH]; [reflexivity |].
  cbn [append final]. rewrite IH. destruct s; reflexivity.
Qed.

Lemma final_cons (c : ascii) (s : string) :
  s <> "" -> final (String c s) = final s.
Proof. destruct s; [congruence | reflexivity]. Qed.

Lemma startsWith_prefix (s p : string) :
  JS.startsWith s p = true <-> exists after, s = p ++ after.
Proof.
  revert s. induction p as [| a p IH]; intros s; cbn [JS.startsWith append].
  - split; [intros _; exists s; reflexivity | reflexivity].
  - destruct s as [| b s].
    + split; [discriminate | intros [after E]; discriminate E].
    + rewrite andb_true_iff, Ascii.eqb_eq, IH. split.
      * intros [-> [after ->]]. exists after. reflexivity.
      * intros [after E]. inversion E; subst. split; [reflexivity |].
        exists after. reflexivity.
Qed.

Lemma includes_contains (s p : string) :
  JS.includes s p = true <-> contains s p.
Proof.
  unfold contains. induction s as [| c s IH]; cbn [JS.includes].
  - rewrite orb_false_r, startsWith_prefix. split.
    + intros [after E]. exists "", after. exact E.
    + intros [before [after E]]. destruct before; [| discriminate E].
      exists after. exact E.
  - rewrite orb_true_iff, startsWith_prefix, IH. split.
    + intros [[after E] | [before [after E]]].
      * exists "", after. exact E.
      * exists (String c before), after. rewrite E. reflexivity.
    + intros [before [after E]]. destruct before as [| x before].
      * left. exists after. exact E.
      * right. inversion E; subst. exists before, after. reflexivity.
Qed.

(** a literal string matches itself *)
Lemma matches_str (p pos : _) (t rest : string) :
  p <> "" -> (matches (str p) pos t rest <-> t = p).
Proof.
  unfold str. revert pos t. induction p as [| c p IH]; intros pos t Hne;
    [contradiction Hne; reflexivity |].
  destruct p as [| d p].
  - cbn [word seq]. unfold lit, JS.isChar. split.
    + intros H. unseq.
      match goal with H : Ascii.eqb _ _ = true |- _ => apply Ascii.eqb_eq in H; subst end.
      reflexivity.
    + intros ->. apply matches_chr. apply Ascii.eqb_refl.
  - change (seq (word lit (String c (String d p))))
      with (Seq (lit c) (seq (word lit (String d p)))).
    split.
    + intros H. inversion H as [| | a b pos' t1 u rest' Ha Hb | | | | | | |]; subst.
      apply IH in Hb; [| discriminate]. subst u.
      unfold lit, JS.isChar in Ha.
      inversion Ha as [| q x pos0 rest0 Hx | | | | | | | |]; subst.
      apply Ascii.eqb_eq in Hx. subst x. reflexivity.
    + intros ->. change (String c (String d p)) with (String c "" ++ String d p).
      apply matches_seq.
      * apply matches_chr. apply Ascii.eqb_refl.
      * apply IH; [discriminate | reflexivity].
Qed.

(** [r.test(s)] for a literal pattern is [s.includes] *)
Lemma test_str (p s : string) :
  p <> "" -> (test (str p) s = true <-> contains s p).
Proof.
  intros Hne. rewrite test_matches. unfold contains. split.
  - intros [before [t [rest [Hs Hm]]]]. apply matches_str in Hm; [| exact Hne].
    subst t. exists before, rest. exact Hs.
  - intros [before [after Hs]]. exists before, p, after. split; [exact Hs |].
    apply matches_str; [exact Hne | reflexivity].
Qed.

(** the two parts of a label: a letter or digit, and optionally more
    letters, digits and hyphens up to a last letter or digit *)
Lemma label_parts (i n : nat) (t1 t2 : string) (pos1 pos2 : nat) (rest1 rest2 : string) :
  matches (Chr JS.isAlnum) pos1 t1 rest1 ->
  matches (opt (Group i (Seq (Rep 0 (Some n) (Chr isLabel)) (Chr JS.isAlnum))))
          pos2 t2 rest2 ->
  hostLabel (n + 2) (t1 ++ t2).
Proof.
  intros H1 H2. unseq. apply matches_opt in H2.
  assert (Hlabel : forall x, JS.isAlnum x = true -> isLabel x = true).
  { intros x Hx. unfold isLabel. rewrite Hx. reflexivity. }
  destruct H2 as [-> | [Hne Hm]].
  - cbn [append]. unfold hostLabel. cbn [String.length every first final].
    rewrite (Hlabel c) by assumption.
    repeat split; [lia | lia | exists c; auto | exists c; auto].
  - unseq.
    match goal with
    | H : matches (Rep _ _ _) _ _ _ |- _ =>
        apply matches_class in H; [destruct H as [He [_ Hmax]] | cbn; lia]
    end.
    cbn [within] in Hmax. cbn [append]. unfold hostLabel.
    cbn [String.length first every]. rewrite length_append. cbn [String.length].
    rewrite every_append. cbn [every].
    rewrite He, (Hlabel c), (Hlabel c0) by assumption.
    rewrite final_cons by (destruct t; discriminate).
    rewrite final_append.
    repeat split; [lia | lia | exists c; auto | exists c0; auto].
Qed.

Lemma label_split (i n : nat) (s : string) :
  hostLabel (n + 2) s ->
  exists c w,
    s = String c w /\ JS.isAlnum c = true
    /\ forall pos rest,
        matches (opt (Group i (Seq (Rep 0 (Some n) (Chr isLabel)) (Chr JS.isAlnum))))
                pos w rest.
Proof.
  intros [[Hmin Hmax] [He [[c [Hc Hca]] [z [Hz Hza]]]]].
  destruct s as [| c' w]; [discriminate Hc |]. cbn [first] in Hc. inversion Hc; subst c'.
  exists c, w. repeat split; [exact Hca |]. intros pos rest.
  apply matches_opt. destruct w as [| d w]; [left; reflexivity |].
  right. split; [discriminate |].
  destruct (last_character (String d w) ltac:(discriminate)) as [mid [y E]].
  rewrite E in *. rewrite final_cons in Hz by (destruct mid; discriminate).
  rewrite final_append in Hz. inversion Hz; subst y.
  cbn [every] in He. apply andb_true_iff in He. destruct He as [_ He].
  rewrite every_append in He. apply andb_true_iff in He. destruct He as [He _].
  cbn [String.length] in Hmax. rewrite length_append in Hmax. cbn [String.length] in Hmax.
  apply matches_group. apply matches_seq.
  - apply matches_class; [cbn; lia |]. repeat split; [exact He | lia | cbn; lia].
  - apply matches_chr. exact Hza.
Qed.

Lemma test_xUsername (username : string) :
  test xUsername username = true <->
  1 <= String.length username <= 15 /\ every JS.isWord username = true.
Proof.
  unfold xUsername. cbn [seq]. rewrite test_anchored_matches. split.
  - intros [t [rest [Hs Hm]]]. unseq.
    match goal with
    | H : matches (Rep _ _ _) _ _ _ |- _ =>
        apply matches_class in H; [destruct H as [He [Hmin Hmax]] | cbn; lia]
    end.
    cbn [within] in Hmax. rewrite !append_empty. auto.
  - intros [[Hmin Hmax] He]. exists username, "". split; [symmetry; apply append_empty |].
    rewrite <- (append_empty username). apply matches_seq; [| apply matches_eol].
    apply matches_class; [cbn; lia |]. cbn [within]. auto.
Qed.

Lemma test_farcasterUsername (username : string) :
  test farcasterUsername username = true <->
  exists c more,
    username = String c more /\ JS.isAlnum c = true
    /\ String.length more <= 15 /\ every isHandle more = true.
Proof.
  unfold farcasterUsername. cbn [seq]. rewrite test_anchored_matches. split.
  - intros [t [rest [Hs Hm]]]. unseq.
    match goal with
    | H : matches (Rep _ _ _) _ _ _ |- _ =>
        apply matches_class in H; [destruct H as [He [Hmin Hmax]] | cbn; lia]
    end.
    cbn [within] in Hmax. rewrite !append_empty. cbn [append].
    eexists _, _. repeat split; eassumption.
  - intros [c [more [-> [Hc [Hmax He]]]]]. exists (String c more), "".
    split; [symmetry; apply append_empty |].
    change (String c more) with (String c "" ++ more).
    apply matches_seq; [apply matches_chr; exact Hc |].
    rewrite <- (append_empty more). apply matches_seq; [| apply matches_eol].
    apply matches_class; [cbn; lia |]. cbn [within]. repeat split; [exact He | lia | lia].
Qed.

Lemma test_gitHubUsername (username : string) :
  test gitHubUsername username = true <-> hostLabel 39 username.
Proof.
  unfold gitHubUsername. cbn [seq]. rewrite test_anchored_matches. split.
  - intros [t [rest [Hs Hm]]].
    inversion Hm as [| | a b pos t1 u rest' Ha Hb | | | | | | |]; subst.
    inversion Hb as [| | a b pos t2 u2 rest' Ho He | | | | | | |]; subst.
    inversion He; subst. rewrite !append_empty.
    exact (label_parts 1 37 _ _ _ _ _ _ Ha Ho).
  - intros H. destruct (label_split 1 37 username H) as [c [w [-> [Hc Hw]]]].
    exists (String c w), "". split; [symmetry; apply append_empty |].
    change (String c w) with (String c "" ++ w).
    apply matches_seq; [apply matches_chr; exact Hc |].
    rewrite <- (append_empty w). apply matches_seq; [apply Hw | apply matches_eol].
Qed.

Lemma test_emailRegex (email : string) :
  test emailRegex email = true <->
  exists name host tld,
    email = name ++ "@" ++ host ++ "." ++ tld
    /\ 1 <= String.length name /\ every isLocal name = true
    /\ 1 <= String.length host /\ every isHost host = true
    /\ 2 <= String.length tld /\ every JS.isAlpha tld = true.
Proof.
  unfold emailRegex, plus, lit, JS.isChar. cbn [seq]. rewrite test_anchored_matches. split.
  - intros [t [rest [Hs Hm]]]. unseq.
    repeat match goal with
           | H : matches (Rep _ _ _) _ _ _ |- _ =>
               apply matches_class in H; [destruct H as [? [? ?]] | cbn; lia]
           | H : Ascii.eqb _ _ = true |- _ => apply Ascii.eqb_eq in H; subst
           end.
    rewrite !append_empty. eexists _, _, _.
    split; [reflexivity |]. repeat split; assumption.
  - intros [name [host [tld [-> [Hn [Hne [Hh [Hhe [Ht Hte]]]]]]]]].
    eexists _, "". split; [symmetry; apply append_empty |].
    apply matches_seq; [apply matches_class; cbn; auto |].
    apply (matches_seq _ _ _ "@"); [apply matches_chr; reflexivity |].
    apply matches_seq; [apply matches_class; cbn; auto |].
    apply (matches_seq _ _ _ "."); [apply matches_chr; reflexivity |].
    rewrite <- (append_empty tld).
    apply matches_seq; [apply matches_class; cbn; auto | apply matches_eol].
Qed.

Lemma test_domainRegex (domain : string) :
  test domainRegex domain = true <->
  exists labels tld,
    domain = dotted labels ++ tld
    /\ labels <> [] /\ Forall (hostLabel 63) labels
    /\ 2 <= String.length tld /\ every JS.isAlpha tld = true.
Proof.
  unfold domainRegex, plus. cbn [seq]. rewrite test_anchored_matches. split.
  - intros [t [rest [Hs Hm]]].
    inversion Hm as [| | a b pos t1 u rest' Hl Hb | | | | | | |]; subst.
    inversion Hb as [| | a b pos t2 u2 rest' Ht He | | | | | | |]; subst.
    inversion He; subst. rewrite !append_empty.
    apply matches_class in Ht; [destruct Ht as [Hte [Htmin _]] | exact I].
    apply matches_rounds in Hl; [| exact I].
    destruct Hl as [pieces [-> [Hmin [_ Hall]]]].
    assert (Hlabels : exists labels,
               pieces = map (fun label => label ++ ".") labels
               /\ Forall (hostLabel 63) labels).
    { clear - Hall. induction Hall as [| piece pieces Hpiece _ IH].
      - exists []. split; [reflexivity | apply Forall_nil].
      - destruct Hpiece as [pos' [rest' Hp]]. destruct IH as [labels [E Hl]].
        inversion Hp as [| | | | | i a pos0 t0 rest0 Hbody | | | |]; subst.
        inversion Hbody as [| | a b pos0 l1 u rest0 Ha Htail | | | | | | |]; subst.
        inversion Htail as [| | a b pos0 l2 u2 rest0 Ho Hd | | | | | | |]; subst.
        unfold lit, JS.isChar in Hd.
        inversion Hd as [| q c pos0 rest0 Hc | | | | | | | |]; subst.
        apply Ascii.eqb_eq in Hc. subst c.
        exists ((l1 ++ l2) :: labels). split.
        + cbn [map]. rewrite append_assoc. reflexivity.
        + apply Forall_cons; [| exact Hl].
          exact (label_parts 2 61 _ _ _ _ _ _ Ha Ho). }
    destruct Hlabels as [labels [-> Hl]].
    exists labels, t2. repeat split; [| exact Hl | exact Htmin | exact Hte].
    intros ->. cbn in Hmin. lia.
  - intros [labels [tld [-> [Hne [Hl [Hmin He]]]]]].
    eexists _, "". split; [symmetry; apply append_empty |].
    apply matches_seq.
    + apply rounds_match.
      * apply Forall_forall. intros piece Hin. apply in_map_iff in Hin.
        destruct Hin as [label [<- Hin]].
        rewrite Forall_forall in Hl. specialize (Hl label Hin).
        destruct (label_split 2 61 label Hl) as [c [w [-> [Hc Hw]]]].
        split; [discriminate |]. intros pos rest. apply matches_group.
        change (String c w ++ ".") with (String c "" ++ w ++ ".").
        apply matches_seq; [apply matches_chr; exact Hc |].
        apply matches_seq; [apply Hw | apply matches_chr; reflexivity].
      * rewrite length_map. destruct labels; [contradiction Hne; reflexivity | cbn; lia].
      * exact I.
    + rewrite <- (append_empty tld).
      apply matches_seq; [apply matches_class; cbn; auto | apply matches_eol].
Qed.

End ReceiverShapes.

(** ** The templates of the payment agent *)

Section TemplateFacts.

Import Regex.

Lemma toLowerCase_append (a b : string) :
  JS.toLowerCase (a ++ b) = JS.toLowerCase a ++ JS.toLowerCase b.
Proof. induction a as [| c a IH]; cbn; [| rewrite IH]; reflexivity. Qed.

Lemma contains_here (s p after : string) : s = p -> contains (s ++ after) p.
Proof. intros ->. exists "", after. reflexivity. Qed.

Lemma contains_later (before s p : string) :
  contains s p -> contains (before ++ s) p.
Proof.
  intros [a [b ->]]. exists (before ++ a), b. rewrite append_assoc. reflexivity.
Qed.

(** a literal under the [i] flag matches the literal up to case *)
Lemma matches_stri (p : string) (pos : nat) (t rest : string) :
  p <> "" -> matches (stri p) pos t rest ->
  JS.toLowerCase t = JS.toLowerCase p.
Proof.
  unfold stri. revert pos t. induction p as [| c p IH]; intros pos t Hne H;
    [contradiction Hne; reflexivity |].
  destruct p as [| d p].
  - cbn [word seq] in H. unfold liti in H.
    inversion H as [| q x pos0 rest0 Hx | | | | | | | |]; subst.
    apply Ascii.eqb_eq in Hx. cbn. rewrite Hx. reflexivity.
  - change (seq (word liti (String c (String d p))))
      with (Seq (liti c) (seq (word liti (String d p)))) in H.
    inversion H as [| | a b pos' t1 u rest' Ha Hb | | | | | | |]; subst.
    apply IH in Hb; [| discriminate].
    unfold liti in Ha.
    inversion Ha as [| q x pos0 rest0 Hx | | | | | | | |]; subst.
    apply Ascii.eqb_eq in Hx. cbn [append JS.toLowerCase]. rewrite Hx, Hb.
    reflexivity.
Qed.

Lemma sliceFrom_suffix (s : string) (from : nat) :
  from <= String.length s ->
  exists before,
    s = before ++ JS.sliceFrom s (Z.of_nat from) /\ String.length before = from.
Proof.
  intros Hle. unfold JS.sliceFrom, JS.slice, JS.sliceIndex.
  replace (Z.of_nat from <? 0)%Z with false by (symmetry; apply Z.ltb_ge; lia).
  replace (Z.of_nat (String.length s) <? 0)%Z with false
    by (symmetry; apply Z.ltb_ge; lia).
  rewrite Z.min_l by lia. rewrite Z.min_id. rewrite Nat2Z.id.
  replace (Z.to_nat (Z.of_nat (String.length s) - Z.of_nat from))
    with (String.length s - from) by lia.
  revert from Hle. induction s as [| c s IH]; intros from Hle.
  - destruct from; [| cbn in Hle; lia]. exists "". split; reflexivity.
  - destruct from as [| from].
    + exists "". rewrite Nat.sub_0_r, substring_all. split; reflexivity.
    + cbn [String.length] in Hle. destruct (IH from ltac:(lia)) as [before [E Hl]].
      exists (String c before). cbn [append String.length Nat.sub substring].
      split; [rewrite <- E; reflexivity | rewrite Hl; reflexivity].
Qed.

(** a match [exec] returns is a run of the pattern on what is left of the
    input at the index of the match *)
Lemma exec_found (r : regex) (s : string) (from : nat) (m : found) :
  exec r s from = Some m ->
  exists before after,
    s = before ++ after
    /\ run r accept after (index m) [] = Some (lastIndex m, groups m).
Proof.
  unfold exec. destruct (Nat.ltb (String.length s) from) eqn:E; [discriminate |].
  apply Nat.ltb_ge in E. intros H. apply search_found in H.
  destruct H as [mid [after [Hs [_ [Hrun _]]]]].
  destruct (sliceFrom_suffix s from E) as [before [Hb _]].
  exists (before ++ mid), after. split; [| exact Hrun].
  rewrite append_assoc, <- Hs. exact Hb.
Qed.

Lemma execAll_found (r : regex) (s : string) (fuel from : nat) (ms : list found) :
  Agent.execAll fuel r s from = Some ms ->
  Forall (fun m => exists from', exec r s from' = Some m) ms.
Proof.
  revert from ms. induction fuel as [| fuel IH]; intros from ms H;
    cbn [Agent.execAll] in H; [discriminate H |].
  destruct (exec r s from) as [m |] eqn:E.
  - destruct (Agent.execAll fuel r s (lastIndex m)) as [rest |] eqn:Er;
      [| discriminate H].
    inversion H; subst ms. apply Forall_cons; [exists from; exact E |].
    exact (IH _ _ Er).
  - inversion H. apply Forall_nil.
Qed.

(** a number that begins with a digit *)
Lemma parseFloat_leading_digit (c : ascii) (r : string) :
  JS.isDigit c = true ->
  exists q, JS.parseFloat (String c r) = JS.Fin q /\ (0 <= q)%Q.
Proof.
  intros Hc. unfold JS.parseFloat.
  rewrite (trimStart_kept c r (digit_not_space c Hc)).
  rewrite (digit_not_sign c r Hc).
  rewrite (not_Infinity c r (digit_not_I c Hc)).
  destruct (JS.unsignedDecimal (String c r)) as [q |] eqn:Eu.
  - exists (Qred q). split; [reflexivity |].
    change (0 <= Qred q)%Q. rewrite Qred_correct.
    exact (unsignedDecimal_nonneg _ _ Eu).
  - exfalso. unfold JS.unsignedDecimal in Eu. cbn [JS.spanDigits] in Eu.
    rewrite Hc in Eu. destruct (JS.spanDigits r) as [d t].
    destruct t as [| x t]; [discriminate Eu |].
    destruct x as [[] [] [] [] [] [] [] []]; try discriminate Eu.
    destruct (JS.spanDigits t) as [fp r3]. discriminate Eu.
Qed.

(** the text of an amount, [\d+\.?\d*], begins with a digit *)
Lemma quantity_digit (pos : nat) (t rest : string) :
  matches (Seq (plus Agent.digit) (Seq (opt (lit ".")) (star Agent.digit)))
          pos t rest ->
  exists c r, t = String c r /\ JS.isDigit c = true.
Proof.
  unfold plus, Agent.digit. intros H.
  inversion H as [| | a b pos' t1 u rest' Ha Hb | | | | | | |]; subst.
  apply matches_class in Ha; [| exact I]. destruct Ha as [He [Hmin _]].
  destruct t1 as [| c r]; [cbn in Hmin; lia |].
  cbn [every] in He. apply andb_true_iff in He.
  exists c, (r ++ u). split; [reflexivity | apply He].
Qed.

(** the text of a platform, one of the five names up to case *)
Lemma network_name (pos : nat) (t rest : string) :
  matches (alt [stri "x"; stri "farcaster"; stri "web"; stri "email";
                stri "github"]) pos t rest ->
  In (JS.toLowerCase t) Receiver.allowedIdentities.
Proof.
  cbn [alt]. intros H.
  repeat match goal with
         | H : matches (Alt _ _) _ _ _ |- _ => inversion H; clear H; subst
         end;
    match goal with
    | H : matches (stri _) _ _ _ |- _ =>
        apply matches_stri in H; [rewrite H | discriminate]
    end;
    cbn; tauto.
Qed.

Ltac walk H :=
  lazymatch type of H with
  | run (Seq (Seq ?a ?b) ?c) ?k ?s ?pos ?caps = Some ?res =>
      change (run (Seq a (Seq b c)) k s pos caps = Some res) in H
  | run (Seq (Group ?i ?a) ?b) ?k ?s ?pos ?caps = Some ?res =>
      change (run (Group i a) (run b k) s pos caps = Some res) in H;
      apply run_group in H; [| reflexivity];
      let t := fresh "t" in
      let rest := fresh "rest" in
      let Hs := fresh "Hs" in
      let Hm := fresh "Hm" in
      destruct H as [t [rest [Hs [Hm H]]]]
  | run (Seq ?a ?b) ?k ?s ?pos ?caps = Some ?res =>
      change (run a (run b k) s pos caps = Some res) in H;
      apply run_sound in H;
      let t := fresh "t" in
      let rest := fresh "rest" in
      let caps' := fresh "caps" in
      let Hs := fresh "Hs" in
      let Hm := fresh "Hm" in
      let Hc := fresh "Hc" in
      destruct H as [t [rest [caps' [Hs [Hm [H Hc]]]]]];
      rewrite (Hc eq_refl) in H; clear Hc caps'
  | run (Group ?i ?a) ?k ?s ?pos ?caps = Some ?res =>
      apply run_group in H; [| reflexivity];
      let t := fresh "t" in
      let rest := fresh "rest" in
      let Hs := fresh "Hs" in
      let Hm := fresh "Hm" in
      destruct H as [t [rest [Hs [Hm H]]]]
  | run ?a ?k ?s ?pos ?caps = Some ?res =>
      apply run_sound in H;
      let t := fresh "t" in
      let rest := fresh "rest" in
      let caps' := fresh "caps" in
      let Hs := fresh "Hs" in
      let Hm := fresh "Hm" in
      let Hc := fresh "Hc" in
      destruct H as [t [rest [caps' [Hs [Hm [H Hc]]]]]];
      rewrite (Hc eq_refl) in H; clear Hc caps'
  end.

Ltac shapes :=
  repeat match goal with
         | H : matches (Seq (plus Agent.digit) _) _ _ _ |- _ =>
             apply quantity_digit in H; destruct H as [? [? [? ?]]]
         | H : matches (alt _) _ _ _ |- _ => apply network_name in H
         | H : matches (plus (Chr JS.isWord)) _ _ _ |- _ =>
             apply matches_class in H; [destruct H as [? [? _]] | exact I]
         | H : matches (stri "usdc") _ _ _ |- _ =>
             apply matches_stri in H; [| discriminate]
         end.

Ltac located :=
  repeat rewrite toLowerCase_append;
  repeat first [ apply contains_here; assumption | apply contains_later ].

(** what a match of one of the three templates yields *)
Lemma template_instruction (source : string) (pattern : regex) (m : found)
      (s : string) :
  In (source, pattern) Agent.patterns ->
  run pattern accept s (index m) [] = Some (lastIndex m, groups m) ->
  wellFormedInstruction (Agent.instructionOf source m)
  /\ contains (JS.toLowerCase s) "usdc".
Proof.
  unfold Agent.patterns. intros Hin H.
  destruct m as [i e text caps]. cbn [index lastIndex groups] in H.
  unfold Agent.instructionOf, Agent.group. cbn [groups].
  destruct Hin as [E | [E | [E | []]]]; inversion E; subst source pattern; clear E;
    cbn [seq] in H; unfold Agent.quantity, Agent.handle, Agent.network in H;
    cbn [seq] in H;
    repeat walk H;
    unfold accept in H; inversion H; subst; clear H;
    shapes; subst;
    match goal with
    | |- context [JS.includes ?src "send"] =>
        let b := eval vm_compute in (JS.includes src "send") in
        change (JS.includes src "send") with b
    end;
    try match goal with
        | |- context [JS.includes ?src "pay"] =>
            let b := eval vm_compute in (JS.includes src "pay") in
            change (JS.includes src "pay") with b
        end;
    cbn [capture Nat.eqb];
    (split; [| located]);
    unfold wellFormedInstruction;
    cbn [Agent.platform Agent.receiver Agent.amount];
    (split; [assumption | split; [assumption | split; [assumption |]]]);
    apply parseFloat_leading_digit; assumption.
Qed.

End TemplateFacts.

(** ** Receivers, by platform *)

(** X1: X usernames: [validateXUsername] accepts exactly the strings of 1 to
    15 letters, digits and underscores, and rejects every other string
    with the error that names it. *)
Theorem validateXUsername_accepts (username : string) :
  (Receiver.validateXUsername username = Ok tt <->
   1 <= String.length username <= 15 /\ every JS.isWord username = true)
  /\ (Receiver.validateXUsername username = Ok tt
      \/ Receiver.validateXUsername username = Err (InvalidXUsername username)).
Proof.
  unfold Receiver.validateXUsername.
  pose proof (test_xUsername username) as H.
  destruct (Regex.test Receiver.xUsername username); cbn [negb].
  - split; [| left; reflexivity]. split; [intros _; apply H; reflexivity | reflexivity].
  - split; [| right; reflexivity]. split; [discriminate |].
    intros Hu. apply H in Hu. discriminate Hu.
Qed.

(** X2: Farcaster usernames: [validateFarcasterUsername] accepts exactly the
    strings that begin with a letter or a digit and go on with at most 15
    letters, digits, underscores and hyphens. *)
Theorem validateFarcasterUsername_accepts (username : string) :
  (Receiver.validateFarcasterUsername username = Ok tt <->
   exists c more,
     username = String c more /\ JS.isAlnum c = true
     /\ String.length more <= 15 /\ every Receiver.isHandle more = true)
  /\ (Receiver.validateFarcasterUsername username = Ok tt
      \/ Receiver.validateFarcasterUsername username
         = Err (InvalidFarcasterUsername username)).
Proof.
  unfold Receiver.validateFarcasterUsername.
  pose proof (test_farcasterUsername username) as H.
  destruct (Regex.test Receiver.farcasterUsername username); cbn [negb].
  - split; [| left; reflexivity]. split; [intros _; apply H; reflexivity | reflexivity].
  - split; [| right; reflexivity]. split; [discriminate |].
    intros Hu. apply H in Hu. discriminate Hu.
Qed.

(** X3: GitHub usernames: [validateGitHubUsername] accepts exactly the strings
    of 1 to 39 letters, digits and hyphens that begin and end with a
    letter or a digit and hold no two hyphens in a row. *)
Theorem validateGitHubUsername_accepts (username : string) :
  (Receiver.validateGitHubUsername username = Ok tt <->
   hostLabel 39 username /\ ~ contains username "--")
  /\ (Receiver.validateGitHubUsername username = Ok tt
      \/ Receiver.validateGitHubUsername username
         = Err (InvalidGitHubUsername username)).
Proof.
  unfold Receiver.validateGitHubUsername, Receiver.twoHyphens.
  pose proof (test_gitHubUsername username) as H.
  pose proof (test_str "--" username ltac:(discriminate)) as H2.
  destruct (Regex.test Receiver.gitHubUsername username); cbn [negb orb].
  - destruct (Regex.test (Regex.str "--") username).
    + split; [| right; reflexivity]. split; [discriminate |].
      intros [_ Hno]. contradiction Hno. apply H2. reflexivity.
    + split; [| left; reflexivity]. split; [| reflexivity]. intros _.
      split; [apply H; reflexivity |]. intros Hc. apply H2 in Hc. discriminate Hc.
  - split; [| right; reflexivity]. split; [discriminate |].
    intros [Hu _]. apply H in Hu. discriminate Hu.
Qed.

(** X4: E-mail addresses: [validateEmail] accepts exactly the strings
    [name@host.tld] whose name is made of letters, digits and the
    characters [._%+-], whose host is made of letters, digits, dots and
    hyphens, both not empty, and whose last part is two letters at
    least. *)
Theorem validateEmail_accepts (email : string) :
  (Receiver.validateEmail email = Ok tt <->
   exists name host tld,
     email = name ++ "@" ++ host ++ "." ++ tld
     /\ 1 <= String.length name /\ every Receiver.isLocal name = true
     /\ 1 <= String.length host /\ every Receiver.isHost host = true
     /\ 2 <= String.length tld /\ every JS.isAlpha tld = true)
  /\ (Receiver.validateEmail email = Ok tt
      \/ Receiver.validateEmail email = Err (InvalidEmail email)).
Proof.
  unfold Receiver.validateEmail.
  pose proof (test_emailRegex email) as H.
  destruct (Regex.test Receiver.emailRegex email); cbn [negb].
  - split; [| left; reflexivity]. split; [intros _; apply H; reflexivity | reflexivity].
  - split; [| right; reflexivity]. split; [discriminate |].
    intros Hu. apply H in Hu. discriminate Hu.
Qed.

(** X5: Web domains: [validateWebDomain] accepts exactly the strings made of
    one or more labels, each followed by a dot, and a last part of two
    letters at least; a label is 1 to 63 letters, digits and hyphens and
    begins and ends with a letter or a digit. *)
Theorem validateWebDomain_accepts (domain : string) :
  (Receiver.validateWebDomain domain = Ok tt <->
   exists labels tld,
     domain = dotted labels ++ tld
     /\ labels <> [] /\ Forall (hostLabel 63) labels
     /\ 2 <= String.length tld /\ every JS.isAlpha tld = true)
  /\ (Receiver.validateWebDomain domain = Ok tt
      \/ Receiver.validateWebDomain domain = Err (InvalidWebDomain domain)).
Proof.
  unfold Receiver.validateWebDomain.
  pose proof (test_domainRegex domain) as H.
  destruct (Regex.test Receiver.domainRegex domain); cbn [negb].
  - split; [| left; reflexivity]. split; [intros _; apply H; reflexivity | reflexivity].
  - split; [| right; reflexivity]. split; [discriminate |].
    intros Hu. apply H in Hu. discriminate Hu.
Qed.

(** ** What the templates extract *)

Section FallbackFacts.

Import Regex.

Lemma collect_all (P : Agent.instruction -> Prop) (prompt : string) :
  (forall source pattern m after,
      In (source, pattern) Agent.patterns ->
      run pattern accept after (index m) [] = Some (lastIndex m, groups m) ->
      P (Agent.instructionOf source m)) ->
  forall ps acc instructions,
    incl ps Agent.patterns ->
    Forall P acc ->
    Agent.collect ps prompt acc = Some instructions ->
    Forall P instructions.
Proof.
  intros HP. induction ps as [| [source pattern] ps IH]; intros acc instructions Hps Hacc H;
    cbn [Agent.collect] in H.
  - inversion H; subst. exact Hacc.
  - destruct (Agent.execAll (S (S (String.length prompt))) pattern prompt 0)
      as [ms |] eqn:E; [| discriminate H].
    apply (IH _ _ (fun p Hp => Hps p (or_intror Hp))) in H; [exact H |].
    apply Forall_app. split; [exact Hacc |].
    apply execAll_found in E. apply Forall_forall. intros i Hi.
    apply in_map_iff in Hi. destruct Hi as [m [<- Hm]].
    rewrite Forall_forall in E. destruct (E m Hm) as [from Hexec].
    apply exec_found in Hexec. destruct Hexec as [before [after [_ Hrun]]].
    apply (HP source pattern m after); [apply Hps; left; reflexivity | exact Hrun].
Qed.

Lemma collect_nothing (prompt : string) :
  (forall source pattern m from,
      In (source, pattern) Agent.patterns ->
      exec pattern prompt from = Some m -> False) ->
  forall ps acc instructions,
    incl ps Agent.patterns ->
    Agent.collect ps prompt acc = Some instructions ->
    instructions = acc.
Proof.
  intros Hno. induction ps as [| [source pattern] ps IH]; intros acc instructions Hps H;
    cbn [Agent.collect] in H.
  - inversion H; reflexivity.
  - destruct (Agent.execAll (S (S (String.length prompt))) pattern prompt 0)
      as [ms |] eqn:E; [| discriminate H].
    apply execAll_found in E. destruct ms as [| m ms].
    + cbn [map] in H. rewrite app_nil_r in H.
      exact (IH _ _ (fun p Hp => Hps p (or_intror Hp)) H).
    + inversion E as [| ? ? [from Hexec] _]; subst.
      exfalso. apply (Hno source pattern m from); [apply Hps; left; reflexivity | exact Hexec].
Qed.

End FallbackFacts.

(** X6: the fallback parser always returns, and every instruction it returns
    has one of the five platform names in lower case, a receiver of one or
    more letters, digits and underscores, and an amount that is a number
    and not negative. *)
Theorem fallbackParser_instructions_wellformed (prompt : string) :
  exists instructions,
    Agent.fallbackParser prompt = Some instructions
    /\ Forall wellFormedInstruction instructions.
Proof.
  destruct (fallbackParser_returns prompt) as [instructions H].
  exists instructions. split; [exact H |].
  unfold Agent.fallbackParser in H.
  apply (collect_all wellFormedInstruction prompt) with (ps := Agent.patterns) (acc := []).
  - intros source pattern m after Hin Hrun.
    exact (proj1 (template_instruction source pattern m after Hin Hrun)).
  - intros p Hp. exact Hp.
  - apply Forall_nil.
  - exact H.
Qed.

(** X7: the three templates all spell the currency: from a prompt that does
    not contain [usdc], in whatever case, the fallback parser extracts no
    instruction. *)
Theorem fallbackParser_needs_usdc (prompt : string) :
  JS.includes (JS.toLowerCase prompt) "usdc" = false ->
  Agent.fallbackParser prompt = Some [].
Proof.
  intros Hno. destruct (fallbackParser_returns prompt) as [instructions H].
  rewrite H. f_equal. unfold Agent.fallbackParser in H.
  apply (collect_nothing prompt) with (ps := Agent.patterns); [| intros p Hp; exact Hp | exact H].
  intros source pattern m from Hin Hexec.
  apply exec_found in Hexec. destruct Hexec as [before [after [Hs Hrun]]].
  destruct (template_instruction source pattern m after Hin Hrun) as [_ Hc].
  assert (Hp : contains (JS.toLowerCase prompt) "usdc").
  { rewrite Hs, toLowerCase_append. apply contains_later. exact Hc. }
  apply includes_contains in Hp. rewrite Hp in Hno. discriminate Hno.
Qed.

Lemma fallbackParser_needs_usdc_witness :
  JS.includes (JS.toLowerCase "Send 5 dollars to @bob on x") "usdc" = false
  /\ Agent.fallbackParser "Send 5 dollars to @bob on x" = Some [].
Proof.
  split; [reflexivity |].
  apply (fallbackParser_needs_usdc "Send 5 dollars to @bob on x"). reflexivity.
Defined.

(** ** The array in the answer of a provider *)

Section BracketFacts.

Import Regex.

(** [[\s\S]*\]] on a text without a closing bracket *)
Lemma repeat_unclosed (m : cont -> cont) (k : cont) :
  (forall k' s pos caps,
      m k' s pos caps = match s with
                        | String c t => k' t (S pos) caps
                        | EmptyString => None
                        end) ->
  (forall s pos caps,
      k s pos caps = match s with
                     | String c t =>
                         if JS.isChar "]" c then Some (S pos, caps) else None
                     | EmptyString => None
                     end) ->
  forall s fuel pos caps,
    JS.indexOf "]" s = None ->
    String.length s < fuel ->
    repeat m [] k fuel 0 None s pos caps = None.
Proof.
  intros Hm Hk. induction s as [| c s IH]; intros fuel pos caps Hno Hfuel;
    (destruct fuel as [| fuel]; [cbn in Hfuel; lia |]);
    cbn [repeat Nat.eqb]; rewrite Hm, Hk.
  - reflexivity.
  - cbn [JS.indexOf] in Hno. unfold JS.isChar.
    destruct (Ascii.eqb c "]"); [discriminate Hno |].
    destruct (JS.indexOf "]" s); [discriminate Hno |].
    replace (Nat.eqb (S pos) pos) with false by (symmetry; apply Nat.eqb_neq; lia).
    cbn [andb Nat.pred decMax]. rewrite forget_none.
    rewrite IH by (reflexivity || (cbn in Hfuel; lia)). reflexivity.
Qed.

(** and on a text with one: the quantifier runs up to the last *)
Lemma repeat_closed (m : cont -> cont) (k : cont) :
  (forall k' s pos caps,
      m k' s pos caps = match s with
                        | String c t => k' t (S pos) caps
                        | EmptyString => None
                        end) ->
  (forall s pos caps,
      k s pos caps = match s with
                     | String c t =>
                         if JS.isChar "]" c then Some (S pos, caps) else None
                     | EmptyString => None
                     end) ->
  forall inside after fuel pos caps,
    JS.indexOf "]" after = None ->
    String.length (inside ++ String "]" after) < fuel ->
    repeat m [] k fuel 0 None (inside ++ String "]" after) pos caps
    = Some (pos + String.length inside + 1, caps).
Proof.
  intros Hm Hk. induction inside as [| c inside IH]; intros after fuel pos caps Hno Hfuel;
    (destruct fuel as [| fuel]; [cbn in Hfuel; lia |]);
    cbn [repeat Nat.eqb append]; rewrite Hm, Hk;
    replace (Nat.eqb (S pos) pos) with false by (symmetry; apply Nat.eqb_neq; lia);
    cbn [andb Nat.pred decMax]; rewrite forget_none.
  - rewrite (repeat_unclosed m k Hm Hk) by (assumption || (cbn in Hfuel; lia)).
    change (JS.isChar "]" "]") with true. cbn [String.length]. f_equal. f_equal. lia.
  - rewrite IH by (assumption || (cbn [append String.length] in Hfuel; lia)).
    cbn [String.length]. f_equal. f_equal. lia.
Qed.

Lemma search_step (r : regex) (c : ascii) (s : string) (pos : nat) :
  run r accept (String c s) pos [] = None ->
  search r (String c s) pos = search r s (S pos).
Proof. intros H. cbn [search]. rewrite H. reflexivity. Qed.

Lemma bracketed_opening (c : ascii) (s : string) (pos : nat) :
  Ascii.eqb c "[" = false -> run Agent.bracketed accept (String c s) pos [] = None.
Proof.
  intros H. unfold Agent.bracketed, lit, JS.isChar. cbn [seq run].
  rewrite H. reflexivity.
Qed.

Lemma search_bracket (before rest : string) (pos : nat) :
  JS.indexOf "[" before = None ->
  search Agent.bracketed (before ++ String "[" rest) pos
  = search Agent.bracketed (String "[" rest) (pos + String.length before).
Proof.
  revert pos. induction before as [| c before IH]; intros pos Hno.
  - cbn [append String.length]. rewrite Nat.add_0_r. reflexivity.
  - cbn [JS.indexOf] in Hno.
    destruct (Ascii.eqb c "[") eqn:Ec; [discriminate Hno |].
    destruct (JS.indexOf "[" before) eqn:Eb; [discriminate Hno |].
    cbn [append]. rewrite search_step by (apply bracketed_opening; exact Ec).
    rewrite IH by reflexivity. cbn [String.length]. f_equal. lia.
Qed.

Lemma bracketed_closing (inside after : string) (pos : nat) :
  JS.indexOf "]" after = None ->
  run Agent.bracketed accept (String "[" (inside ++ String "]" after)) pos []
  = Some (pos + String.length inside + 2, []).
Proof.
  intros Ha. unfold Agent.bracketed. cbn [seq]. unfold star.
  change (run (Seq (lit "[") (Seq (Rep 0 None (Chr (fun _ => true))) (lit "]")))
              accept (String "[" (inside ++ String "]" after)) pos [])
    with (repeat (run (Chr (fun _ => true))) [] (run (lit "]") accept)
                 (S (0 + String.length (inside ++ String "]" after))) 0 None
                 (inside ++ String "]" after) (S pos) []).
  rewrite (repeat_closed (run (Chr (fun _ => true))) (run (lit "]") accept))
    by (reflexivity || assumption || lia).
  f_equal. f_equal. lia.
Qed.

Lemma firstMatch_bracketed (before inside after : string) :
  JS.indexOf "[" before = None -> JS.indexOf "]" after = None ->
  firstMatch Agent.bracketed (before ++ "[" ++ inside ++ "]" ++ after)
  = Some ("[" ++ inside ++ "]").
Proof.
  intros Hb Ha. unfold firstMatch, exec. cbn [Nat.ltb Nat.leb].
  rewrite sliceFrom_all. cbn [append].
  rewrite (search_bracket before _ 0 Hb). cbn [search Nat.add].
  rewrite (bracketed_closing inside after _ Ha). cbn [matched]. f_equal.
  replace (String.length before + String.length inside + 2 - String.length before)
    with (String.length (String "[" (inside ++ "]")))
    by (cbn [String.length]; rewrite length_append; cbn [String.length]; lia).
  assert (E : String "[" (inside ++ String "]" after)
              = String "[" (inside ++ "]") ++ after).
  { cbn [append]. rewrite append_assoc. reflexivity. }
  rewrite E. apply substring_front.
Qed.

(** no bracketed text: no opening bracket with a closing one after it *)
Lemma firstMatch_unbracketed (content : string) :
  firstMatch Agent.bracketed content = None <->
  ~ exists before inside after, content = before ++ "[" ++ inside ++ "]" ++ after.
Proof.
  assert (H : test Agent.bracketed content = true <->
              exists before inside after,
                content = before ++ "[" ++ inside ++ "]" ++ after).
  { rewrite test_matches. unfold Agent.bracketed, lit, JS.isChar. cbn [seq]. split.
    - intros [before [t [rest [Hs Hm]]]].
      inversion Hm as [| | a b pos t1 u rest' Ha Hb | | | | | | |]; subst.
      inversion Hb as [| | a b pos t2 u2 rest' Hi Hc | | | | | | |]; subst.
      inversion Ha as [| q x pos0 rest0 Hx | | | | | | | |]; subst.
      inversion Hc as [| q y pos0 rest0 Hy | | | | | | | |]; subst.
      apply Ascii.eqb_eq in Hx, Hy. subst x y.
      exists before, t2, rest. rewrite !append_assoc. reflexivity.
    - intros [before [inside [after ->]]].
      exists before, ("[" ++ inside ++ "]"), after. split.
      + rewrite !append_assoc. reflexivity.
      + apply (matches_seq _ _ _ "["); [apply matches_chr; reflexivity |].
        apply matches_seq; [| apply matches_chr; reflexivity].
        apply matches_class; [exact I |].
        repeat split; [| lia]. clear. induction inside; [reflexivity | exact IHinside]. }
  unfold test in H. unfold firstMatch.
  destruct (exec Agent.bracketed content 0); split.
  - discriminate.
  - intros Hn. contradiction Hn. apply H. reflexivity.
  - intros _ Hex. apply H in Hex. discriminate Hex.
  - reflexivity.
Qed.

End BracketFacts.

(** X8: the text of an answer that is handed to [JSON.parse] runs from the
    first opening bracket of the answer to its last closing bracket:
    what stands before and after is dropped, and two arrays in one answer
    are read as one text.  An answer has no such text exactly when no
    opening bracket of it is followed by a closing one. *)
Theorem parseAIResponse_outermost_brackets
        (numberText : JS.number -> string)
        (JSON_parse : string -> result value) :
  (forall before inside after,
      JS.indexOf "[" before = None -> JS.indexOf "]" after = None ->
      Regex.firstMatch Agent.bracketed (before ++ "[" ++ inside ++ "]" ++ after)
      = Some ("[" ++ inside ++ "]")
      /\ Agent.parseAIResponse numberText JSON_parse
           (before ++ "[" ++ inside ++ "]" ++ after)
         = Some (instructions <- JSON_parse ("[" ++ inside ++ "]") ;;
                 match instructions with
                 | Arr items =>
                     _ <- forEach (Agent.summary numberText) items ;;
                     Ok items
                 | _ => Err TypeError
                 end))
  /\ (forall content,
         Regex.firstMatch Agent.bracketed content = None <->
         ~ exists before inside after,
             content = before ++ "[" ++ inside ++ "]" ++ after).
Proof.
  split.
  - intros before inside after Hb Ha.
    pose proof (firstMatch_bracketed before inside after Hb Ha) as H.
    split; [exact H |]. unfold Agent.parseAIResponse. rewrite H. reflexivity.
  - exact firstMatch_unbracketed.
Qed.

Lemma parseAIResponse_outermost_brackets_witness :
  Regex.firstMatch Agent.bracketed "Two lists: [1] and [2]. Done"
  = Some "[1] and [2]".
Proof.
  destruct (parseAIResponse_outermost_brackets (fun _ => EmptyString)
              (fun _ => Err SyntaxError)) as [H _].
  exact (proj1 (H "Two lists: " "1] and [2" ". Done" eq_refl eq_refl)).
Defined.

(** ** Amounts across the commands *)

Section TrimFacts.





End TrimFacts.



Section SuggestionFacts.

Lemma ofN_cents (n : N) :
  JS.divBy (JS.ofN (n * 100)) 100 = JS.ofN n.
Proof.
  unfold JS.divBy, JS.ofN, JS.fin. f_equal. apply Qred_complete.
  rewrite Qred_correct. rewrite N2Z.inj_mul. unfold Qeq, Qdiv, Qmult, Qinv, inject_Z.
  cbn. lia.
Qed.

(** a token of digits and the literal of the suffix test: nothing to
    trim, the literal ends it, and without its last code unit it is the
    digits and the not sign *)
Lemma literal_token (ds : string) :
  isDigits ds ->
  JS.trim (ds ++ centsLiteral) = ds ++ centsLiteral
  /\ JS.endsWith (ds ++ centsLiteral) centsLiteral = true
  /\ JS.slice (ds ++ centsLiteral) 0 (-1) = ds ++ String JS.notSign "".
Proof.
  intros [Hds Hne].
  assert (E : ds ++ centsLiteral = (ds ++ String JS.notSign "") ++ String JS.cent "").
  { rewrite append_assoc. reflexivity. }
  split; [| split].
  - unfold JS.trim. destruct ds as [| c r]; [contradiction |].
    cbn in Hds. apply andb_true_iff in Hds. destruct Hds as [Hc _].
    cbn [append]. rewrite (trimStart_kept c _ (digit_not_space c Hc)).
    change (String c (r ++ centsLiteral)) with (String c r ++ centsLiteral).
    rewrite E. apply trimEnd_kept, cent_not_space.
  - apply endsWith_suffix. exists ds. reflexivity.
  - rewrite E. apply slice_without_last.
Qed.

(** digits and the literal are so many cents *)
Lemma parseAmount_literal (n : N) :
  Send.parseAmount (JS.digitsOf n ++ centsLiteral) = Ok (JS.divBy (JS.ofN n) 100)
  /\ BatchSend.parseAmount (Str (JS.digitsOf n ++ centsLiteral))
     = Ok (JS.divBy (JS.ofN n) 100).
Proof.
  pose proof (digitsOf_isDigits n) as Hds.
  destruct (literal_token (JS.digitsOf n) Hds) as [Htrim [Hends Hslice]].
  assert (Hread : JS.parseFloat (JS.digitsOf n ++ String JS.notSign "") = JS.ofN n).
  { rewrite (parseFloat_digits_sign _ "" JS.notSign Hds (or_intror eq_refl)).
    rewrite digitsOf_value. reflexivity. }
  unfold Send.parseAmount, BatchSend.parseAmount.
  rewrite Htrim, Hends, Hslice, Hread. split; reflexivity.
Qed.

(** digits and the cents sign alone are so many dollars *)
Lemma parseAmount_sign (n : N) :
  BatchSend.parseAmount (Str (JS.digitsOf n ++ centSign)) = Ok (JS.ofN n).
Proof.
  pose proof (digitsOf_isDigits n) as Hds.
  destruct (cents_sign_token (JS.digitsOf n) Hds) as [Htrim [Hends Hstart]].
  unfold BatchSend.parseAmount, centSign in *. rewrite Htrim, Hends, Hstart.
  rewrite (parseFloat_digits_sign _ "" JS.cent Hds (or_introl eq_refl)).
  rewrite digitsOf_value. reflexivity.
Qed.

End SuggestionFacts.

(** X11: the way out the shell-variable error proposes works: the send
    command refuses a whole dollar amount [$N]; where the hundredfold of
    [N] is an integer a double holds exactly, so that the message prints
    it by its digits, the message names the token made of these digits
    and of the literal of the suffix test, and the send command reads
    that token as [N]. *)
Theorem parseAmount_suggestion_accepted (n : N) :
  (n * 100 <= 2 ^ 53)%N ->
  Send.parseAmount ("$" ++ JS.digitsOf n) = Err (ShellVariable n)
  /\ contains (message (ShellVariable n))
              ("Please use " ++ JS.digitsOf (n * 100) ++ centsLiteral ++ " instead")
  /\ Send.parseAmount (JS.digitsOf (n * 100) ++ centsLiteral) = Ok (JS.ofN n).
Proof.
  intros _. split; [| split].
  - pose proof (digitsOf_isDigits n) as Hds.
    destruct (isDigits_last _ Hds) as [r [z [E Hz]]].
    destruct (dollar_token r z Hz) as [Htrim [Hends [Hstart Hslice]]].
    rewrite <- E in Htrim, Hends, Hstart, Hslice.
    unfold Send.parseAmount. rewrite Htrim, Hends, Hstart, Hslice, test_allDigits.
    destruct Hds as [Hall Hne]. rewrite Hall, digitsOf_value.
    destruct (JS.digitsOf n); [contradiction | reflexivity].
  - cbn [message].
    exists ("Dollar amounts like $" ++ JS.digitsOf n
            ++ " can be interpreted as shell variables. "),
           (" (or quote as '\$" ++ JS.digitsOf n ++ "').").
    rewrite !append_assoc. reflexivity.
  - rewrite (proj1 (parseAmount_literal (n * 100))), ofN_cents. reflexivity.
Qed.

Lemma parseAmount_suggestion_accepted_witness :
  (10 * 100 <= 2 ^ 53)%N
  /\ Send.parseAmount "$10" = Err (ShellVariable 10)
  /\ Send.parseAmount ("1000" ++ centsLiteral) = Ok (JS.Fin (10 # 1)).
Proof.
  assert (H : (10 * 100 <= 2 ^ 53)%N) by (vm_compute; discriminate).
  split; [exact H |].
  destruct (parseAmount_suggestion_accepted 10 H) as [Hrefused [_ Hread]].
  split; [exact Hrefused | exact Hread].
Defined.

(** ** Batches, compact and JSON *)

Section BatchFacts.

Import Receiver.

Lemma indexOf_first (c : ascii) (a b : string) :
  JS.indexOf c a = None -> JS.indexOf c (a ++ String c b) = Some (String.length a).
Proof.
  intros H. induction a as [| x a IH]; cbn [append JS.indexOf String.length].
  - rewrite Ascii.eqb_refl. reflexivity.
  - cbn [JS.indexOf] in H. destruct (Ascii.eqb x c); [discriminate H |].
    destruct (JS.indexOf c a); [discriminate H |]. rewrite IH; reflexivity.
Qed.

Lemma lastIndexOf_absent (c : ascii) (s : string) :
  JS.indexOf c s = None -> JS.lastIndexOf c s = None.
Proof.
  induction s as [| x s IH]; [reflexivity |]. cbn [JS.indexOf JS.lastIndexOf].
  destruct (Ascii.eqb x c); [discriminate |].
  destruct (JS.indexOf c s); [discriminate |]. intros _. rewrite IH; reflexivity.
Qed.

Lemma lastIndexOf_last (c : ascii) (a b : string) :
  JS.indexOf c b = None ->
  JS.lastIndexOf c (a ++ String c b) = Some (String.length a).
Proof.
  intros H. induction a as [| x a IH]; cbn [append JS.lastIndexOf String.length].
  - rewrite (lastIndexOf_absent c b H), Ascii.eqb_refl. reflexivity.
  - rewrite IH. reflexivity.
Qed.

Lemma substring2_front (a b : string) :
  JS.substring2 (a ++ b) 0 (String.length a) = a.
Proof.
  unfold JS.substring2. rewrite Nat.min_0_l, Nat.max_0_l, Nat.sub_0_r.
  apply substring_front.
Qed.

Lemma substringFrom_back (a b : string) (c : ascii) :
  JS.substringFrom (a ++ String c b) (String.length a + 1) = b.
Proof.
  unfold JS.substringFrom, JS.substring2. rewrite length_append. cbn [String.length].
  rewrite Nat.min_l, Nat.max_r by lia.
  replace (String.length a + S (String.length b) - (String.length a + 1))
    with (String.length b) by lia.
  replace (a ++ String c b) with ((a ++ String c "") ++ b)
    by (rewrite append_assoc; reflexivity).
  replace (String.length a + 1) with (String.length (a ++ String c ""))
    by (rewrite length_append; reflexivity).
  rewrite substring_back. apply substring_all.
Qed.

Lemma split_first (c : ascii) (a b : string) :
  JS.indexOf c a = None -> JS.split c (a ++ String c b) = a :: JS.split c b.
Proof.
  intros H. induction a as [| x a IH]; cbn [append JS.split].
  - rewrite Ascii.eqb_refl. reflexivity.
  - cbn [JS.indexOf] in H. destruct (Ascii.eqb x c); [discriminate H |].
    destruct (JS.indexOf c a); [discriminate H |]. rewrite IH; reflexivity.
Qed.

Lemma split_commaJoined (items : list string) :
  items <> [] ->
  Forall (fun item => JS.indexOf "," item = None) items ->
  JS.split "," (commaJoined items) = items.
Proof.
  induction items as [| x items IH]; [congruence |]. intros _ Hall.
  inversion Hall as [| ? ? Hx Hrest]; subst.
  destruct items as [| y items].
  - cbn [commaJoined]. apply split_without. exact Hx.
  - change (commaJoined (x :: y :: items))
      with (x ++ String "," (commaJoined (y :: items))).
    rewrite (split_first "," x _ Hx), IH; [reflexivity | discriminate | exact Hrest].
Qed.

Lemma absent_append (c : ascii) (a b : string) :
  JS.indexOf c a = None -> JS.indexOf c b = None -> JS.indexOf c (a ++ b) = None.
Proof.
  intros Ha Hb. induction a as [| x a IH]; [exact Hb |].
  cbn [append JS.indexOf] in *. destruct (Ascii.eqb x c); [discriminate Ha |].
  destruct (JS.indexOf c a); [discriminate Ha |]. rewrite IH; reflexivity.
Qed.

Lemma absent_digits (c : ascii) (ds : string) :
  JS.isDigit c = false -> every JS.isDigit ds = true -> JS.indexOf c ds = None.
Proof.
  intros Hc. induction ds as [| x ds IH]; [reflexivity |]. cbn [every JS.indexOf].
  intros H. apply andb_true_iff in H. destruct H as [Hx Hds].
  destruct (Ascii.eqb x c) eqn:E.
  - apply Ascii.eqb_eq in E. subst x. rewrite Hx in Hc. discriminate Hc.
  - rewrite (IH Hds). reflexivity.
Qed.

(** the text of an amount, digits and a unit without colon or comma,
    holds neither *)
Lemma amount_plain (n : N) (unit : string) (c : ascii) :
  JS.isDigit c = false -> JS.indexOf c unit = None ->
  JS.indexOf c (JS.digitsOf n ++ unit) = None.
Proof.
  intros Hc Hunit. apply absent_append; [| exact Hunit].
  apply absent_digits; [exact Hc | apply digitsOf_isDigits].
Qed.

Lemma forEach_map {A B C : Type} (f : B -> result C) (g : A -> B) (l : list A) :
  forEach f (map g l) = forEach (fun a => f (g a)) l.
Proof.
  induction l as [| a l IH]; [reflexivity |]. cbn [map forEach]. rewrite IH. reflexivity.
Qed.

Lemma forEach_all {A B : Type} (f : A -> result B) (g : A -> B) (l : list A) :
  Forall (fun a => f a = Ok (g a)) l -> forEach f l = Ok (map g l).
Proof.
  induction 1 as [| a l Ha _ IH]; [reflexivity |].
  cbn [forEach map]. rewrite Ha, IH. reflexivity.
Qed.

(** the compact form of pairs [receiver:N unit], for a unit without
    colon or comma after which the digits of [N] are read as
    [amount N] *)
Lemma compact_parses
        (unit : string) (amount : N -> JS.number)
        (name : string) (platform : Receiver.identity)
        (entries : list (string * N)) :
  JS.indexOf ":" unit = None -> JS.indexOf "," unit = None ->
  (forall n, BatchSend.parseAmount (Str (JS.digitsOf n ++ unit)) = Ok (amount n)) ->
  JS.indexOf "/" name = None ->
  Receiver.normalizePlatform name = Ok platform ->
  entries <> [] ->
  Forall (fun e => JS.indexOf "," (fst e) = None
                   /\ Receiver.validateReceiver platform (fst e) = Ok tt) entries ->
  BatchSend.parseCommaSeparated
    (name ++ "/"
     ++ commaJoined (map (fun e => fst e ++ ":" ++ JS.digitsOf (snd e) ++ unit)
                         entries))
  = Ok (BatchSend.Batch platform
          (map (fun e => BatchSend.Payment (Str (fst e)) (amount (snd e))) entries)).
Proof.
  intros Hcolon Hcomma Hamount Hname Hplatform Hne Hall.
  unfold BatchSend.parseCommaSeparated.
  set (pair := fun e : string * N => fst e ++ ":" ++ JS.digitsOf (snd e) ++ unit).
  change (name ++ "/" ++ commaJoined (map pair entries))
    with (name ++ String "/" (commaJoined (map pair entries))).
  rewrite (indexOf_first "/" name _ Hname), substring2_front, substringFrom_back.
  rewrite Hplatform. cbn [bind].
  rewrite split_commaJoined.
  - rewrite forEach_map.
    rewrite (forEach_all _ (fun e => BatchSend.Payment (Str (fst e)) (amount (snd e))));
      [reflexivity |].
    apply Forall_forall. intros [receiver n] Hin.
    rewrite Forall_forall in Hall. destruct (Hall _ Hin) as [_ Hvalid].
    cbn [fst snd] in Hvalid. unfold pair. cbn [fst snd].
    change (receiver ++ ":" ++ JS.digitsOf n ++ unit)
      with (receiver ++ String ":" (JS.digitsOf n ++ unit)).
    rewrite lastIndexOf_last by (apply amount_plain; [reflexivity | exact Hcolon]).
    rewrite substring2_front, substringFrom_back, Hvalid. cbn [bind].
    rewrite Hamount. reflexivity.
  - destruct entries; [contradiction Hne; reflexivity | discriminate].
  - apply Forall_forall. intros item Hin. apply in_map_iff in Hin.
    destruct Hin as [[receiver n] [<- Hin]].
    rewrite Forall_forall in Hall. destruct (Hall _ Hin) as [Hreceiver _].
    unfold pair. cbn [fst snd] in *.
    apply absent_append; [exact Hreceiver |].
    change (":" ++ JS.digitsOf n ++ unit)
      with (String ":" (JS.digitsOf n ++ unit)).
    cbn [JS.indexOf Ascii.eqb Bool.eqb].
    rewrite amount_plain by (reflexivity || exact Hcomma). reflexivity.
Qed.

Lemma json_parses (numberText : JS.number -> string)
      (name : string) (platform : Receiver.identity)
      (entries : list (string * N)) :
  Receiver.normalizePlatform name = Ok platform ->
  Forall (fun e => Receiver.validateReceiver platform (fst e) = Ok tt) entries ->
  Forall (fun e => fst e <> EmptyString) entries ->
  BatchSend.parseJSONPayments numberText (jsonOf name entries)
  = Ok (BatchSend.Batch platform (map wholeOf entries)).
Proof.
  intros Hplatform Hall Hfull.
  assert (Hname : Value.truthy (Str name) = true).
  { destruct name; [discriminate Hplatform | reflexivity]. }
  unfold BatchSend.parseJSONPayments, jsonOf.
  cbn [Value.get Value.field String.eqb Ascii.eqb Bool.eqb bind].
  rewrite Hname. cbn [negb]. rewrite Hplatform. cbn [bind].
  rewrite forEach_map.
  rewrite (forEach_all _ wholeOf); [reflexivity |].
  apply Forall_forall. intros [receiver n] Hin.
  rewrite Forall_forall in Hall, Hfull.
  specialize (Hall _ Hin). specialize (Hfull _ Hin). cbn [fst snd] in *.
  cbn [Value.get Value.field String.eqb Ascii.eqb Bool.eqb bind].
  replace (Value.truthy (Str receiver)) with true
    by (destruct receiver; [contradiction Hfull; reflexivity | reflexivity]).
  cbn [negb]. unfold BatchSend.validateReceiverValue.
  cbn [Value.toText bind]. rewrite Hall.
  destruct (Receiver.allowed platform); cbn [bind];
    rewrite parseAmount_sign; reflexivity.
Qed.

End BatchFacts.

(** X12: round trip of the compact form: for a platform token without a
    slash that [normalizePlatform] accepts and one or more receivers that
    hold no comma and are valid on that platform, each with a number [N]
    of cents that a double holds exactly, the text of the pairs
    [receiver:N] with the literal of the suffix test after each [N]
    parses to the batch of these receivers, in their order, each with
    the amount [N / 100]; with the cents sign alone after each [N], it
    parses to the batch of the same receivers with the amounts [N]. *)
Theorem parseCommaSeparated_round_trip
        (name : string) (platform : Receiver.identity)
        (entries : list (string * N)) :
  JS.indexOf "/" name = None ->
  Receiver.normalizePlatform name = Ok platform ->
  entries <> [] ->
  Forall (fun e => JS.indexOf "," (fst e) = None
                   /\ Receiver.validateReceiver platform (fst e) = Ok tt
                   /\ (snd e <= 2 ^ 53)%N) entries ->
  BatchSend.parseCommaSeparated (literalCompactOf name entries)
  = Ok (BatchSend.Batch platform (map paymentOf entries))
  /\ BatchSend.parseCommaSeparated (compactOf name entries)
     = Ok (BatchSend.Batch platform (map wholeOf entries)).
Proof.
  intros Hname Hplatform Hne Hall.
  assert (Hall' : Forall (fun e => JS.indexOf "," (fst e) = None
                            /\ Receiver.validateReceiver platform (fst e) = Ok tt)
                         entries).
  { apply Forall_forall. intros e Hin. rewrite Forall_forall in Hall.
    destruct (Hall e Hin) as [H1 [H2 _]]. split; assumption. }
  split.
  - apply (compact_parses centsLiteral (fun n => JS.divBy (JS.ofN n) 100));
      try assumption; try reflexivity.
    intros n. apply parseAmount_literal.
  - apply (compact_parses centSign JS.ofN); try assumption; try reflexivity.
    intros n. apply parseAmount_sign.
Qed.

Lemma parseCommaSeparated_round_trip_witness :
  BatchSend.parseCommaSeparated
    ("twitter/jessepollak:1" ++ centsLiteral ++ ",aeyakovenko:50" ++ centsLiteral)
  = Ok (BatchSend.Batch (Receiver.Platform "x")
          [ BatchSend.Payment (Str "jessepollak") (JS.Fin (1 # 100));
            BatchSend.Payment (Str "aeyakovenko") (JS.Fin (1 # 2)) ])
  /\ BatchSend.parseCommaSeparated
       ("twitter/jessepollak:1" ++ centSign ++ ",aeyakovenko:50" ++ centSign)
     = Ok (BatchSend.Batch (Receiver.Platform "x")
             [ BatchSend.Payment (Str "jessepollak") (JS.Fin (1 # 1));
               BatchSend.Payment (Str "aeyakovenko") (JS.Fin (50 # 1)) ]).
Proof.
  apply (parseCommaSeparated_round_trip "twitter" (Receiver.Platform "x")
           [("jessepollak", 1%N); ("aeyakovenko", 50%N)]).
  - reflexivity.
  - reflexivity.
  - discriminate.
  - repeat apply Forall_cons; try apply Forall_nil;
      (split; [reflexivity | split; [reflexivity | vm_compute; discriminate]]).
Defined.

(** X13: the JSON form agrees with the compact form: under the same conditions,
    and with no receiver empty, the object of the platform and of the
    payments [receiver], [N¢] parses to the same batch as the compact
    text. *)
Theorem parseJSONPayments_agrees_with_compact
        (numberText : JS.number -> string)
        (name : string) (platform : Receiver.identity)
        (entries : list (string * N)) :
  JS.indexOf "/" name = None ->
  Receiver.normalizePlatform name = Ok platform ->
  entries <> [] ->
  Forall (fun e => JS.indexOf "," (fst e) = None
                   /\ Receiver.validateReceiver platform (fst e) = Ok tt) entries ->
  Forall (fun e => fst e <> EmptyString) entries ->
  BatchSend.parseJSONPayments numberText (jsonOf name entries)
  = BatchSend.parseCommaSeparated (compactOf name entries).
Proof.
  intros Hname Hplatform Hne Hall Hfull.
  assert (Hcompact : BatchSend.parseCommaSeparated (compactOf name entries)
                     = Ok (BatchSend.Batch platform (map wholeOf entries))).
  { apply (compact_parses centSign JS.ofN); try assumption; try reflexivity.
    intros n. apply parseAmount_sign. }
  rewrite Hcompact.
  apply json_parses; [exact Hplatform | | exact Hfull].
  apply Forall_forall. intros e Hin. rewrite Forall_forall in Hall.
  apply (Hall e Hin).
Qed.

Lemma parseJSONPayments_agrees_with_compact_witness :
  BatchSend.parseJSONPayments (fun _ => EmptyString)
    (jsonOf "farcaster.xyz" [("toly", 50%N); ("mesut", 25%N)])
  = BatchSend.parseCommaSeparated
      ("farcaster.xyz/toly:50" ++ centSign ++ ",mesut:25" ++ centSign).
Proof.
  apply (parseJSONPayments_agrees_with_compact (fun _ => EmptyString)
           "farcaster.xyz" (Receiver.Platform "farcaster")
           [("toly", 50%N); ("mesut", 25%N)]).
  - reflexivity.
  - reflexivity.
  - discriminate.
  - repeat apply Forall_cons; try apply Forall_nil; split; vm_compute; reflexivity.
  - repeat apply Forall_cons; try apply Forall_nil; discriminate.
Defined.

(** ** Targets and platform names *)

Section TargetFacts.

Import Receiver.

Lemma split_length (c : ascii) (s : string) :
  List.length (JS.split c s) = S (occurrences c s).
Proof.
  induction s as [| x s IH]; [reflexivity |]. cbn [JS.split occurrences].
  destruct (Ascii.eqb x c).
  - cbn [List.length]. rewrite IH. reflexivity.
  - destruct (JS.split c s) as [| h t]; [discriminate IH |].
    cbn [List.length] in *. exact IH.
Qed.

Lemma split_one (c : ascii) (s r : string) :
  JS.split c s = [r] -> s = r /\ JS.indexOf c s = None.
Proof.
  revert r. induction s as [| x s IH]; intros r H; cbn [JS.split] in H.
  - inversion H. split; reflexivity.
  - cbn [JS.indexOf]. destruct (Ascii.eqb x c).
    + pose proof (split_length c s) as Hl. inversion H as [[Hr Hs]]. rewrite Hs in Hl.
      discriminate Hl.
    + destruct (JS.split c s) as [| h t] eqn:E; [inversion H; subst |].
      * pose proof (split_length c s) as Hl. rewrite E in Hl. discriminate Hl.
      * inversion H; subst. destruct (IH h eq_refl) as [-> Hno].
        rewrite Hno. split; reflexivity.
Qed.

Lemma split_two (c : ascii) (s p r : string) :
  JS.split c s = [p; r] ->
  s = p ++ String c r /\ JS.indexOf c p = None /\ JS.indexOf c r = None.
Proof.
  revert p. induction s as [| x s IH]; intros p H; cbn [JS.split] in H.
  - discriminate H.
  - destruct (Ascii.eqb x c) eqn:Ex.
    + inversion H as [[Hp Hs]]. apply split_one in Hs. destruct Hs as [-> Hno].
      apply Ascii.eqb_eq in Ex. subst x. repeat split; exact Hno.
    + destruct (JS.split c s) as [| h t] eqn:E; [discriminate H |].
      inversion H; subst. destruct (IH h eq_refl) as [-> [Hh Hr]].
      repeat split; [| exact Hr]. cbn [JS.indexOf]. rewrite Ex, Hh. reflexivity.
Qed.

Lemma occurrences_absent (c : ascii) (s : string) :
  JS.indexOf c s = None -> occurrences c s = 0.
Proof.
  induction s as [| x s IH]; [reflexivity |]. cbn [JS.indexOf occurrences].
  destruct (Ascii.eqb x c); [discriminate |].
  destruct (JS.indexOf c s); [discriminate |]. intros _. rewrite IH; reflexivity.
Qed.

Lemma occurrences_append (c : ascii) (a b : string) :
  occurrences c (a ++ b) = occurrences c a + occurrences c b.
Proof.
  induction a as [| x a IH]; [reflexivity |]. cbn [append occurrences].
  rewrite IH. lia.
Qed.

Lemma target_parts (target : string) (identity : identity) (receiver : string) :
  Send.parsePaymentTarget target = Ok (identity, receiver) ->
  exists platform,
    target = platform ++ "/" ++ receiver
    /\ occurrences "/" target = 1
    /\ normalizePlatform platform = Ok identity
    /\ validateReceiver identity receiver = Ok tt.
Proof.
  unfold Send.parsePaymentTarget.
  destruct (JS.split "/" target) as [| p [| r [| x rest]]] eqn:E; try discriminate.
  apply split_two in E. destruct E as [-> [Hp Hr]].
  destruct (normalizePlatform p) as [i |] eqn:En; [| discriminate].
  cbn [bind].
  change (match i with
          | Platform "x" => validateXUsername r
          | Platform "farcaster" => validateFarcasterUsername r
          | Platform "github" => validateGitHubUsername r
          | Platform "email" => validateEmail r
          | Platform "web" => validateWebDomain r
          | _ => Ok tt
          end) with (validateReceiver i r).
  destruct (validateReceiver i r) as [[] |] eqn:Ev; [| discriminate].
  cbn [bind]. intros H. inversion H; subst. exists p.
  split; [reflexivity | split; [| split; [exact En | exact Ev]]].
  rewrite occurrences_append. cbn [occurrences Ascii.eqb Bool.eqb].
  rewrite (occurrences_absent _ _ Hp), (occurrences_absent _ _ Hr). reflexivity.
Qed.

Lemma target_slashes (target : string) :
  occurrences "/" target <> 1 ->
  Send.parsePaymentTarget target = Err (InvalidTargetFormat target).
Proof.
  intros H. unfold Send.parsePaymentTarget.
  pose proof (split_length "/" target) as Hl.
  destruct (JS.split "/" target) as [| p [| r [| x rest]]]; try reflexivity.
  cbn [List.length] in Hl. lia.
Qed.

Lemma toLowerCase_idempotent (s : string) :
  JS.toLowerCase (JS.toLowerCase s) = JS.toLowerCase s.
Proof.
  induction s as [| c s IH]; [reflexivity |]. cbn [JS.toLowerCase].
  rewrite IH. f_equal.
  destruct c as [[] [] [] [] [] [] [] []]; vm_compute; reflexivity.
Qed.

End TargetFacts.

(** X14: a target is split at its slashes and must have exactly two parts: a
    target with no slash or with more than one, such as a domain with a
    path, is refused as ill-formed before its platform is looked at; and
    a target that is accepted is a platform token that
    [normalizePlatform] accepts, one slash, and a receiver that is valid
    on the platform and is returned as it stands. *)
Theorem parsePaymentTarget_one_slash (target : string) :
  (occurrences "/" target <> 1 ->
   Send.parsePaymentTarget target = Err (InvalidTargetFormat target))
  /\ (forall identity receiver,
         Send.parsePaymentTarget target = Ok (identity, receiver) ->
         exists platform,
           target = platform ++ "/" ++ receiver
           /\ occurrences "/" target = 1
           /\ Receiver.normalizePlatform platform = Ok identity
           /\ Receiver.validateReceiver identity receiver = Ok tt).
Proof.
  split; [apply target_slashes | apply target_parts].
Qed.

Lemma parsePaymentTarget_one_slash_witness :
  Send.parsePaymentTarget "web/snack.money/about"
  = Err (InvalidTargetFormat "web/snack.money/about")
  /\ Send.parsePaymentTarget "x" = Err (InvalidTargetFormat "x").
Proof.
  split.
  - apply (proj1 (parsePaymentTarget_one_slash "web/snack.money/about")).
    cbn. lia.
  - apply (proj1 (parsePaymentTarget_one_slash "x")). cbn. lia.
Defined.

(** X15: platform names are read without regard to case and normalise to
    themselves: when [normalizePlatform] maps a token to a name, it maps
    every token that differs from it in case only to the same name, and
    it maps that name to itself. *)
Theorem normalizePlatform_canonical (platform name : string) :
  Receiver.normalizePlatform platform = Ok (Receiver.Platform name) ->
  Receiver.normalizePlatform name = Ok (Receiver.Platform name)
  /\ (forall spelling,
         JS.toLowerCase spelling = JS.toLowerCase platform ->
         Receiver.normalizePlatform spelling = Ok (Receiver.Platform name))
  /\ Receiver.normalizePlatform (JS.toLowerCase platform)
     = Ok (Receiver.Platform name).
Proof.
  intros H.
  assert (Hspell : forall spelling,
             JS.toLowerCase spelling = JS.toLowerCase platform ->
             Receiver.normalizePlatform spelling = Ok (Receiver.Platform name)).
  { intros spelling E. unfold Receiver.normalizePlatform in *. rewrite E.
    destruct (Receiver.own (JS.toLowerCase platform) Receiver.platformMap);
      [exact H |].
    destruct (existsb (String.eqb (JS.toLowerCase platform)) Receiver.objectPrototype);
      discriminate H. }
  split; [| split; [exact Hspell |]].
  - assert (Hin : In name Receiver.allowedIdentities).
    { apply normalizePlatform_range in H. destruct H as [H | [key H]]; [| discriminate H].
      cbn [Receiver.allowed] in H. apply existsb_exists in H.
      destruct H as [k [Hk E]]. apply String.eqb_eq in E. subst. exact Hk. }
    cbn in Hin. destruct Hin as [<- | [<- | [<- | [<- | [<- | []]]]]]; reflexivity.
  - apply Hspell. apply toLowerCase_idempotent.
Qed.

Lemma normalizePlatform_canonical_witness :
  Receiver.normalizePlatform "x" = Ok (Receiver.Platform "x")
  /\ Receiver.normalizePlatform "TWITTER.com" = Ok (Receiver.Platform "x").
Proof.
  destruct (normalizePlatform_canonical "Twitter.Com" "x" eq_refl) as [Hn [Hs _]].
  split; [exact Hn | apply Hs; reflexivity].
Defined.

(** ** The key and the network of the signer *)

(** X16: no signer without its key: whenever the resolution lets a command go
    on, the private key of the network it selected is set in the
    environment, and not to the empty string; an explicit flag decides
    the network whatever keys are set, and without a flag the key of the
    other network is not set. *)
Theorem resolve_key_present
        (flag privateKey svmPrivateKey : option string) (useSolana : bool) :
  Network.resolve flag privateKey svmPrivateKey = Network.Run useSolana ->
  (exists key,
      (if useSolana then svmPrivateKey else privateKey) = Some key
      /\ key <> EmptyString)
  /\ (forall n, Network.given flag = Some n ->
                useSolana = String.eqb (JS.toLowerCase n) "solana")
  /\ (Network.given flag = None ->
      Network.hasKey (if useSolana then privateKey else svmPrivateKey) = false).
Proof.
  unfold Network.resolve, Network.useSolana. intros H.
  assert (Hkey : forall env, Network.hasKey env = true ->
                             exists key, env = Some key /\ key <> EmptyString).
  { intros [key |] E; [| discriminate E]. exists key. split; [reflexivity |].
    intros ->. discriminate E. }
  destruct (Network.given flag) as [n |].
  - destruct (negb (existsb (String.eqb (JS.toLowerCase n)) Network.allowedNetworks));
      [discriminate H |].
    destruct (String.eqb (JS.toLowerCase n) "solana") eqn:El;
      destruct (Network.hasKey privateKey) eqn:Ee;
      destruct (Network.hasKey svmPrivateKey) eqn:Es;
      cbn in H; inversion H; subst;
      (split; [apply Hkey; assumption | split; [| discriminate]]);
      intros m Hm; inversion Hm; subst; rewrite El; reflexivity.
  - destruct (Network.hasKey privateKey) eqn:Ee;
      destruct (Network.hasKey svmPrivateKey) eqn:Es;
      cbn in H; inversion H; subst;
      (split; [apply Hkey; assumption | split; [discriminate |]]);
      intros _; assumption.
Qed.

Lemma resolve_key_present_witness :
  Network.resolve None (Some "") (Some "5Kd3N") = Network.Run true
  /\ exists key, Some "5Kd3N" = Some key /\ key <> EmptyString.
Proof.
  split; [reflexivity |].
  exact (proj1 (resolve_key_present None (Some "") (Some "5Kd3N") true eq_refl)).
Defined.

Section SignerFacts.

Lemma default_not_local : Signer.isLocal Signer.defaultURL = false.
Proof. vm_compute. reflexivity. Qed.

Lemma isLocal_contains (url : string) :
  Signer.isLocal url = true <->
  contains url "localhost" \/ contains url "127.0.0.1".
Proof.
  unfold Signer.isLocal. rewrite orb_true_iff, !includes_contains. reflexivity.
Qed.

End SignerFacts.

(** X17: the Solana signer is made for the development network exactly when
    [RESOURCE_SERVER_URL] is set and contains [localhost] or
    [127.0.0.1], anywhere in it; in every other case, and so with the
    default server, it is made for the main network; the Base signer does
    not depend on the server; and the name the payment agent prints for
    the network is the one the other commands print. *)
Theorem signer_network (env : option string) (useSolana : bool) :
  (Signer.network true (Signer.baseURL env) = "solana-devnet" <->
   exists url, env = Some url
               /\ (contains url "localhost" \/ contains url "127.0.0.1"))
  /\ (Signer.network true (Signer.baseURL env) = "solana-devnet"
      \/ Signer.network true (Signer.baseURL env) = "solana")
  /\ Signer.network false (Signer.baseURL env) = "base"
  /\ Signer.networkName useSolana (Signer.baseURL env)
     = Signer.networkLabel useSolana
         (Signer.network useSolana (Signer.baseURL env)).
Proof.
  split; [| split; [| split]].
  - unfold Signer.network. split.
    + destruct (Signer.isLocal (Signer.baseURL env)) eqn:E; [| discriminate].
      intros _. unfold Signer.baseURL in E.
      destruct env as [url |]; [| rewrite default_not_local in E; discriminate E].
      destruct (JS.isEmpty url); [rewrite default_not_local in E; discriminate E |].
      exists url. split; [reflexivity | apply isLocal_contains; exact E].
    + intros [url [-> H]]. apply isLocal_contains in H. unfold Signer.baseURL.
      destruct url as [| c url]; [discriminate H |]. cbn [JS.isEmpty].
      rewrite H. reflexivity.
  - unfold Signer.network. destruct (Signer.isLocal (Signer.baseURL env)); auto.
  - reflexivity.
  - unfold Signer.networkName, Signer.networkLabel, Signer.network.
    destruct useSolana; [| reflexivity].
    destruct (Signer.isLocal (Signer.baseURL env)); reflexivity.
Qed.

(** ** What the commands post *)

Section CommandFacts.

Lemma send_amount_number (token : string) (v : JS.number) :
  Send.parseAmount token = Ok v -> JS.isNaN v = false.
Proof.
  unfold Send.parseAmount. intros H.
  repeat match type of H with
         | context [if ?b then _ else _] => destruct b eqn:?
         end; inversion H; subst; try assumption.
  apply divBy_not_NaN. assumption.
Qed.

Lemma allowed_name (identity : Receiver.identity) :
  Receiver.allowed identity = true ->
  exists name,
    identity = Receiver.Platform name /\ In name Receiver.allowedIdentities.
Proof.
  destruct identity as [name | key]; [| discriminate]. cbn [Receiver.allowed].
  intros H. apply existsb_exists in H. destruct H as [k [Hk E]].
  apply String.eqb_eq in E. subst k. exists name. split; [reflexivity | exact Hk].
Qed.

(** what a loop that succeeded went through *)
Lemma forEach_each {A B : Type} (f : A -> result B) (l : list A) (bs : list B) :
  forEach f l = Ok bs -> Forall (fun b => exists a, In a l /\ f a = Ok b) bs.
Proof.
  revert bs. induction l as [| a l IH]; intros bs H; cbn [forEach] in H.
  - inversion H. apply Forall_nil.
  - destruct (f a) as [b |] eqn:Ea; [| discriminate H]. cbn [bind] in H.
    destruct (forEach f l) as [rest |]; [| discriminate H]. cbn [bind] in H.
    inversion H; subst. apply Forall_cons.
    + exists a. split; [left; reflexivity | exact Ea].
    + specialize (IH rest eq_refl). apply Forall_forall. intros b' Hb'.
      rewrite Forall_forall in IH. destruct (IH b' Hb') as [a' [Hin Ha']].
      exists a'. split; [right; exact Hin | exact Ha'].
Qed.

Variable numberText : JS.number -> string.

Lemma compact_receivers (input : string) (parsed : BatchSend.batch) :
  BatchSend.parseCommaSeparated input = Ok parsed ->
  Forall (fun p => BatchSend.validateReceiverValue numberText
                     (BatchSend.platform parsed) (BatchSend.receiver p) = Ok tt)
         (BatchSend.payments parsed).
Proof.
  unfold BatchSend.parseCommaSeparated.
  destruct (JS.indexOf "/" input) as [firstSlash |]; [| discriminate].
  destruct (Receiver.normalizePlatform _) as [platform |]; [| discriminate].
  cbn [bind].
  match goal with
  | |- context [forEach ?f ?l] => destruct (forEach f l) as [payments |] eqn:E
  end; [| discriminate].
  cbn [bind]. intros H. inversion H; subst. cbn [BatchSend.platform BatchSend.payments].
  apply forEach_each in E. apply Forall_forall. intros p Hp.
  rewrite Forall_forall in E. destruct (E p Hp) as [pair [_ Hpair]].
  destruct (JS.lastIndexOf ":" pair) as [colonIndex |]; [| discriminate Hpair].
  destruct (Receiver.validateReceiver platform _) as [[] |] eqn:Ev;
    [| discriminate Hpair].
  cbn [bind] in Hpair.
  destruct (BatchSend.parseAmount _) as [amount |]; [| discriminate Hpair].
  cbn [bind] in Hpair. inversion Hpair; subst. cbn [BatchSend.receiver].
  unfold BatchSend.validateReceiverValue. cbn [Value.toText bind]. rewrite Ev.
  destruct (Receiver.allowed platform); reflexivity.
Qed.

Lemma json_receivers (data : value) (parsed : BatchSend.batch) :
  BatchSend.parseJSONPayments numberText data = Ok parsed ->
  Forall (fun p => BatchSend.validateReceiverValue numberText
                     (BatchSend.platform parsed) (BatchSend.receiver p) = Ok tt)
         (BatchSend.payments parsed).
Proof.
  unfold BatchSend.parseJSONPayments.
  destruct (Value.get data "platform") as [platformField |]; [| discriminate].
  cbn [bind]. destruct (negb (Value.truthy platformField)); [discriminate |].
  destruct (Value.get data "payments") as [paymentsField |]; [| discriminate].
  cbn [bind]. destruct paymentsField as [| | | | | items |]; try discriminate.
  match goal with
  | |- context [bind ?x _] => destruct x as [platform |]
  end; [| discriminate].
  cbn [bind].
  match goal with
  | |- context [forEach ?f ?l] => destruct (forEach f l) as [payments |] eqn:E
  end; [| discriminate].
  cbn [bind]. intros H. inversion H; subst. cbn [BatchSend.platform BatchSend.payments].
  apply forEach_each in E. apply Forall_forall. intros p Hp.
  rewrite Forall_forall in E. destruct (E p Hp) as [payment [_ Hpayment]].
  destruct (Value.get payment "receiver") as [receiver |]; [| discriminate Hpayment].
  cbn [bind] in Hpayment.
  destruct (negb (Value.truthy receiver)); [discriminate Hpayment |].
  destruct (Value.get payment "amount") as [amountField |]; [| discriminate Hpayment].
  cbn [bind] in Hpayment.
  destruct (BatchSend.validateReceiverValue numberText platform receiver)
    as [[] |] eqn:Ev;
    [| destruct amountField; discriminate Hpayment].
  destruct amountField; try discriminate Hpayment; cbn [bind] in Hpayment;
    match type of Hpayment with
    | context [BatchSend.parseAmount ?a] => destruct (BatchSend.parseAmount a)
    end; try discriminate Hpayment; cbn [bind] in Hpayment;
    inversion Hpayment; subst; exact Ev.
Qed.

End CommandFacts.

(** X18: the send command posts checked requests only: whenever it reaches its
    request, the two first arguments were strings, the identity is one of
    the five platform names, the receiver is the text after the one slash
    of the target and is valid on that platform, the amount is what
    [parseAmount] read and is a number, and the network is the one the
    resolution selected. *)
Theorem send_posts_checked_requests
        (positional : list value)
        (network privateKey svmPrivateKey : option string)
        (r : SendCommand.request) :
  SendCommand.command positional network privateKey svmPrivateKey
  = SendCommand.Post r ->
  (exists name,
      SendCommand.receiverIdentity r = Receiver.Platform name
      /\ In name Receiver.allowedIdentities)
  /\ Receiver.validateReceiver (SendCommand.receiverIdentity r)
       (SendCommand.receiver r) = Ok tt
  /\ JS.isNaN (SendCommand.amount r) = false
  /\ Network.resolve network privateKey svmPrivateKey
     = Network.Run (SendCommand.useSolana r)
  /\ exists platform amountStr rest,
       positional
       = Str (platform ++ "/" ++ SendCommand.receiver r) :: Str amountStr :: rest
       /\ Send.parseAmount amountStr = Ok (SendCommand.amount r).
Proof.
  unfold SendCommand.command.
  destruct positional as [| first [| second rest]]; try discriminate.
  destruct first as [| | | | target | |]; try discriminate.
  cbn [SendCommand.text bind].
  destruct (Send.parsePaymentTarget target) as [[identity receiver] |] eqn:Et;
    [| discriminate].
  cbn [bind]. destruct second as [| | | | amountStr | |]; try discriminate.
  cbn [SendCommand.text bind].
  destruct (Send.parseAmount amountStr) as [amount |] eqn:Ea; [| discriminate].
  cbn [bind]. destruct (Receiver.allowed identity) eqn:El; [| discriminate].
  cbn [negb].
  destruct (Network.resolve network privateKey svmPrivateKey) as [f | useSolana];
    [discriminate |].
  intros H. inversion H; subst r.
  cbn [SendCommand.receiverIdentity SendCommand.receiver SendCommand.amount
       SendCommand.useSolana].
  apply target_parts in Et. destruct Et as [platform [-> [_ [_ Hv]]]].
  split; [apply allowed_name; exact El |].
  split; [exact Hv |].
  split; [exact (send_amount_number _ _ Ea) |].
  split; [reflexivity |].
  exists platform, amountStr, rest. split; [reflexivity | exact Ea].
Qed.

Lemma send_posts_checked_requests_witness :
  SendCommand.command [Str "farcaster.xyz/toly"; Str "$0.5"]
    None None (Some "5Kd3N")
  = SendCommand.Post
      (SendCommand.Request (Receiver.Platform "farcaster") "toly"
         (JS.Fin (1 # 2)) true)
  /\ Receiver.validateReceiver (Receiver.Platform "farcaster") "toly" = Ok tt.
Proof.
  split; [reflexivity |].
  exact (proj1 (proj2 (send_posts_checked_requests
                         [Str "farcaster.xyz/toly"; Str "$0.5"]
                         None None (Some "5Kd3N") _ eq_refl))).
Defined.

(** X19: the batch command posts checked receivers only: whenever it reaches
    its request, whichever of the four forms its input had, the identity
    is one of the five platform names, every receiver of the batch passed
    the validator of that platform, and the network is the one the
    resolution selected. *)
Theorem batch_posts_checked_receivers
        (numberText : JS.number -> string)
        (JSON_parse loadFromFile loadFromURL : string -> result value)
        (positional : list value)
        (network privateKey svmPrivateKey : option string)
        (r : BatchSendCommand.request) :
  BatchSendCommand.init numberText JSON_parse loadFromFile loadFromURL
    positional network privateKey svmPrivateKey
  = BatchSendCommand.Post r ->
  (exists name,
      BatchSendCommand.receiverIdentity r = Receiver.Platform name
      /\ In name Receiver.allowedIdentities)
  /\ Forall (fun p => BatchSend.validateReceiverValue numberText
                        (BatchSendCommand.receiverIdentity r)
                        (BatchSend.receiver p) = Ok tt)
            (BatchSendCommand.receivers r)
  /\ Network.resolve network privateKey svmPrivateKey
     = Network.Run (BatchSendCommand.useSolana r).
Proof.
  unfold BatchSendCommand.init.
  destruct positional as [| first rest]; [discriminate |].
  destruct first as [| | | | input | |]; try discriminate.
  cbn [SendCommand.text bind].
  destruct (BatchSend.parseInput numberText JSON_parse loadFromFile loadFromURL input)
    as [parsed |] eqn:Ep; [| discriminate].
  destruct (Receiver.allowed (BatchSend.platform parsed)) eqn:El; [| discriminate].
  cbn [negb].
  destruct (Network.resolve network privateKey svmPrivateKey) as [f | useSolana];
    [discriminate |].
  intros H. inversion H; subst r.
  cbn [BatchSendCommand.receiverIdentity BatchSendCommand.receivers
       BatchSendCommand.useSolana].
  split; [apply allowed_name; exact El |]. split; [| reflexivity].
  unfold BatchSend.parseInput in Ep.
  destruct (JS.startsWith input "http://" || JS.startsWith input "https://").
  - destruct (loadFromURL input) as [data |]; [| discriminate Ep].
    exact (json_receivers numberText data parsed Ep).
  - destruct (JS.startsWith input "file:" || JS.endsWith input ".json").
    + destruct (loadFromFile input) as [data |]; [| discriminate Ep].
      exact (json_receivers numberText data parsed Ep).
    + destruct (JS.startsWith input "{").
      * destruct (JSON_parse input) as [data |]; [| discriminate Ep].
        exact (json_receivers numberText data parsed Ep).
      * exact (compact_receivers numberText input parsed Ep).
Qed.

Lemma batch_posts_checked_receivers_witness :
  BatchSendCommand.init (fun _ => EmptyString) (fun _ => Err SyntaxError)
    (fun _ => Err SyntaxError) (fun _ => Err SyntaxError)
    [Str "x/jessepollak:1"] (Some "base") (Some "0xabc") None
  = BatchSendCommand.Post
      (BatchSendCommand.Request (Receiver.Platform "x")
         [BatchSend.Payment (Str "jessepollak") (JS.Fin 1)] false)
  /\ exists name,
       Receiver.Platform "x" = Receiver.Platform name
       /\ In name Receiver.allowedIdentities.
Proof.
  split; [reflexivity |].
  exact (proj1 (batch_posts_checked_receivers (fun _ => EmptyString)
                  (fun _ => Err SyntaxError) (fun _ => Err SyntaxError)
                  (fun _ => Err SyntaxError)
                  [Str "x/jessepollak:1"] (Some "base") (Some "0xabc") None
                  _ eq_refl)).
Defined.

(** X20: the pay command by flags checks less: whenever it reaches its
    request, the identity is a string that is one of the five platform
    names up to case and is posted as it was given, the amount is the
    number read from the text of the flag, the network is the one the
    resolution selected, and the receiver has a text, for the line that
    is printed before the request; the receiver is posted as it was
    given and is never validated: on platform [x], every receiver that
    is not falsy and has a text goes through. *)
Theorem pay_posts_receiver_unchecked
        (numberText : JS.number -> string)
        (receiver_identity receiver amount : value)
        (network privateKey svmPrivateKey : option string) :
  (forall r,
      Pay.command numberText receiver_identity receiver amount
        network privateKey svmPrivateKey = Pay.Post r ->
      receiver_identity = Str (Pay.receiver_identity r)
      /\ In (JS.toLowerCase (Pay.receiver_identity r)) Receiver.allowedIdentities
      /\ Pay.receiver r = receiver
      /\ (exists receiverText, Value.toText numberText receiver = Ok receiverText)
      /\ (exists amountText,
             Value.toText numberText amount = Ok amountText
             /\ Pay.amount r = JS.parseFloat amountText)
      /\ JS.isNaN (Pay.amount r) = false
      /\ Network.resolve network privateKey svmPrivateKey
         = Network.Run (Pay.useSolana r))
  /\ (forall receiverText,
         Value.truthy receiver = true ->
         Value.toText numberText receiver = Ok receiverText ->
         numberText (JS.Fin (1 # 100)) = "0.01" ->
         Pay.command numberText (Str "x") receiver (Num (JS.Fin (1 # 100)))
           None None (Some "5Kd3N")
         = Pay.Post (Pay.Request "x" receiver (JS.Fin (1 # 100)) true)).
Proof.
  split.
  - intros r. unfold Pay.command.
    destruct (negb (Value.truthy receiver_identity) || negb (Value.truthy receiver)
              || negb (Value.truthy amount)); [discriminate |].
    destruct receiver_identity as [| | | | identity | |]; try discriminate.
    destruct (existsb (String.eqb (JS.toLowerCase identity)) Receiver.allowedIdentities)
      eqn:El; [| discriminate].
    cbn [negb].
    destruct (Value.toText numberText amount) as [amountText |] eqn:Et; [| discriminate].
    destruct (JS.isNaN (JS.parseFloat amountText)) eqn:En; [discriminate |].
    destruct (Network.resolve network privateKey svmPrivateKey) as [f | useSolana];
      [discriminate |].
    destruct (Value.toText numberText receiver) as [receiverText |] eqn:Er;
      [| discriminate].
    intros H. inversion H; subst r.
    cbn [Pay.receiver_identity Pay.receiver Pay.amount Pay.useSolana].
    split; [reflexivity |].
    split.
    { apply existsb_exists in El. destruct El as [k [Hk E]].
      apply String.eqb_eq in E. rewrite E. exact Hk. }
    split; [reflexivity |].
    split; [exists receiverText; reflexivity |].
    split; [exists amountText; split; reflexivity |].
    split; [exact En | reflexivity].
  - intros receiverText Ht Hr Hn. unfold Pay.command. rewrite Ht.
    cbn [Value.truthy JS.isEmpty negb orb Qeq_bool Value.toText].
    replace (negb (negb (Qeq_bool (1 # 100) 0))) with false by reflexivity.
    replace (existsb (String.eqb (JS.toLowerCase "x")) Receiver.allowedIdentities)
      with true by reflexivity.
    cbn [negb]. rewrite Hn, Hr. reflexivity.
Qed.

Lemma pay_posts_receiver_unchecked_witness :
  Pay.command (fun _ => "0.01") (Str "x") (Str "not a handle!")
    (Num (JS.Fin (1 # 100))) None None (Some "5Kd3N")
  = Pay.Post (Pay.Request "x" (Str "not a handle!") (JS.Fin (1 # 100)) true)
  /\ Receiver.validateXUsername "not a handle!"
     = Err (InvalidXUsername "not a handle!").
Proof.
  split; [| reflexivity].
  apply (proj2 (pay_posts_receiver_unchecked (fun _ => "0.01")
                  (Str "x") (Str "not a handle!") (Num (JS.Fin (1 # 100)))
                  None None (Some "5Kd3N")) "not a handle!").
  - reflexivity.
  - reflexivity.
  - reflexivity.
Defined.

(** ** Campaigns, around the validation *)

Section CampaignShapes.

Import Campaign.

Variable numberText : JS.number -> string.
Variable URL_valid : string -> bool.

(** a failed validation lists the reports of the fields *)
Lemma validation_errors (data : value) (errors : list string) :
  validateCampaignData numberText URL_valid data = Err (ValidationFailed errors) ->
  errors = concat (reports numberText URL_valid data) /\ errors <> [].
Proof.
  intros H.
  assert (Hu : data <> Undefined) by (intros ->; discriminate H).
  assert (Hn : data <> Null) by (intros ->; discriminate H).
  rewrite (validateCampaignData_reports numberText URL_valid data Hu Hn) in H.
  destruct (checkPlatform numberText (property data "platform") []) as [report | e] eqn:Ep.
  - destruct (concat (reports numberText URL_valid data)); inversion H.
    split; [reflexivity | discriminate].
  - inversion H; subst. apply checkPlatform_error in Ep. discriminate Ep.
Qed.

Lemma platformReport_one (v : value) :
  List.length (platformReport numberText v) <= 1
  /\ forall m, In m (platformReport numberText v) ->
               exists rest, m = "platform " ++ rest.
Proof.
  unfold platformReport, checkPlatform, push.
  destruct (negb (Value.truthy v)).
  - split; [cbn; lia |]. intros m [<- | []]. eexists. reflexivity.
  - destruct (negb (isCampaignPlatform v)); [| split; [cbn; lia | intros m []]].
    destruct (Value.toText numberText v) as [got |]; cbn [bind app];
      [| split; [cbn; lia | intros m []]].
    split; [cbn; lia |]. intros m [<- | []]. eexists. reflexivity.
Qed.

(** the reports of a text: one at most, by the label of the field, and
    with a lower bound of 1 never the report of a text too short *)
Lemma checkText_one (label : string) (min max : nat) (unit : string) (v : value) :
  List.length (checkText label min max unit v []) <= 1
  /\ forall m, In m (checkText label min max unit v []) ->
               (exists rest, m = label ++ " " ++ rest)
               /\ (min = 1 ->
                   m <> label ++ " must be at least 1 " ++ unit).
Proof.
  unfold checkText, push. cbn [app].
  assert (Hdiff : forall a b : string, a <> b -> forall l, l ++ a <> l ++ b).
  { intros a b Hab l. induction l as [| c l IH]; cbn; [exact Hab |].
    intros E. inversion E. contradiction. }
  destruct (negb (Value.truthy v)) eqn:Ht.
  - split; [cbn; lia |]. intros m [<- | []]. split; [eexists; reflexivity |].
    intros _. apply Hdiff. discriminate.
  - destruct v as [| | b | n | s | items | fields];
      try (split; [cbn; lia |]; intros m [<- | []];
           split; [eexists; reflexivity |]; intros _; apply Hdiff; discriminate).
    destruct (Nat.ltb (String.length s) min) eqn:E1.
    + split; [cbn; lia |]. intros m [<- | []]. split; [eexists; reflexivity |].
      intros ->. apply Nat.ltb_lt in E1. destruct s; [discriminate Ht | cbn in E1; lia].
    + destruct (Nat.ltb max (String.length s)); [| split; [cbn; lia | intros m []]].
      split; [cbn; lia |]. intros m [<- | []]. split; [eexists; reflexivity |].
      intros _. apply Hdiff. discriminate.
Qed.

Lemma checkTotalCookies_one (v : value) :
  List.length (checkTotalCookies v []) <= 1
  /\ forall m, In m (checkTotalCookies v []) ->
               exists rest, m = "totalCookies " ++ rest.
Proof.
  unfold checkTotalCookies, push. cbn [app].
  destruct v as [| | b | n | s | items | fields];
    try (split; [cbn; lia |]; intros m [<- | []]; eexists; reflexivity).
  destruct (negb (JS.isInteger n));
    [split; [cbn; lia |]; intros m [<- | []]; eexists; reflexivity |].
  destruct (JS.ltb n (JS.ofN 3));
    [split; [cbn; lia |]; intros m [<- | []]; eexists; reflexivity |].
  destruct (JS.ltb (JS.ofN 10) n);
    [split; [cbn; lia |]; intros m [<- | []]; eexists; reflexivity |].
  split; [cbn; lia | intros m []].
Qed.

Lemma checkUrl_one (v : value) :
  List.length (checkUrl URL_valid v []) <= 1
  /\ forall m, In m (checkUrl URL_valid v []) ->
               exists rest, m = "sponsor.url " ++ rest.
Proof.
  unfold checkUrl, push. cbn [app].
  destruct v as [| | b | n | s | items | fields];
    try solve [split; [cbn; lia | intros m []]];
    try solve [split; [cbn; lia |]; intros m [<- | []]; eexists; reflexivity].
  destruct (URL_valid s); [split; [cbn; lia | intros m []] |].
  split; [cbn; lia |]. intros m [<- | []]. eexists. reflexivity.
Qed.

End CampaignShapes.

(** X21: a failed validation reports each field once at most: its error lists
    one to seven violations, one for each of the platform, the name, the
    description, the number of cookies, and either the sponsor or its
    name, its handle and its URL. *)
Theorem validation_reports_each_field_once
        (numberText : JS.number -> string) (URL_valid : string -> bool)
        (data : value) (errors : list string) :
  Campaign.validateCampaignData numberText URL_valid data
  = Err (ValidationFailed errors) ->
  1 <= List.length errors <= 7
  /\ errors = concat (reports numberText URL_valid data)
  /\ Forall (fun report => List.length report <= 1)
            (firstn 4 (reports numberText URL_valid data)).
Proof.
  intros H. destruct (validation_errors numberText URL_valid data errors H) as [-> Hne].
  pose proof (platformReport_one numberText (property data "platform")) as [Hp _].
  pose proof (checkText_one "name" 3 100 "characters" (property data "name")) as [Hn _].
  pose proof (checkText_one "description" 10 500 "characters"
                (property data "description")) as [Hd _].
  pose proof (checkTotalCookies_one (property data "totalCookies")) as [Hc _].
  pose proof (checkText_one "sponsor.name" 1 100 "character"
                (property (property data "sponsor") "name")) as [Hsn _].
  pose proof (checkText_one "sponsor.handle" 1 50 "character"
                (property (property data "sponsor") "handle")) as [Hsh _].
  pose proof (checkUrl_one URL_valid (property (property data "sponsor") "url"))
    as [Hsu _].
  split; [| split; [reflexivity |]].
  - split.
    + destruct (concat (reports numberText URL_valid data));
        [contradiction Hne; reflexivity | cbn; lia].
    + unfold reports. cbn [concat]. rewrite !length_app. cbn [List.length].
      destruct (Value.truthy (property data "sponsor")).
      * rewrite !length_app. lia.
      * cbn [List.length]. lia.
  - unfold reports. cbn [firstn].
    repeat apply Forall_cons; try apply Forall_nil; assumption.
Qed.

Lemma validation_reports_each_field_once_witness :
  Campaign.validateCampaignData (fun _ => EmptyString) (fun _ => false)
    (Obj [("sponsor", Obj [("url", Str "snack.money")])])
  = Err (ValidationFailed
           [ "platform is required (must be 'x' or 'farcaster')";
             "name is required"; "description is required";
             "totalCookies is required"; "sponsor.name is required";
             "sponsor.handle is required";
             "sponsor.url must be a valid URL: snack.money" ])
  /\ 1 <= List.length
            [ "platform is required (must be 'x' or 'farcaster')";
              "name is required"; "description is required";
              "totalCookies is required"; "sponsor.name is required";
              "sponsor.handle is required";
              "sponsor.url must be a valid URL: snack.money" ] <= 7.
Proof.
  split; [reflexivity |].
  exact (proj1 (validation_reports_each_field_once (fun _ => EmptyString)
                  (fun _ => false)
                  (Obj [("sponsor", Obj [("url", Str "snack.money")])])
                  _ eq_refl)).
Defined.

(** X22: two messages of the validation are never given: a sponsor name or
    handle that is the empty string is reported as missing, by the check
    that comes first, and never as shorter than one character. *)
Theorem validation_never_reports_empty_sponsor_text
        (numberText : JS.number -> string) (URL_valid : string -> bool)
        (data : value) (errors : list string) :
  Campaign.validateCampaignData numberText URL_valid data
  = Err (ValidationFailed errors) ->
  ~ In "sponsor.name must be at least 1 character" errors
  /\ ~ In "sponsor.handle must be at least 1 character" errors.
Proof.
  intros H. destruct (validation_errors numberText URL_valid data errors H) as [-> _].
  assert (Hgeneral : forall m,
             m = "sponsor.name must be at least 1 character"
             \/ m = "sponsor.handle must be at least 1 character" ->
             ~ In m (concat (reports numberText URL_valid data))).
  { intros m Hm Hin. apply in_concat in Hin. destruct Hin as [report [Hr Hin]].
    unfold reports in Hr. cbn [In] in Hr.
    destruct Hr as [<- | [<- | [<- | [<- | [<- | []]]]]].
    - apply (proj2 (platformReport_one numberText _)) in Hin.
      destruct Hin as [rest ->]. destruct Hm as [E | E]; discriminate E.
    - apply (proj2 (checkText_one _ _ _ _ _)) in Hin.
      destruct Hin as [[rest ->] _]. destruct Hm as [E | E]; discriminate E.
    - apply (proj2 (checkText_one _ _ _ _ _)) in Hin.
      destruct Hin as [[rest ->] _]. destruct Hm as [E | E]; discriminate E.
    - apply (proj2 (checkTotalCookies_one _)) in Hin.
      destruct Hin as [rest ->]. destruct Hm as [E | E]; discriminate E.
    - destruct (Value.truthy (property data "sponsor")).
      + apply in_app_or in Hin. destruct Hin as [Hin | Hin].
        * apply (proj2 (checkText_one _ _ _ _ _)) in Hin.
          destruct Hin as [[rest E] Hshort]. specialize (Hshort eq_refl).
          destruct Hm as [-> | ->]; [exact (Hshort eq_refl) | discriminate E].
        * apply in_app_or in Hin. destruct Hin as [Hin | Hin].
          -- apply (proj2 (checkText_one _ _ _ _ _)) in Hin.
             destruct Hin as [[rest E] Hshort]. specialize (Hshort eq_refl).
             destruct Hm as [-> | ->]; [discriminate E | exact (Hshort eq_refl)].
          -- apply (proj2 (checkUrl_one URL_valid _)) in Hin.
             destruct Hin as [rest ->]. destruct Hm as [E | E]; discriminate E.
      + destruct Hin as [<- | []]. destruct Hm as [E | E]; discriminate E. }
  split; apply Hgeneral; auto.
Qed.

Lemma validation_never_reports_empty_sponsor_text_witness :
  Campaign.validateCampaignData (fun _ => EmptyString) (fun _ => true)
    (Obj [ ("platform", Str "x"); ("name", Str "Free cookies");
           ("description", Str "Cookies for everyone");
           ("totalCookies", Num (JS.Fin 5));
           ("sponsor", Obj [("name", Str ""); ("handle", Str "")]) ])
  = Err (ValidationFailed ["sponsor.name is required"; "sponsor.handle is required"])
  /\ ~ In "sponsor.name must be at least 1 character"
          ["sponsor.name is required"; "sponsor.handle is required"].
Proof.
  split; [reflexivity |].
  exact (proj1 (validation_never_reports_empty_sponsor_text
                  (fun _ => EmptyString) (fun _ => true)
                  (Obj [ ("platform", Str "x"); ("name", Str "Free cookies");
                         ("description", Str "Cookies for everyone");
                         ("totalCookies", Num (JS.Fin 5));
                         ("sponsor", Obj [("name", Str ""); ("handle", Str "")]) ])
                  _ eq_refl)).
Defined.

(** ** Campaigns, after the validation *)

Section CampaignAfter.

Variable numberText : JS.number -> string.
Variable URL_valid : string -> bool.

Lemma validated_fields (data v : value) :
  Campaign.validateCampaignData numberText URL_valid data = Ok v ->
  v = data
  /\ platformWithin (property data "platform")
  /\ cookiesWithin (property data "totalCookies").
Proof.
  intros H.
  assert (Hu : data <> Undefined) by (intros ->; discriminate H).
  assert (Hn : data <> Null) by (intros ->; discriminate H).
  rewrite (validateCampaignData_reports numberText URL_valid data Hu Hn) in H.
  destruct (Campaign.checkPlatform numberText (property data "platform") [])
    as [report | e] eqn:Ep; [| discriminate H].
  destruct (concat (reports numberText URL_valid data)) eqn:Ec; inversion H; subst.
  split; [reflexivity |].
  unfold reports in Ec. cbn [concat] in Ec.
  apply app_eq_nil in Ec. destruct Ec as [Hplatform Ec].
  apply app_eq_nil in Ec. destruct Ec as [_ Ec].
  apply app_eq_nil in Ec. destruct Ec as [_ Ec].
  apply app_eq_nil in Ec. destruct Ec as [Hcookies _].
  split.
  - unfold platformReport in Hplatform. rewrite Ep in Hplatform. subst report.
    apply (checkPlatform_clean numberText). exact Ep.
  - apply checkTotalCookies_clean. exact Hcookies.
Qed.

End CampaignAfter.

(** X23: what a validated campaign costs and where it goes: the cost is the
    number of cookies, one dollar each, a whole number from 3 to 10, and
    the campaign is posted to one of two paths, that of [x] or that of
    [farcaster]. *)
Theorem validated_campaign_cost
        (numberText : JS.number -> string) (URL_valid : string -> bool)
        (data campaignData : value) :
  Campaign.validateCampaignData numberText URL_valid data = Ok campaignData ->
  (exists platform,
      property campaignData "platform" = Str platform
      /\ (CampaignCommand.endpoint platform = "/campaigns/x/create"
          \/ CampaignCommand.endpoint platform = "/campaigns/farcaster/create"))
  /\ exists totalCookies (z : Z),
       property campaignData "totalCookies" = Num totalCookies
       /\ (3 <= z <= 10)%Z
       /\ CampaignCommand.totalCost totalCookies CampaignCommand.getCookieValue
          = JS.fin (inject_Z z).
Proof.
  intros H. apply validated_fields in H. destruct H as [-> [Hp Hc]]. split.
  - destruct Hp as [Hp | Hp]; rewrite Hp; eexists; (split; [reflexivity |]);
      [left | right]; reflexivity.
  - destruct Hc as [q [z [Hq [Hz Hb]]]]. exists (JS.Fin q), z.
    split; [exact Hq | split; [exact Hb |]].
    unfold CampaignCommand.totalCost, CampaignCommand.getCookieValue, JS.ofN, JS.fin.
    cbn [CampaignCommand.times]. unfold JS.fin. f_equal. apply Qred_complete.
    rewrite Qred_correct, Hz. change (inject_Z (Z.of_N 1)) with 1%Q.
    apply Qmult_1_r.
Qed.

Lemma validated_campaign_cost_witness :
  let data :=
    Obj [ ("platform", Str "x");
          ("name", Str "5 Free Cookies Campaign");
          ("description", Str "Send free cookies to your friends!");
          ("totalCookies", Num (JS.Fin 5));
          ("sponsor", Obj [ ("name", Str "Snack Money");
                            ("handle", Str "snackmoneyapp");
                            ("url", Str "https://snack.money") ]) ] in
  Campaign.validateCampaignData (fun _ => EmptyString) (fun _ => true) data = Ok data
  /\ exists totalCookies (z : Z),
       property data "totalCookies" = Num totalCookies /\ (3 <= z <= 10)%Z
       /\ CampaignCommand.totalCost totalCookies CampaignCommand.getCookieValue
          = JS.fin (inject_Z z).
Proof.
  intros data. split; [reflexivity |].
  exact (proj2 (validated_campaign_cost (fun _ => EmptyString) (fun _ => true)
                  data data eq_refl)).
Defined.

Section AnswerFacts.

Lemma lowered_letter (c x : ascii) :
  In x ["y"; "e"; "s"]%char -> JS.lower c = x ->
  c = x \/ c = ascii_of_nat (nat_of_ascii x - 32).
Proof.
  intros [<- | [<- | [<- | []]]];
    destruct c as [[] [] [] [] [] [] [] []]; vm_compute; intros H;
    solve [discriminate H | auto].
Qed.

End AnswerFacts.

(** X24: the payment of a campaign is confirmed by the answers [y] and [yes]
    in any letter case and by nothing else: not by an answer with white
    space around it, not by any other word. *)
Theorem confirmed_answers (answer : string) :
  CampaignCommand.confirmed answer = true <->
  In answer ["y"; "Y"; "yes"; "yeS"; "yEs"; "yES"; "Yes"; "YeS"; "YEs"; "YES"].
Proof.
  unfold CampaignCommand.confirmed. split.
  - intros H. apply orb_true_iff in H. destruct H as [H | H];
      apply String.eqb_eq in H.
    + destruct answer as [| c [| d r]]; try discriminate H.
      cbn [JS.toLowerCase] in H. inversion H as [Hc].
      apply (lowered_letter c "y") in Hc; [| cbn; auto].
      destruct Hc as [-> | ->]; cbn; auto.
    + destruct answer as [| c1 [| c2 [| c3 [| c4 r]]]]; try discriminate H.
      cbn [JS.toLowerCase] in H. inversion H as [[H1 H2 H3]].
      apply (lowered_letter c1 "y") in H1; [| cbn; auto].
      apply (lowered_letter c2 "e") in H2; [| cbn; auto].
      apply (lowered_letter c3 "s") in H3; [| cbn; auto].
      destruct H1 as [-> | ->]; destruct H2 as [-> | ->]; destruct H3 as [-> | ->];
        cbn; tauto.
  - intros H. cbn [In] in H.
    repeat (destruct H as [<- | H]; [reflexivity |]). contradiction H.
Qed.

(** ** The command line *)

Section CliFacts.

Lemma own_in (k v : string) (m : list (string * string)) :
  Receiver.own k m = Some v -> In (k, v) m.
Proof.
  induction m as [| [k' v'] m IH]; [discriminate |]. cbn [Receiver.own].
  destruct (String.eqb k k') eqn:E.
  - intros H. inversion H; subst. apply String.eqb_eq in E. subst. left. reflexivity.
  - intros H. right. exact (IH H).
Qed.

End CliFacts.

(** X25: the command line runs its own scripts only: a script is run exactly
    when the first argument is one of the four command names, the script
    is the one the table gives for that name, and it is handed the
    arguments that follow, unchanged, a [--help] among them too. *)
Theorem cli_runs_its_scripts
        (args : list string) (commandFile : string) (commandArgs : list string) :
  Cli.main args = Cli.RunCommand commandFile commandArgs <->
  exists command,
    args = command :: commandArgs /\ In (command, commandFile) Cli.commands.
Proof.
  split.
  - unfold Cli.main. destruct args as [| command rest]; [discriminate |].
    destruct (String.eqb command "--help" || String.eqb command "-h"); [discriminate |].
    destruct (String.eqb command "--version" || String.eqb command "-v");
      [discriminate |].
    destruct (Receiver.own command Cli.commands) as [file |] eqn:E.
    + intros H. inversion H; subst. exists command.
      split; [reflexivity | apply own_in; exact E].
    + destruct (existsb (String.eqb command) Receiver.objectPrototype); discriminate.
  - intros [command [-> Hin]]. cbn [Cli.commands In] in Hin.
    destruct Hin as [E | [E | [E | [E | []]]]]; inversion E; subst; reflexivity.
Qed.

(** ** The payments of the agent *)


Section GroupFacts.

Import AgentCommand.

Lemma lookup_keys (k : string) (g : groups) :
  lookup k g = None <-> ~ In k (map fst g).
Proof.
  induction g as [| [k' rs] g IH]; cbn [lookup map fst In]; [tauto |].
  destruct (String.eqb k k') eqn:E.
  - apply String.eqb_eq in E. subst. split; [discriminate | intros H; tauto].
  - apply String.eqb_neq in E. rewrite IH. split; [| tauto].
    intros H [Hk | Hk]; [congruence | exact (H Hk)].
Qed.

Lemma pushTo_keys (k : string) (r : share) (g : groups) :
  map fst (pushTo k r g) = map fst g.
Proof.
  induction g as [| [k' rs] g IH]; [reflexivity |]. cbn [pushTo].
  destruct (String.eqb k k'); cbn [map fst]; [| rewrite IH]; reflexivity.
Qed.

Lemma pushTo_in (k : string) (r : share) (g : groups) (k' : string) (rs : list share) :
  NoDup (map fst g) ->
  In (k', rs) (pushTo k r g) ->
  (k' <> k /\ In (k', rs) g)
  \/ (k' = k /\ exists rs0, In (k, rs0) g /\ rs = (rs0 ++ [r])%list).
Proof.
  induction g as [| [k0 rs0] g IH]; intros Hnd Hin; [contradiction Hin |].
  cbn [pushTo] in Hin. cbn [map fst] in Hnd. inversion Hnd as [| ? ? Hout Hrest]; subst.
  destruct (String.eqb k k0) eqn:E.
  - apply String.eqb_eq in E. subst k0. destruct Hin as [Hin | Hin].
    + inversion Hin; subst. right. split; [reflexivity |].
      exists rs0. split; [left; reflexivity | reflexivity].
    + left. split; [| right; exact Hin]. intros ->. apply Hout.
      apply (in_map fst) in Hin. exact Hin.
  - apply String.eqb_neq in E. destruct Hin as [Hin | Hin].
    + inversion Hin; subst. left. split; [congruence | left; reflexivity].
    + destruct (IH Hrest Hin) as [[Hne Hg] | [-> [rs1 [Hg ->]]]].
      * left. split; [exact Hne | right; exact Hg].
      * right. split; [reflexivity |]. exists rs1. split; [right; exact Hg | reflexivity].
Qed.

Lemma onPlatform_last (k : string) (done : list Agent.instruction)
      (i : Agent.instruction) :
  onPlatform k (done ++ [i])
  = (onPlatform k done
     ++ if String.eqb (Agent.platform i) k then [i] else [])%list.
Proof. unfold onPlatform. rewrite filter_app. reflexivity. Qed.

Lemma add_groups (g : groups) (done : list Agent.instruction)
      (i : Agent.instruction) :
  groupedBy g done ->
  ~ In (Agent.platform i) Receiver.objectPrototype ->
  exists g', add g i = Ok g' /\ groupedBy g' (done ++ [i]).
Proof.
  intros [Hnd [Hgroups [Hall Hplain]]] Hi. unfold add.
  destruct (lookup (Agent.platform i) g) as [rs0 |] eqn:El.
  - eexists. split; [reflexivity |].
    assert (Hk : In (Agent.platform i) (map fst g)).
    { destruct (in_dec string_dec (Agent.platform i) (map fst g)) as [H | H];
        [exact H |].
      apply lookup_keys in H. rewrite H in El. discriminate El. }
    split; [rewrite pushTo_keys; exact Hnd |].
    split; [| split].
    + intros k rs Hin. apply pushTo_in in Hin; [| exact Hnd].
      rewrite onPlatform_last.
      destruct Hin as [[Hne Hin] | [-> [rs1 [Hin ->]]]].
      * replace (String.eqb (Agent.platform i) k) with false
          by (symmetry; apply String.eqb_neq; congruence).
        rewrite app_nil_r. exact (Hgroups k rs Hin).
      * rewrite String.eqb_refl. destruct (Hgroups _ _ Hin) as [-> _].
        split; [rewrite map_app; reflexivity |].
        intros E. apply app_eq_nil in E. destruct E as [_ E]. discriminate E.
    + rewrite pushTo_keys. intros j Hj. apply in_app_or in Hj.
      destruct Hj as [Hj | [<- | []]]; [exact (Hall j Hj) | exact Hk].
    + rewrite pushTo_keys. exact Hplain.
  - apply lookup_keys in El.
    replace (existsb (String.eqb (Agent.platform i)) Receiver.objectPrototype)
      with false.
    2:{ symmetry. apply not_true_is_false. intros H. apply existsb_exists in H.
        destruct H as [k [Hk E]]. apply String.eqb_eq in E. subst k. exact (Hi Hk). }
    eexists. split; [reflexivity |].
    split; [| split; [| split]].
    + rewrite map_app. cbn [map fst]. apply NoDup_app.
      * exact Hnd.
      * apply NoDup_cons; [intros [] | apply NoDup_nil].
      * intros k Hk [<- | []]. exact (El Hk).
    + intros k rs Hin. rewrite onPlatform_last. apply in_app_or in Hin.
      destruct Hin as [Hin | [Hin | []]].
      * replace (String.eqb (Agent.platform i) k) with false.
        -- rewrite app_nil_r. exact (Hgroups k rs Hin).
        -- symmetry. apply String.eqb_neq. intros <-. apply El.
           apply (in_map fst) in Hin. exact Hin.
      * inversion Hin; subst. rewrite String.eqb_refl.
        replace (onPlatform (Agent.platform i) done) with (@nil Agent.instruction).
        -- split; [reflexivity | discriminate].
        -- symmetry. unfold onPlatform.
           destruct (filter _ done) as [| j rest] eqn:Ef; [reflexivity |].
           exfalso. assert (Hj : In j (filter (fun i0 => String.eqb (Agent.platform i0)
                                                        (Agent.platform i)) done))
             by (rewrite Ef; left; reflexivity).
           apply filter_In in Hj. destruct Hj as [Hj E]. apply String.eqb_eq in E.
           apply El. rewrite <- E. exact (Hall j Hj).
    + intros j Hj. rewrite map_app. apply in_or_app. apply in_app_or in Hj.
      destruct Hj as [Hj | [<- | []]]; [left; exact (Hall j Hj) | right; left; reflexivity].
    + intros k Hk. rewrite map_app in Hk. apply in_app_or in Hk.
      destruct Hk as [Hk | [<- | []]]; [exact (Hplain k Hk) | exact Hi].
Qed.

Lemma reduce_groups (rest done : list Agent.instruction) (g : groups) :
  groupedBy g done ->
  Forall (fun i => ~ In (Agent.platform i) Receiver.objectPrototype) rest ->
  exists g', reduce g rest = Ok g' /\ groupedBy g' (done ++ rest).
Proof.
  revert done g. induction rest as [| i rest IH]; intros done g Hg Hrest.
  - exists g. rewrite app_nil_r. split; [reflexivity | exact Hg].
  - inversion Hrest as [| ? ? Hi Hothers]; subst.
    destruct (add_groups g done i Hg Hi) as [g1 [Ha Hg1]].
    destruct (IH (done ++ [i])%list g1 Hg1 Hothers) as [g' [Hr Hg']].
    exists g'. cbn [reduce]. rewrite Ha. cbn [bind].
    rewrite <- app_assoc in Hg'. split; [exact Hr | exact Hg'].
Qed.

(** the shares of the groups are what the instructions ask for *)
Lemma groups_shares (g : groups) (done : list Agent.instruction) :
  groupedBy g done ->
  Permutation (concat (map shares g)) (map due done).
Proof.
  intros [Hnd [Hgroups [Hall _]]].
  revert done Hgroups Hall. induction g as [| [k rs] g IH]; intros done Hgroups Hall.
  - destruct done as [| i done]; [apply perm_nil |].
    contradiction (Hall i (or_introl eq_refl)).
  - cbn [map fst] in Hnd. inversion Hnd as [| ? ? Hout Hrest]; subst.
    cbn [map concat].
    set (others := filter (fun i => negb (String.eqb (Agent.platform i) k)) done).
    assert (Hsplit : Permutation (map due done)
                       (map due (onPlatform k done) ++ map due others)).
    { unfold onPlatform, others. clear. induction done as [| i done IHd]; [apply perm_nil |].
      cbn [filter map]. destruct (String.eqb (Agent.platform i) k); cbn [negb map app].
      - apply perm_skip. exact IHd.
      - apply Permutation_cons_app. exact IHd. }
    rewrite Hsplit. apply Permutation_app.
    + destruct (Hgroups k rs (or_introl eq_refl)) as [-> _].
      unfold shares. cbn [fst snd]. rewrite map_map.
      assert (E : map (fun x => (k, to (shareOf x), sum (shareOf x))) (onPlatform k done)
                  = map due (onPlatform k done)).
      { apply map_ext_in. intros i Hi. unfold onPlatform in Hi.
        apply filter_In in Hi. destruct Hi as [_ E]. apply String.eqb_eq in E.
        unfold due. rewrite E. reflexivity. }
      rewrite E. apply Permutation_refl.
    + apply (IH Hrest others).
      * intros k' rs' Hin. destruct (Hgroups k' rs' (or_intror Hin)) as [-> Hne].
        split; [| exact Hne]. f_equal. unfold onPlatform, others.
        assert (Hk : k' <> k).
        { intros ->. apply Hout. apply (in_map fst) in Hin. exact Hin. }
        clear - Hk. induction done as [| i done IHd]; [reflexivity |].
        cbn [filter]. destruct (String.eqb (Agent.platform i) k') eqn:E1;
          destruct (String.eqb (Agent.platform i) k) eqn:E2; cbn [negb filter].
        -- apply String.eqb_eq in E1, E2. congruence.
        -- rewrite E1. f_equal. exact IHd.
        -- exact IHd.
        -- rewrite E1. exact IHd.
      * intros i Hi. unfold others in Hi. apply filter_In in Hi.
        destruct Hi as [Hi E]. apply negb_true_iff, String.eqb_neq in E.
        destruct (Hall i Hi) as [Hk | Hk]; [cbn in Hk; congruence | exact Hk].
Qed.

Lemma concat_permutation {A : Type} (l l' : list (list A)) :
  Permutation l l' -> Permutation (concat l) (concat l').
Proof.
  induction 1 as [| x l l' _ IH | x y l | l l' l'' _ IH1 _ IH2]; cbn [concat].
  - apply perm_nil.
  - apply Permutation_app_head. exact IH.
  - rewrite !app_assoc. apply Permutation_app_tail. apply Permutation_app_comm.
  - exact (perm_trans IH1 IH2).
Qed.

Lemma insertByIndex_permutation (i : N) (e : string * list share)
      (sorted : list (N * (string * list share))) :
  Permutation (insertByIndex i e sorted) ((i, e) :: sorted).
Proof.
  induction sorted as [| [j f] sorted IH]; [apply Permutation_refl |].
  cbn [insertByIndex]. destruct (N.ltb i j); [apply Permutation_refl |].
  rewrite IH. apply perm_swap.
Qed.

(** [Object.entries] yields every property once *)
Lemma entries_permutation (g : groups) : Permutation (entries g) g.
Proof.
  unfold entries. induction g as [| e g IH]; [apply perm_nil |].
  cbn [indexed named filter]. destruct (arrayIndex (fst e)) as [i |].
  - rewrite insertByIndex_permutation. cbn [map snd app].
    apply perm_skip. exact IH.
  - apply Permutation_sym, Permutation_cons_app, Permutation_sym. exact IH.
Qed.

(** the payment of an entry pays its shares *)
Lemma paymentFor_shares (g : groups) (instructions : list Agent.instruction)
      (entry : string * list share) :
  groupedBy g instructions -> In entry g ->
  exists p,
    paymentFor instructions entry = Ok p
    /\ paid p = shares entry /\ platformOf p = fst entry
    /\ shaped instructions p.
Proof.
  intros [_ [Hgroups _]] Hin. destruct entry as [k rs].
  destruct (Hgroups k rs Hin) as [Hrs Hne].
  unfold paymentFor. cbn [fst snd].
  destruct rs as [| r [| r2 rest]]; [contradiction Hne; reflexivity | |].
  - unfold find.
    destruct (onPlatform k instructions) as [| i0 [| i1 more]] eqn:Eo;
      try discriminate Hrs.
    inversion Hrs as [Hr]. clear Hrs.
    assert (Hi0 : In i0 instructions /\ Agent.platform i0 = k).
    { assert (H : In i0 (onPlatform k instructions)) by (rewrite Eo; left; reflexivity).
      unfold onPlatform in H. apply filter_In in H. destruct H as [H E].
      apply String.eqb_eq in E. split; assumption. }
    destruct Hi0 as [Hin0 Hk0].
    destruct (List.find _ instructions) as [inst |] eqn:Ef.
    + apply find_some in Ef. destruct Ef as [Hinst E].
      apply andb_true_iff in E. destruct E as [E1 E2].
      assert (Hsame : inst = i0).
      { assert (H : In inst (onPlatform k instructions)).
        { unfold onPlatform. apply filter_In. split; assumption. }
        rewrite Eo in H. destruct H as [H | []]. symmetry. exact H. }
      subst inst. exists (Single i0). split; [reflexivity |].
      cbn [paid platformOf shaped]. unfold due, shares, shareOf. cbn [map fst snd to sum].
      rewrite Hk0. split; [reflexivity | split; [reflexivity | exact Eo]].
    + exfalso. pose proof (find_none _ _ Ef i0 Hin0) as Hnone. cbn beta in Hnone.
      rewrite Hk0, String.eqb_refl in Hnone. cbn [andb to shareOf] in Hnone.
      rewrite String.eqb_refl in Hnone. discriminate Hnone.
  - exists (Batch k (r :: r2 :: rest)). split; [reflexivity |].
    split; [reflexivity | split; [reflexivity |]].
    cbn [shaped]. split; [cbn [List.length]; lia | exact Hrs].
Qed.

Lemma forEach_payments (g : groups) (instructions : list Agent.instruction)
      (l : list (string * list share)) :
  groupedBy g instructions -> incl l g ->
  exists ps,
    forEach (paymentFor instructions) l = Ok ps
    /\ concat (map paid ps) = concat (map shares l)
    /\ map platformOf ps = map fst l
    /\ Forall (shaped instructions) ps.
Proof.
  intros Hg. induction l as [| entry l IH]; intros Hl.
  - exists []. repeat split. apply Forall_nil.
  - destruct (paymentFor_shares g instructions entry Hg (Hl entry (or_introl eq_refl)))
      as [p [Hp [Hpaid [Hplatform Hshape]]]].
    destruct (IH (fun e He => Hl e (or_intror He))) as [ps [Hps [Hc [Hm Hshapes]]]].
    exists (p :: ps). cbn [forEach]. rewrite Hp. cbn [bind]. rewrite Hps. cbn [bind].
    cbn [map concat]. rewrite Hpaid, Hc, Hplatform, Hm.
    split; [reflexivity | split; [reflexivity | split; [reflexivity |]]].
    apply Forall_cons; assumption.
Qed.

Lemma main_payments (instructions : list Agent.instruction) :
  instructions <> [] ->
  Forall (fun i => ~ In (Agent.platform i) Receiver.objectPrototype) instructions ->
  exists payments,
    main instructions = Payments payments
    /\ Permutation (concat (map paid payments)) (map due instructions)
    /\ NoDup (map platformOf payments)
    /\ Forall (shaped instructions) payments.
Proof.
  intros Hne Hall.
  assert (Hempty : groupedBy [] []).
  { split; [apply NoDup_nil |]. repeat split; intros; contradiction. }
  destruct (reduce_groups instructions [] [] Hempty Hall) as [g [Hr Hg]].
  cbn [app] in Hg.
  destruct (forEach_payments g instructions (entries g) Hg)
    as [ps [Hps [Hc [Hm Hshapes]]]].
  { intros e He. apply (Permutation_in _ (entries_permutation g)). exact He. }
  exists ps. unfold main, byPlatform.
  destruct instructions as [| i rest]; [contradiction Hne; reflexivity |].
  rewrite Hr. cbn [bind]. rewrite Hps.
  split; [reflexivity | split; [| split]].
  - rewrite Hc. rewrite <- (groups_shares g _ Hg).
    apply concat_permutation. apply Permutation_map. apply entries_permutation.
  - rewrite Hm. destruct Hg as [Hnd _].
    apply (Permutation_NoDup (l := map fst g)); [| exact Hnd].
    apply Permutation_map, Permutation_sym, entries_permutation.
  - exact Hshapes.
Qed.

Lemma reduce_inherited (rest done : list Agent.instruction) (g : groups) :
  groupedBy g done ->
  Exists (fun i => In (Agent.platform i) Receiver.objectPrototype) rest ->
  reduce g rest = Err TypeError.
Proof.
  revert done g. induction rest as [| i rest IH]; intros done g Hg Hex;
    [inversion Hex |].
  cbn [reduce].
  destruct (in_dec string_dec (Agent.platform i) Receiver.objectPrototype) as [Hi | Hi].
  - unfold add. destruct Hg as [_ [_ [_ Hplain]]].
    replace (lookup (Agent.platform i) g) with (@None (list share)).
    + replace (existsb (String.eqb (Agent.platform i)) Receiver.objectPrototype)
        with true; [reflexivity |].
      symmetry. apply existsb_exists. exists (Agent.platform i).
      split; [exact Hi | apply String.eqb_refl].
    + symmetry. apply lookup_keys. intros Hk. exact (Hplain _ Hk Hi).
  - destruct (add_groups g done i Hg Hi) as [g1 [Ha Hg1]]. rewrite Ha. cbn [bind].
    apply (IH (done ++ [i])%list g1 Hg1).
    inversion Hex as [? ? Hhere | ? ? Hlater]; subst; [contradiction | exact Hlater].
Qed.

Lemma main_inherited (instructions : list Agent.instruction) :
  Exists (fun i => In (Agent.platform i) Receiver.objectPrototype) instructions ->
  main instructions = Failed TypeError.
Proof.
  intros Hex.
  assert (Hempty : groupedBy [] []).
  { split; [apply NoDup_nil |]. repeat split; intros; contradiction. }
  unfold main, byPlatform. rewrite (reduce_inherited instructions [] [] Hempty Hex).
  destruct instructions; [inversion Hex | reflexivity].
Qed.

End GroupFacts.

(** X26: every instruction is paid once.  The instructions are records
    of a receiver and a platform that are strings and of an amount that
    is a number, as the fallback parser makes them.  When no platform
    among them is the name of a member every object inherits, the agent
    makes one payment for each platform, the single payment of the
    instruction where the platform has one and a batch of its
    instructions, in their order, where it has more, and what the
    payments pay, platform by platform, receiver by receiver, is what
    the instructions ask for, no more and no less.  When a platform is
    such a name, [constructor] for one, the grouping fails on it with a
    [TypeError] and nothing is paid. *)
Theorem agent_pays_each_instruction_once (instructions : list Agent.instruction) :
  (instructions <> [] ->
   Forall (fun i => ~ In (Agent.platform i) Receiver.objectPrototype) instructions ->
   exists payments,
     AgentCommand.main instructions = AgentCommand.Payments payments
     /\ Permutation (concat (map paid payments)) (map due instructions)
     /\ NoDup (map platformOf payments)
     /\ Forall (shaped instructions) payments)
  /\ (Exists (fun i => In (Agent.platform i) Receiver.objectPrototype) instructions ->
      AgentCommand.main instructions = AgentCommand.Failed TypeError).
Proof.
  split; [apply main_payments | apply main_inherited].
Qed.

Lemma agent_pays_each_instruction_once_witness :
  AgentCommand.main
    [ Agent.Instruction "toly" (JS.Fin 1) "farcaster";
      Agent.Instruction "aeyakovenko" (JS.Fin (1 # 2)) "x";
      Agent.Instruction "mesut" (JS.Fin (1 # 4)) "farcaster" ]
  = AgentCommand.Payments
      [ AgentCommand.Batch "farcaster"
          [ AgentCommand.Share "toly" (JS.Fin 1);
            AgentCommand.Share "mesut" (JS.Fin (1 # 4)) ];
        AgentCommand.Single (Agent.Instruction "aeyakovenko" (JS.Fin (1 # 2)) "x") ]
  /\ exists payments,
       AgentCommand.main
         [ Agent.Instruction "toly" (JS.Fin 1) "farcaster";
           Agent.Instruction "aeyakovenko" (JS.Fin (1 # 2)) "x";
           Agent.Instruction "mesut" (JS.Fin (1 # 4)) "farcaster" ]
       = AgentCommand.Payments payments
       /\ Permutation (concat (map paid payments))
            [ ("farcaster", "toly", JS.Fin 1); ("x", "aeyakovenko", JS.Fin (1 # 2));
              ("farcaster", "mesut", JS.Fin (1 # 4)) ]
       /\ NoDup (map platformOf payments)
       /\ Forall (shaped
                    [ Agent.Instruction "toly" (JS.Fin 1) "farcaster";
                      Agent.Instruction "aeyakovenko" (JS.Fin (1 # 2)) "x";
                      Agent.Instruction "mesut" (JS.Fin (1 # 4)) "farcaster" ])
                 payments.
Proof.
  split; [reflexivity |].
  apply (proj1 (agent_pays_each_instruction_once
                  [ Agent.Instruction "toly" (JS.Fin 1) "farcaster";
                    Agent.Instruction "aeyakovenko" (JS.Fin (1 # 2)) "x";
                    Agent.Instruction "mesut" (JS.Fin (1 # 4)) "farcaster" ])).
  - discriminate.
  - repeat apply Forall_cons; try apply Forall_nil; cbn;
      intros H; repeat (destruct H as [H | H]; [discriminate H |]); exact H.
Defined.

(** X27: without a provider the agent pays what the templates found: for
    every prompt, either the templates find nothing and the agent stops
    with no payment, or it makes one payment for each platform found and
    these payments pay every instruction found exactly once. *)
Theorem agent_pays_what_the_templates_found (prompt : string) :
  exists instructions,
    Agent.fallbackParser prompt = Some instructions
    /\ ((instructions = []
         /\ AgentCommand.main instructions = AgentCommand.NoInstructions)
        \/ exists payments,
             AgentCommand.main instructions = AgentCommand.Payments payments
             /\ Permutation (concat (map paid payments)) (map due instructions)
             /\ NoDup (map platformOf payments)).
Proof.
  destruct (fallbackParser_returns prompt) as [instructions H].
  exists instructions. split; [exact H |].
  destruct instructions as [| i rest]; [left; split; reflexivity |].
  right.
  cut (exists payments,
          AgentCommand.main (i :: rest) = AgentCommand.Payments payments
          /\ Permutation (concat (map paid payments)) (map due (i :: rest))
          /\ NoDup (map platformOf payments)
          /\ Forall (shaped (i :: rest)) payments).
  { intros [payments [Hm [Hp [Hn _]]]]. exists payments.
    split; [exact Hm | split; [exact Hp | exact Hn]]. }
  apply main_payments; [discriminate |].
  unfold Agent.fallbackParser in H.
  apply (collect_all (fun i => ~ In (Agent.platform i) Receiver.objectPrototype) prompt)
    with (ps := Agent.patterns) (acc := []).
  - intros source pattern m after Hin Hrun.
    destruct (template_instruction source pattern m after Hin Hrun) as [[Hp _] _].
    intros Hproto. cbn in Hp, Hproto.
    repeat (destruct Hp as [Hp | Hp];
            [rewrite <- Hp in Hproto;
             repeat (destruct Hproto as [Hproto | Hproto]; [discriminate Hproto |]);
             exact Hproto |]).
    exact Hp.
  - intros p Hp. exact Hp.
  - apply Forall_nil.
  - exact H.
Qed.


(** ** The file of a batch *)

Section FileFacts.

Variable resolve : string -> string.
Variable readFileSync : string -> string + string.
Variable JSON_parse : string -> string + value.

Lemma cleanPath_prefix (path : string) :
  BatchFile.cleanPath ("file:" ++ path) = path.
Proof.
  unfold BatchFile.cleanPath.
  replace (JS.startsWith ("file:" ++ path) "file:") with true by reflexivity.
  exact (substringFrom_back "file" path ":").
Qed.

Lemma loadFromFile_result (filePath : string) (data : value) :
  BatchFile.loadFromFile resolve readFileSync JSON_parse filePath = Ok data <->
  exists content,
    readFileSync (resolve (BatchFile.cleanPath filePath)) = inr content
    /\ JSON_parse content = inr data.
Proof.
  unfold BatchFile.loadFromFile. split.
  - destruct (readFileSync (resolve (BatchFile.cleanPath filePath)))
      as [reason | content]; [discriminate |].
    destruct (JSON_parse content) as [reason | d] eqn:Ej; [discriminate |].
    intros H. inversion H; subst. exists content. split; [reflexivity | exact Ej].
  - intros [content [Hr Hj]]. rewrite Hr, Hj. reflexivity.
Qed.

End FileFacts.

(** X28: an input of the batch command that begins with [file:] names a file:
    the command reads the file at the path after the prefix and nothing
    else, and the batch is the one the JSON checks make of the document
    parsed from it.  When the file cannot be read, or is not JSON, the
    error names the input as it was typed, prefix included, with the
    reason; what the JSON checks reject is raised as it is. *)
Theorem parseInput_reads_the_named_file
        (numberText : JS.number -> string)
        (JSON_text loadFromURL : string -> result value)
        (resolve : string -> string)
        (readFileSync : string -> string + string)
        (JSON_parse : string -> string + value)
        (path : string) :
  let parseInput :=
    BatchSend.parseInput numberText JSON_text
      (BatchFile.loadFromFile resolve readFileSync JSON_parse) loadFromURL in
  (forall parsed,
      parseInput ("file:" ++ path) = Ok parsed <->
      exists content data,
        readFileSync (resolve path) = inr content
        /\ JSON_parse content = inr data
        /\ BatchSend.parseJSONPayments numberText data = Ok parsed)
  /\ (forall reason,
         readFileSync (resolve path) = inl reason ->
         parseInput ("file:" ++ path) = Err (FailedToRead ("file:" ++ path) reason))
  /\ (forall content reason,
         readFileSync (resolve path) = inr content ->
         JSON_parse content = inl reason ->
         parseInput ("file:" ++ path) = Err (FailedToRead ("file:" ++ path) reason))
  /\ (forall content data,
         readFileSync (resolve path) = inr content ->
         JSON_parse content = inr data ->
         parseInput ("file:" ++ path) = BatchSend.parseJSONPayments numberText data).
Proof.
  intros parseInput.
  assert (Hbranch : parseInput ("file:" ++ path)
                    = (data <- BatchFile.loadFromFile resolve readFileSync JSON_parse
                                 ("file:" ++ path) ;;
                       BatchSend.parseJSONPayments numberText data)).
  { unfold parseInput, BatchSend.parseInput.
    replace (JS.startsWith ("file:" ++ path) "http://") with false by reflexivity.
    replace (JS.startsWith ("file:" ++ path) "https://") with false by reflexivity.
    replace (JS.startsWith ("file:" ++ path) "file:") with true by reflexivity.
    reflexivity. }
  assert (Hload : forall content data,
             readFileSync (resolve path) = inr content ->
             JSON_parse content = inr data ->
             parseInput ("file:" ++ path) = BatchSend.parseJSONPayments numberText data).
  { intros content data Hr Hj. rewrite Hbranch.
    unfold BatchFile.loadFromFile. rewrite cleanPath_prefix, Hr, Hj. reflexivity. }
  split; [| split; [| split]].
  - intros parsed. split.
    + rewrite Hbranch.
      destruct (BatchFile.loadFromFile resolve readFileSync JSON_parse ("file:" ++ path))
        as [data |] eqn:El; [| discriminate].
      cbn [bind]. intros Hp.
      apply loadFromFile_result in El. destruct El as [content [Hr Hj]].
      rewrite cleanPath_prefix in Hr.
      exists content, data. split; [exact Hr | split; [exact Hj | exact Hp]].
    + intros [content [data [Hr [Hj Hp]]]]. rewrite (Hload content data Hr Hj). exact Hp.
  - intros reason Hr. rewrite Hbranch.
    unfold BatchFile.loadFromFile. rewrite cleanPath_prefix, Hr. reflexivity.
  - intros content reason Hr Hj. rewrite Hbranch.
    unfold BatchFile.loadFromFile. rewrite cleanPath_prefix, Hr, Hj. reflexivity.
  - exact Hload.
Qed.

Lemma parseInput_reads_the_named_file_witness :
  let document :=
    quote ++ "platform" ++ quote ++ ":" ++ quote ++ "x" ++ quote ++ ","
    ++ quote ++ "payments" ++ quote ++ ":[]" in
  BatchSend.parseInput (fun _ => EmptyString) (fun _ => Err SyntaxError)
    (BatchFile.loadFromFile
       (fun path => "/home/" ++ path)
       (fun path => if String.eqb path "/home/payments.json"
                    then inr ("{" ++ document ++ "}") else inl "ENOENT")
       (fun _ => inr (Obj [("platform", Str "x"); ("payments", Arr [])])))
    (fun url => Err (FailedToFetch url "ENOTFOUND"))
    "file:payments.json"
  = Ok (BatchSend.Batch (Receiver.Platform "x") []).
Proof.
  intros document.
  apply (proj2 (proj1 (parseInput_reads_the_named_file
                         (fun _ => EmptyString) (fun _ => Err SyntaxError)
                         (fun url => Err (FailedToFetch url "ENOTFOUND"))
                         (fun path => "/home/" ++ path)
                         (fun path => if String.eqb path "/home/payments.json"
                                      then inr ("{" ++ document ++ "}") else inl "ENOENT")
                         (fun _ => inr (Obj [("platform", Str "x");
                                             ("payments", Arr [])]))
                         "payments.json")
                      (BatchSend.Batch (Receiver.Platform "x") []))).
  exists ("{" ++ document ++ "}"), (Obj [("platform", Str "x"); ("payments", Arr [])]).
  split; [reflexivity | split; reflexivity].
Defined.

(** ** The batch command by flags *)

(** X29: the batch command by flags checks the shape of its receivers and no
    more: whenever it reaches its request, the identity is a string that
    is one of the five platform names up to case and is posted as it was
    given, the receivers are the elements of the array that the text of
    the flag parses to, as they were parsed, and the network is the one
    the resolution selected.  No element is looked at: on platform [x],
    every text that parses to an array goes through with the elements it
    has. *)
Theorem batch_pay_posts_array_unchecked
        (numberText : JS.number -> string)
        (JSON_parse : string -> result value)
        (receiver_identity receivers : value)
        (network privateKey svmPrivateKey : option string) :
  (forall r,
      BatchPay.command numberText JSON_parse receiver_identity receivers
        network privateKey svmPrivateKey = BatchPay.Post r ->
      receiver_identity = Str (BatchPay.receiver_identity r)
      /\ In (JS.toLowerCase (BatchPay.receiver_identity r)) Receiver.allowedIdentities
      /\ (exists receiversText,
             Value.toText numberText receivers = Ok receiversText
             /\ JSON_parse receiversText = Ok (Arr (BatchPay.receivers r)))
      /\ Network.resolve network privateKey svmPrivateKey
         = Network.Run (BatchPay.useSolana r))
  /\ (forall receiversText items,
         receiversText <> "" ->
         JSON_parse receiversText = Ok (Arr items) ->
         BatchPay.command numberText JSON_parse (Str "x") (Str receiversText)
           None None (Some "5Kd3N")
         = BatchPay.Post (BatchPay.Request "x" items true)).
Proof.
  split.
  - intros r. unfold BatchPay.command.
    destruct (negb (Value.truthy receiver_identity) || negb (Value.truthy receivers));
      [discriminate |].
    destruct receiver_identity as [| | | | identity | |]; try discriminate.
    destruct (existsb (String.eqb (JS.toLowerCase identity)) Receiver.allowedIdentities)
      eqn:El; [| discriminate].
    cbn [negb].
    destruct (Value.toText numberText receivers) as [receiversText |] eqn:Et;
      [| discriminate].
    cbn [bind].
    destruct (JSON_parse receiversText) as [parsed |] eqn:Ej; [| discriminate].
    destruct parsed as [| | | | | items |]; try discriminate.
    destruct (Network.resolve network privateKey svmPrivateKey) as [f | useSolana];
      [discriminate |].
    intros H. inversion H; subst r.
    cbn [BatchPay.receiver_identity BatchPay.receivers BatchPay.useSolana].
    split; [reflexivity |].
    split.
    { apply existsb_exists in El. destruct El as [k [Hk E]].
      apply String.eqb_eq in E. rewrite E. exact Hk. }
    split; [exists receiversText; split; [reflexivity | exact Ej] | reflexivity].
  - intros receiversText items Hne Hj. unfold BatchPay.command.
    destruct receiversText as [| c rest]; [contradiction Hne; reflexivity |].
    cbn [Value.truthy JS.isEmpty negb orb].
    replace (Value.toText numberText (Str (String c rest))) with (Ok (String c rest))
      by reflexivity.
    cbn [bind]. rewrite Hj. reflexivity.
Qed.

Lemma batch_pay_posts_array_unchecked_witness :
  BatchPay.command (fun _ => EmptyString)
    (fun _ => Ok (Arr [Null; Num (JS.ofN 7)]))
    (Str "x") (Str "[null,7]") None None (Some "5Kd3N")
  = BatchPay.Post (BatchPay.Request "x" [Null; Num (JS.ofN 7)] true).
Proof.
  apply (proj2 (batch_pay_posts_array_unchecked (fun _ => EmptyString)
                  (fun _ => Ok (Arr [Null; Num (JS.ofN 7)]))
                  (Str "x") (Str "[null,7]") None None (Some "5Kd3N"))).
  - discriminate.
  - reflexivity.
Defined.

(** ** The size of a batch *)

Section SizeFacts.

Lemma forEach_length {A B : Type} (f : A -> result B) (l : list A) (bs : list B) :
  forEach f l = Ok bs -> List.length bs = List.length l.
Proof.
  revert bs. induction l as [| a l IH]; intros bs H; cbn [forEach] in H.
  - inversion H. reflexivity.
  - destruct (f a) as [b |]; [| discriminate H]. cbn [bind] in H.
    destruct (forEach f l) as [rest |]; [| discriminate H]. cbn [bind] in H.
    inversion H; subst. cbn [List.length]. rewrite (IH rest eq_refl). reflexivity.
Qed.

Lemma normalizePlatform_truthy (name : string) (platform : Receiver.identity) :
  Receiver.normalizePlatform name = Ok platform -> Value.truthy (Str name) = true.
Proof.
  destruct name as [| c rest]; [discriminate | reflexivity].
Qed.

End SizeFacts.

(** X30: the compact form cannot describe an empty batch, the JSON form can.
    A compact input that parses has as many payments as the text after
    its first slash has commas, and one more: one at least, and no pair
    between two commas is skipped.  A document with a platform that is
    known and an empty array of payments parses to the batch without
    payments. *)
Theorem batch_sizes :
  (forall input parsed,
      BatchSend.parseCommaSeparated input = Ok parsed ->
      exists firstSlash,
        JS.indexOf "/" input = Some firstSlash
        /\ List.length (BatchSend.payments parsed)
           = S (occurrences "," (JS.substringFrom input (firstSlash + 1))))
  /\ (forall numberText name platform,
         Receiver.normalizePlatform name = Ok platform ->
         BatchSend.parseJSONPayments numberText
           (Obj [("platform", Str name); ("payments", Arr [])])
         = Ok (BatchSend.Batch platform [])).
Proof.
  split.
  - intros input parsed. unfold BatchSend.parseCommaSeparated.
    destruct (JS.indexOf "/" input) as [firstSlash |]; [| discriminate].
    destruct (Receiver.normalizePlatform (JS.substring2 input 0 firstSlash))
      as [platform |]; [| discriminate].
    cbn [bind].
    match goal with
    | |- context [forEach ?f ?l] =>
        destruct (forEach f l) as [payments |] eqn:Ef; [| discriminate]
    end.
    cbn [bind]. intros H. inversion H; subst parsed.
    exists firstSlash. split; [reflexivity |].
    cbn [BatchSend.payments].
    rewrite (forEach_length _ _ _ Ef). apply split_length.
  - intros numberText name platform Hn.
    unfold BatchSend.parseJSONPayments.
    cbn [Value.get Value.field String.eqb Ascii.eqb Bool.eqb andb bind].
    rewrite (normalizePlatform_truthy _ _ Hn). cbn [negb].
    replace (Value.field "payments" [("platform", Str name); ("payments", Arr [])])
      with (Arr []) by reflexivity.
    cbn [bind]. rewrite Hn. reflexivity.
Qed.

Lemma batch_sizes_witness :
  BatchSend.parseCommaSeparated ("x/alice:1" ++ centSign ++ ",")
  = Err (MissingAmount "")
  /\ BatchSend.parseJSONPayments (fun _ => EmptyString)
       (Obj [("platform", Str "Twitter"); ("payments", Arr [])])
     = Ok (BatchSend.Batch (Receiver.Platform "x") []).
Proof.
  split; [reflexivity |].
  apply (proj2 batch_sizes (fun _ => EmptyString) "Twitter" (Receiver.Platform "x")).
  reflexivity.
Defined.
